(* ===== verification/_CoqProject ===== *)
-Q . S2P
Prelude.v
Arc.v
RwLock.v
Query.v
Plugin.v
Facade.v
Lifecycle.v
Concurrency.v
Refinement.v
Ownership.v
ConcurrentArc.v
SoloCaller.v
