(* ===== verification/Prelude.v ===== *)
(** * A verified model of the inexor binary plugin (src/src/plugin.rs)

    The repository is one Rust source file, [src/src/plugin.rs], which
    defines the plugin facade [BinaryPluginImpl] of the inexor reactive
    graph flow runtime.  The facade owns four provider objects injected at
    construction (component, entity-type, component-behaviour and
    web-resource providers) and a [PluginContextContainer], a
    [RwLock<Option<Arc<dyn PluginContext>>>].  It implements the [Plugin]
    trait: [metadata], four lifecycle hooks, [set_context] (store the
    context in the container, then forward a clone to the web-resource
    provider) and eight capability getters, four of which clone a provider
    [Arc] and view it through a role interface with [query_arc], the other
    four of which always answer with their absence error.

    The files, in dependency order, and the code each one models:
    - [Prelude]: Rust's [Result] as [result]; the state-and-panic monad
      [st S A = S -> option (A * S)] ([None] is a panic or an abort),
      with notations in [st_scope]; heap locations [loc]; counting and
      summing over lists; frame reasoning ([preserves]); the hint
      databases [rc] and [frame].
    - [Arc]: [std::sync::Arc] over a heap [gmap loc (object P)] of
      payloads with strong counts.  [arc_new], [arc_clone] (aborts when
      the count exceeds [MAX_REFCOUNT = isize::MAX = 2^63 - 1], the bound
      of the standard library on 64-bit targets), [arc_drop] (decrement;
      on the last handle free the object and drop the handles its payload
      holds, in field order).  The invariant [rc_ok h E]: every strong
      count is the number of handles, those of the owner multiset [E] and
      those stored in live objects; every operation keeps it.  A clone
      followed by its drop gives back the heap.
    - [RwLock]: [std::sync::RwLock] as lock state, poison flag and data;
      [PluginContextContainer] and [create_empty_plugin_context_container]
      (plugin.rs lines 26-32); the statement
      [self.context.0.write().unwrap().replace(..)] of line 81, split as
      Rust evaluates it (take the lock, then clone, then replace); guards
      give the lock back exactly.
    - [Query]: the role interfaces of [crate::plugins] (lines 11-20), the
      concrete types, their [interfaces!] registrations (line 49) and
      [query_arc].
    - [Plugin]: the payloads of the heap ([BinaryPluginImpl], lines
      37-45, and the providers), every method of [impl Plugin for
      BinaryPluginImpl] (lines 55-137) as a computation in [st] with each
      clone and drop the Rust code performs, the [Plugin] trait as a
      [Class] and the impl as its [Instance]; the marker trait
      [BinaryPlugin] (lines 34-35, 51-53) as a class over [Plugin].
    - [Facade]: the composition root [construct] and the well-formedness
      invariant [facade_ok]; functional behaviour of every getter and of
      [set_context] (C1, C2), the defensive branch of a getter (C3), the
      exact abort condition of a getter (C4), the error path of a
      poisoned or held lock in [set_context] (C13), and the exact abort
      condition of [set_context]'s two clones, which depends on whether
      the container already held the context because the replaced handle
      is dropped in between (C16).
    - [Lifecycle]: the host's lifecycle protocol against the [Plugin]
      class, and the host's world (heap, host handles, facade, lifecycle
      state) with an executable step [host_exec] per host action and the
      step relation [host_step]: the invariant holds in every reachable
      world (C5), no action panics below the count bound (C6), and wired
      queries always return the constructed slot (C7).
    - [Concurrency]: [set_context] split at its lock operations (lines
      81-82), readers of the two containers, an interleaving scheduler:
      no deadlock and no panic (C8), agreement of the containers with one
      caller (C9), and what readers observe around one call: the old or
      the new context, and the new one in both containers once the call
      returned (C12).  Two traces back findings: two concurrent callers
      can leave the web-resource provider with the older context for
      good, and a read can see the new context before the call has
      returned and before the provider has it.
    - [Refinement]: the specification's abstract facade (cell, forwarded
      context, capability table, lifecycle) and a forward simulation of
      the host's steps on the concrete facade (C10); the last context set
      persists across any other host actions (C11).
    - [Ownership]: the drop glue of [BinaryPluginImpl] (its four [Wrc]
      fields and the container's handle, lines 37-44) under teardown.
      Payload types are ranked (facade above providers above contexts)
      and every host step keeps each object's handles pointing lower, so
      no reference cycle can form: releasing the facade when the host
      holds nothing else frees the whole heap (C14), and every provider
      or context the host still holds survives the release (C15), which
      the specification's "sole owner" wording does not allow for.
    - [ConcurrentArc]: [set_context] callers interleaved on the Arc heap
      itself, one step per atomic operation of lines 81-84 (lock, clone,
      replace, drop of the replaced [Option], unlock, second clone, the
      provider's lock, replace, drop and unlock, drop of the parameter).
      [rc_spec X m Y], a Hoare logic of owned handles, proves each step
      once: counts stay exact under every interleaving and nothing leaks
      once the calls return (C17); no interleaving deadlocks or panics
      below the count bound (C18); once every call has returned both
      locks are free and unpoisoned (C19).
    - [SoloCaller]: one call's eleven steps, run with no other caller in
      between, fulfil [set_context]'s contract: the call returns, both
      containers are at rest holding the new context and the counts stay
      exact (C20).  The proof goes through [solo_run_sequential]: a
      context holds no handles, so its drop ([drop_leaf]) commutes with
      the extra writes of the facade's and the provider's objects that
      the finer steps make, and the steps compute the heap of the
      sequential [set_context] of [Plugin].

    Bounds and fuel.  Counts are mathematical integers compared against
    [MAX_REFCOUNT]; the abort of [Arc::clone] is the only overflow
    behaviour the code can reach (a count never wraps, as in the standard
    library).  [arc_drop] recurses with fuel [1 + size h]: each recursive
    drop starts after freeing one object, so the fuel never runs out on a
    heap satisfying [rc_ok] ([arc_drop_ok] proves the drop returns).  The
    concurrent models need no fuel: every step of [Concurrency] lowers
    the number of steps left ([cstep_work], the measure of the deadlock
    freedom proof), and [ConcurrentArc] runs explicit finite schedules
    ([run_arc]).

    Not modelled: [Weak] counts (the crate creates none); memory orderings
    of the atomics (interleavings are sequentially consistent); fairness
    of the lock (the scheduler is arbitrary, and C8 shows a completing
    schedule exists); the [async_trait] and [waiter_di] macro expansions
    beyond the composition root; the providers' own business logic;
    readers of a container on the Arc heap (the crate never reads the
    context back; [Concurrency] models the specification's getter without
    counts); the unwinding of a caller that panics, which would drop its
    owned handles (no panic is reachable, C18).
*)

From stdpp Require Export base gmap gmultiset list countable numbers strings.
From Stdlib Require Export ZArith Lia.

(** ** Rust's [Result] *)

Inductive result (T E : Type) : Type :=
| Ok (t : T)
| Err (e : E).
Arguments Ok {T E} t.
Arguments Err {T E} e.

Definition is_err {T E} (r : result T E) : bool :=
  match r with Ok _ => false | Err _ => true end.

#[global] Instance result_eq_dec {T E} `{EqDecision T, EqDecision E} :
  EqDecision (result T E).
Proof. solve_decision. Defined.

(** ** The state-and-panic monad

    [st S A] runs on a state [S]; [None] is a panic or an abort of the
    running thread (an [unwrap] of an error, a poisoned lock, an [Arc]
    count overflow). *)

Definition st (S A : Type) : Type := S -> option (A * S).

Definition st_ret {S A} (a : A) : st S A := fun s => Some (a, s).
Definition st_bind {S A B} (m : st S A) (k : A -> st S B) : st S B :=
  fun s => match m s with Some (a, s') => k a s' | None => None end.
Definition st_get {S} : st S S := fun s => Some (s, s).
Definition st_put {S} (s : S) : st S unit := fun _ => Some (tt, s).
Definition st_panic {S A} : st S A := fun _ => None.

Declare Scope st_scope.
Delimit Scope st_scope with st.
Notation "x <- m ;; k" := (st_bind m (fun x => k))
  (at level 100, m at next level, right associativity) : st_scope.
Notation "'let2' a b <- m ;; k" := (st_bind m (fun x => let '(a, b) := x in k))
  (at level 100, a ident, b ident, m at next level, right associativity) : st_scope.
Notation "m ;;; k" := (st_bind m (fun _ => k))
  (at level 100, right associativity) : st_scope.
Notation "'ret' a" := (st_ret a) (at level 10) : st_scope.
Open Scope st_scope.

(** Monadic left fold, for dropping the fields of a value in order. *)
Fixpoint st_foldl {S A} (f : A -> st S unit) (l : list A) : st S unit :=
  match l with
  | [] => ret tt
  | x :: l' => f x ;;; st_foldl f l'
  end.

Lemma st_bind_ret_l {S A B} (a : A) (k : A -> st S B) s :
  st_bind (st_ret a) k s = k a s.
Proof. reflexivity. Qed.

Lemma st_bind_Some {S A B} (m : st S A) (k : A -> st S B) s a s' :
  m s = Some (a, s') -> st_bind m k s = k a s'.
Proof. unfold st_bind. by intros ->. Qed.

Lemma st_bind_None {S A B} (m : st S A) (k : A -> st S B) s :
  m s = None -> st_bind m k s = None.
Proof. unfold st_bind. by intros ->. Qed.

Lemma st_bind_inv {S A B} (m : st S A) (k : A -> st S B) s b s'' :
  st_bind m k s = Some (b, s'') ->
  exists a s', m s = Some (a, s') /\ k a s' = Some (b, s'').
Proof. unfold st_bind. destruct (m s) as [[a s']|]; [eauto|done]. Qed.

(** ** Heap locations: the addresses of [Arc] allocations *)

Record loc := Loc { loc_car : positive }.

#[global] Instance loc_eq_dec : EqDecision loc.
Proof. solve_decision. Defined.
#[global] Instance loc_countable : Countable loc.
Proof. by apply (inj_countable' loc_car Loc); intros []. Defined.
#[global] Instance loc_infinite : Infinite loc.
Proof. apply (inj_infinite Loc (fun l => Some (loc_car l))). done. Defined.

(** A decision procedure transported along an equivalence. *)
Definition decide_by_iff {P Q : Prop} (HPQ : P <-> Q) `{Decision Q} : Decision P :=
  match decide Q with
  | left q => left (proj2 HPQ q)
  | right nq => right (fun p => nq (proj1 HPQ p))
  end.

(** ** Automation shared by the development *)

Create HintDb rc.
Create Rewrite HintDb rc_rw.

#[export] Hint Rewrite @multiplicity_disj_union @multiplicity_empty
  @multiplicity_singleton_eq : rc_rw.

(** Close a decidable goal about concrete data by evaluation. *)
Ltac by_decide :=
  match goal with |- ?P => apply (bool_decide_unpack P); vm_compute; exact I end.

(** [step_st] unfolds the monad's plumbing after the definitions of an
    operation have been unfolded. *)
Ltac step_st :=
  repeat (unfold st_bind, st_ret, st_get, st_put, st_panic in *; simpl in *).

(** Multiplicity of an element in a union of multisets, per location. *)
Lemma multiplicity_singleton_dec (x y : loc) :
  multiplicity x {[+ y +]} = if decide (x = y) then 1 else 0.
Proof.
  case_decide; subst; [apply multiplicity_singleton_eq|].
  by apply multiplicity_singleton_ne.
Qed.

(** ** Counting the elements of a list that satisfy a test *)

Fixpoint count_if {A} (f : A -> bool) (l : list A) : nat :=
  match l with
  | [] => 0
  | x :: l => (if f x then 1 else 0) + count_if f l
  end.

Lemma count_if_insert {A} (f : A -> bool) l i x y :
  l !! i = Some x ->
  count_if f (<[i := y]> l) + (if f x then 1 else 0) = count_if f l + (if f y then 1 else 0).
Proof.
  induction l as [|a l IH] in i |- *; destruct i; simpl; intros H; simplify_eq/=.
  - lia.
  - specialize (IH _ H). lia.
Qed.

Lemma count_if_pos {A} (f : A -> bool) l i x :
  l !! i = Some x -> f x = true -> 1 <= count_if f l.
Proof.
  induction l as [|a l IH] in i |- *; destruct i; simpl; intros H Hf; simplify_eq/=.
  - rewrite Hf. lia.
  - specialize (IH _ H Hf). lia.
Qed.

Lemma count_if_two {A} (f : A -> bool) l i j x y :
  l !! i = Some x -> l !! j = Some y -> i <> j -> f x = true -> f y = true ->
  2 <= count_if f l.
Proof.
  induction l as [|a l IH] in i, j |- *; destruct i, j; simpl; intros Hi Hj Hne Hx Hy;
    simplify_eq/=; try lia.
  - pose proof (count_if_pos f l j y Hj Hy). rewrite Hx. lia.
  - pose proof (count_if_pos f l i x Hi Hx). rewrite Hy. lia.
  - assert (i <> j) by lia. specialize (IH _ _ Hi Hj H Hx Hy). lia.
Qed.

(** Replacing element [i] by [y]: the count of the others, [count_if f
    (<[i := z]> l)] for an element [z] the test rejects, plus [x]'s or [y]'s. *)
Lemma count_if_split {A} (f : A -> bool) l i x y z :
  l !! i = Some x -> f z = false ->
  count_if f l = count_if f (<[i := z]> l) + (if f x then 1 else 0) /\
  count_if f (<[i := y]> l) = count_if f (<[i := z]> l) + (if f y then 1 else 0).
Proof.
  intros Hi Hf. pose proof (count_if_insert f l i x z Hi) as H1.
  assert (Hi' : <[i := z]> l !! i = Some z).
  { apply list_lookup_insert_eq. eapply lookup_lt_Some; eauto. }
  pose proof (count_if_insert f _ i z y Hi') as H2.
  rewrite list_insert_insert_eq in H2. rewrite Hf in H1, H2. lia.
Qed.

Lemma count_if_exists {A} (f : A -> bool) l :
  1 <= count_if f l -> exists i x, l !! i = Some x /\ f x = true.
Proof.
  induction l as [|a l IH]; simpl; [lia|]. destruct (f a) eqn:Ha; intros Hc.
  - by exists 0, a.
  - destruct IH as (i & x & Hi & Hx); [lia|]. by exists (S i), x.
Qed.

Fixpoint sum_by {A} (f : A -> nat) (l : list A) : nat :=
  match l with
  | [] => 0
  | x :: l => f x + sum_by f l
  end.

Lemma sum_by_insert {A} (f : A -> nat) l i x y :
  l !! i = Some x -> sum_by f (<[i := y]> l) + f x = sum_by f l + f y.
Proof.
  induction l as [|a l IH] in i |- *; destruct i; simpl; intros H; simplify_eq/=.
  - lia.
  - specialize (IH _ H). lia.
Qed.

Lemma count_if_zero {A} (f : A -> bool) l :
  (forall i x, l !! i = Some x -> f x = false) -> count_if f l = 0.
Proof.
  induction l as [|a l IH]; simpl; intros H; [done|].
  rewrite (H 0 a eq_refl), IH; [done|]. intros i x. apply (H (S i)).
Qed.

(** ** Frame reasoning in the state monad

    [preserves R m]: every successful run of [m] relates its initial and
    final states by [R].  With [R] a preorder this composes along [;;]. *)

Section Preserves.
Context {S : Type} (R : S -> S -> Prop) `{!PreOrder R}.

Definition preserves {A} (m : st S A) : Prop :=
  forall s a s', m s = Some (a, s') -> R s s'.

Lemma preserves_ret {A} (a : A) : preserves (ret a).
Proof. intros s ? s' [= _ <-]. reflexivity. Qed.

Lemma preserves_panic {A} : preserves (@st_panic S A).
Proof. by intros ???. Qed.

Lemma preserves_bind {A B} (m : st S A) (k : A -> st S B) :
  preserves m -> (forall a, preserves (k a)) -> preserves (st_bind m k).
Proof.
  intros Hm Hk s b s'' Hb. apply st_bind_inv in Hb as (a & s' & H1 & H2).
  transitivity s'; [by eapply Hm|by eapply Hk].
Qed.

Lemma preserves_foldl {A} (f : A -> st S unit) l :
  (forall x, preserves (f x)) -> preserves (st_foldl f l).
Proof. intros Hf. induction l; simpl; auto using preserves_ret, preserves_bind. Qed.

End Preserves.

Create HintDb frame.
#[export] Hint Resolve preserves_ret preserves_panic preserves_bind preserves_foldl : frame.

(** A computation that leaves the state as it found it. *)
Lemma preserves_read {S A} (R : S -> S -> Prop) `{!PreOrder R} (m : st S A) :
  (forall s a s', m s = Some (a, s') -> s' = s) -> preserves R m.
Proof. intros Hm s a s' Hs. rewrite (Hm _ _ _ Hs). reflexivity. Qed.
