(* ===== verification/Arc.v ===== *)
(** * Shared ownership: a heap of [Arc] allocations

    Every object the plugin touches lives behind an [Arc] (the [Wrc]
    provider fields of [BinaryPluginImpl], the [Arc<dyn PluginContext>] in
    the container, the role views handed out by the getters).  This file
    models the part of [std::sync::Arc] the plugin's code exercises:
    [Arc::new], [Arc::clone] (with its abort above [isize::MAX]) and
    [Arc::drop] (deallocation and recursive drop of the fields when the
    strong count reaches zero), over a heap of objects whose payload type
    [P] declares, through the class [HasRefs], which [Arc] handles it holds.

    The invariant [rc_ok h E] says that every live object's strong count is
    the number of handles to it, counting the handles [E] held outside the
    heap and those held inside live objects, and that no handle dangles.
    The frame relation [vals_kept] records which payloads a computation
    leaves as they were: clones and drops keep all of them. *)

From S2P Require Import Prelude.

(** The handles a payload holds, in field declaration order (the order in
    which Rust's drop glue drops them). *)
Class HasRefs (P : Type) := payload_refs : P -> list loc.

Record object (P : Type) := Obj { obj_val : P; obj_strong : Z }.
Arguments Obj {P} obj_val obj_strong.
Arguments obj_val {P} o.
Arguments obj_strong {P} o.

Abbreviation heap P := (gmap loc (object P)).

(** [isize::MAX] on a 64-bit target: [Arc::clone] aborts when the count it
    just incremented was above it. *)
Definition MAX_REFCOUNT : Z := (2 ^ 63 - 1)%Z.

Section ArcOps.
Context {P : Type} `{HasRefs P}.

(** [Arc::new(v)]: a fresh allocation with strong count 1. *)
Definition arc_new (v : P) : st (heap P) loc :=
  fun h => let l := fresh (dom h) in Some (l, <[l := Obj v 1%Z]> h).

(** [Arc::clone]: [fetch_add(1)]; abort when the old count exceeds
    [MAX_REFCOUNT].  A dangling handle has no count to increment. *)
Definition arc_clone (l : loc) : st (heap P) loc :=
  fun h =>
    match h !! l with
    | None => None
    | Some o =>
        if decide (MAX_REFCOUNT < obj_strong o)%Z then None
        else Some (l, <[l := Obj (obj_val o) (obj_strong o + 1)%Z]> h)
    end.

(** [Arc::drop]: [fetch_sub(1)]; when the count was 1 the allocation is
    freed and the handles of its payload are dropped in field order.  The
    recursion is bounded by [fuel]; [arc_drop] gives it one more than the
    number of live objects, which [arc_drop_ok] shows is enough. *)
Fixpoint arc_drop_fuel (fuel : nat) (l : loc) : st (heap P) unit :=
  match fuel with
  | O => st_panic
  | S f => fun h =>
      match h !! l with
      | None => None
      | Some o =>
          if decide (obj_strong o = 1%Z)
          then st_foldl (arc_drop_fuel f) (payload_refs (obj_val o)) (delete l h)
          else Some (tt, <[l := Obj (obj_val o) (obj_strong o - 1)%Z]> h)
      end
  end.

Definition arc_drop (l : loc) : st (heap P) unit :=
  fun h => arc_drop_fuel (S (size h)) l h.

(** The handle an [Option<Arc<_>>] holds. *)
Definition option_handles (o : option loc) : list loc :=
  match o with Some l => [l] | None => [] end.

(** Dropping an [Option<Arc<_>>]: nothing for [None]. *)
Definition option_drop (o : option loc) : st (heap P) unit :=
  match o with Some l => arc_drop l | None => ret tt end.

(** Interior mutability: the payload of a live object is replaced in place
    (what a write through its [RwLock] does); its count is unchanged. *)
Definition heap_write (l : loc) (v : P) : st (heap P) unit :=
  fun h =>
    match h !! l with
    | None => None
    | Some o => Some (tt, <[l := Obj v (obj_strong o)]> h)
    end.

Definition heap_read (l : loc) : st (heap P) P :=
  fun h => match h !! l with None => None | Some o => Some (obj_val o, h) end.

(** ** The reference-count invariant *)

Definition refs_of (v : P) : gmultiset loc := list_to_set_disj (payload_refs v).

(** Every handle stored inside a live object. *)
Definition heap_refs (h : heap P) : gmultiset loc :=
  map_fold (fun _ o acc => refs_of (obj_val o) ⊎ acc) ∅ h.

(** The invariant at one location. *)
Definition rc_at (h : heap P) (E : gmultiset loc) (l : loc) : Prop :=
  match h !! l with
  | Some o => (0 < multiplicity l (E ⊎ heap_refs h))%nat /\
              obj_strong o = Z.of_nat (multiplicity l (E ⊎ heap_refs h))
  | None => multiplicity l (E ⊎ heap_refs h) = 0%nat
  end.

Definition rc_ok (h : heap P) (E : gmultiset loc) : Prop := forall l, rc_at h E l.

(** From [h] to [h'] objects were only freed or had their counts lowered:
    every object of [h'] was in [h] with the same payload and a count at
    least as high. *)
Definition payloads_kept (h h' : heap P) : Prop :=
  forall l o', h' !! l = Some o' ->
    exists o, h !! l = Some o /\ obj_val o = obj_val o' /\ (obj_strong o' <= obj_strong o)%Z.

End ArcOps.

(** ** Facts about the heap and the invariant *)

Section ArcFacts.
Context {P : Type} `{HasRefs P}.
Implicit Types (h : heap P) (E : gmultiset loc) (o : object P) (v : P).

Lemma heap_refs_insert h l o :
  heap_refs (<[l := o]> h) = refs_of (obj_val o) ⊎ heap_refs (delete l h).
Proof.
  unfold heap_refs. rewrite <- insert_delete_eq.
  rewrite map_fold_insert_L; [done | intros; multiset_solver | apply lookup_delete_eq].
Qed.

Lemma heap_refs_delete h l o :
  h !! l = Some o -> heap_refs h = refs_of (obj_val o) ⊎ heap_refs (delete l h).
Proof.
  intros Hl. unfold heap_refs.
  rewrite (map_fold_delete_L _ _ l o); [done | intros; multiset_solver | done].
Qed.

(** The per-location arithmetic of every preservation proof below: fix a
    location [l'], compare it with the modified one, rewrite the heap's
    handles around [delete l h] and count. *)
Ltac rc_count_at Hrc l l' :=
  unfold rc_at in *;
  repeat first [ rewrite heap_refs_insert | rewrite heap_refs_insert in Hrc ];
  try erewrite (heap_refs_delete _ l) in Hrc by eassumption;
  try rewrite (delete_id _ l) by eassumption;
  destruct (decide (l' = l)) as [->|?];
  simplify_map_eq; autorewrite with rc_rw in *;
  rewrite ?multiplicity_singleton_dec in *; repeat case_decide; simplify_eq;
  repeat case_match; simplify_eq; lia.

Ltac rc_count Hrc l :=
  let l' := fresh "l'" in
  intros l'; specialize (Hrc l'); rc_count_at Hrc l l'.

(** The invariant is decidable: outside the live objects and the counted
    handles it holds trivially. *)
#[global] Instance rc_at_dec h E l : Decision (rc_at h E l).
Proof. unfold rc_at. destruct (h !! l); apply _. Defined.

Lemma rc_ok_dom h E :
  rc_ok h E <-> set_Forall (rc_at h E) (dom h ∪ dom (E ⊎ heap_refs h)).
Proof.
  split; [intros Hrc l _; apply Hrc|]. intros Hall l.
  destruct (decide (l ∈ dom h ∪ dom (E ⊎ heap_refs h))) as [Hin|Hout]; [by apply Hall|].
  apply not_elem_of_union in Hout as [Hh Hm].
  rewrite gmultiset_elem_of_dom in Hm. apply not_elem_of_dom in Hh.
  unfold rc_at. rewrite Hh. by apply not_elem_of_multiplicity.
Qed.

#[global] Instance rc_ok_dec h E : Decision (rc_ok h E).
Proof. exact (decide_by_iff (rc_ok_dom h E)). Defined.

Lemma rc_ok_clone h E l o :
  rc_ok h E -> h !! l = Some o ->
  rc_ok (<[l := Obj (obj_val o) (obj_strong o + 1)%Z]> h) (E ⊎ {[+ l +]}).
Proof. intros Hrc Hl. rc_count Hrc l. Qed.

Lemma rc_ok_decrement h E l o :
  rc_ok h (E ⊎ {[+ l +]}) -> h !! l = Some o -> obj_strong o <> 1%Z ->
  rc_ok (<[l := Obj (obj_val o) (obj_strong o - 1)%Z]> h) E.
Proof. intros Hrc Hl Hs. rc_count Hrc l. Qed.

Lemma rc_ok_free h E l o :
  rc_ok h (E ⊎ {[+ l +]}) -> h !! l = Some o -> obj_strong o = 1%Z ->
  rc_ok (delete l h) (E ⊎ refs_of (obj_val o)).
Proof. intros Hrc Hl Hs. rc_count Hrc l. Qed.

Lemma rc_ok_alloc h E l v :
  rc_ok h (E ⊎ refs_of v) -> h !! l = None ->
  rc_ok (<[l := Obj v 1%Z]> h) (E ⊎ {[+ l +]}).
Proof. intros Hrc Hl. rc_count Hrc l. Qed.

(** Writing payload [v] over [obj_val o]: the handles [A] the new payload
    takes from outside and the handles [B] the old payload gives up balance,
    [refs_of v ⊎ B = refs_of (obj_val o) ⊎ A]. *)
Lemma rc_ok_write h E A B l o v :
  rc_ok h (E ⊎ A) -> h !! l = Some o ->
  refs_of v ⊎ B = refs_of (obj_val o) ⊎ A ->
  rc_ok (<[l := Obj v (obj_strong o)]> h) (E ⊎ B).
Proof.
  intros Hrc Hl Hbal l'. pose proof (f_equal (multiplicity l') Hbal) as Hb.
  autorewrite with rc_rw in Hb. specialize (Hrc l'). rc_count_at Hrc l l'.
Qed.

End ArcFacts.

Section PayloadsKept.
Context {P : Type}.
Implicit Types (h : heap P) (o : object P).

Lemma payloads_kept_refl h : payloads_kept h h.
Proof. intros l o' Hl. exists o'. split_and!; [done|done|lia]. Qed.

Lemma payloads_kept_trans h1 h2 h3 :
  payloads_kept h1 h2 -> payloads_kept h2 h3 -> payloads_kept h1 h3.
Proof.
  intros H12 H23 l o3 Hl3. destruct (H23 _ _ Hl3) as (o2 & Hl2 & <- & ?).
  destruct (H12 _ _ Hl2) as (o1 & Hl1 & <- & ?). exists o1. split_and!; [done|done|lia].
Qed.

Lemma payloads_kept_delete h l : payloads_kept h (delete l h).
Proof.
  intros x o' Hx. apply lookup_delete_Some in Hx as [_ Hx].
  exists o'. split_and!; [done|done|lia].
Qed.

Lemma payloads_kept_count h l o n :
  h !! l = Some o -> (n <= obj_strong o)%Z ->
  payloads_kept h (<[l := Obj (obj_val o) n]> h).
Proof.
  intros Hl Hn x o' Hx. destruct (decide (x = l)) as [->|?]; simplify_map_eq.
  - exists o. split_and!; [done|done|simpl; lia].
  - exists o'. split_and!; [done|done|lia].
Qed.

End PayloadsKept.

#[export] Hint Resolve payloads_kept_refl payloads_kept_delete : rc.

(** ** Specifications of the [Arc] operations *)

Section ArcSpecs.
Context {P : Type} `{HasRefs P}.
Implicit Types (h : heap P) (E : gmultiset loc) (o : object P) (v : P).

(** No handle dangles: a location counted among the handles is live. *)
Lemma rc_ok_live h E l :
  rc_ok h E -> l ∈ E -> exists o, h !! l = Some o.
Proof.
  intros Hrc Hin. specialize (Hrc l). unfold rc_at in Hrc. destruct (h !! l) as [o|]; [eauto|].
  rewrite elem_of_multiplicity in Hin. rewrite multiplicity_disj_union in Hrc. lia.
Qed.

(** A handle stored in a live object is live. *)
Lemma rc_ok_live_ref h E l o x :
  rc_ok h E -> h !! l = Some o -> x ∈ payload_refs (obj_val o) ->
  exists o', h !! x = Some o'.
Proof.
  intros Hrc Hl Hx. specialize (Hrc x). unfold rc_at in Hrc. destruct (h !! x) as [o'|]; [eauto|].
  rewrite (heap_refs_delete _ _ _ Hl) in Hrc.
  assert (x ∈ refs_of (obj_val o)) as Hin by by apply elem_of_list_to_set_disj.
  rewrite elem_of_multiplicity in Hin. autorewrite with rc_rw in Hrc. lia.
Qed.

Definition has_payload (h : heap P) (l : loc) (v : P) : Prop :=
  exists n, h !! l = Some (Obj v n).

#[global] Instance has_payload_dec `{EqDecision P} h l v : Decision (has_payload h l v).
Proof.
  unfold has_payload. destruct (h !! l) as [[v' n]|] eqn:Hl.
  - destruct (decide (v' = v)) as [Heq|Hne];
      [left; exists n; by rewrite Heq|right; intros [m Hm]; congruence].
  - right. intros [m Hm]. congruence.
Defined.

Lemma has_payload_kept h h' l v :
  payloads_kept h h' -> has_payload h l v -> (exists o', h' !! l = Some o') ->
  has_payload h' l v.
Proof.
  intros Hk [n Hl] [[v' n'] Hl']. destruct (Hk _ _ Hl') as (o & Ho & Hv & _).
  rewrite Hl in Ho. simplify_eq/=. by exists n'.
Qed.

Lemma has_payload_recount h l o n x v :
  h !! l = Some o -> has_payload h x v ->
  has_payload (<[l := Obj (obj_val o) n]> h) x v.
Proof.
  intros Hl [m Hx]. destruct (decide (x = l)) as [->|?].
  - rewrite Hl in Hx. simplify_eq/=. exists n. by rewrite lookup_insert_eq.
  - exists m. by rewrite lookup_insert_ne.
Qed.

(** Objects with different payloads sit at different locations. *)
Lemma has_payload_insert_other h l x v v0 o' :
  has_payload h x v -> has_payload h l v0 -> v <> v0 ->
  has_payload (<[l := o']> h) x v.
Proof.
  intros [n Hx] [m Hl] Hne. exists n. rewrite lookup_insert_ne; [done|].
  intros ->. congruence.
Qed.

Lemma has_payload_insert_eq h l v n : has_payload (<[l := Obj v n]> h) l v.
Proof. exists n. apply lookup_insert_eq. Qed.

Lemma has_payload_insert_fresh h l l' v o' :
  has_payload h l v -> h !! l' = None -> has_payload (<[l' := o']> h) l v.
Proof.
  intros [n Hl] Hl'. exists n. rewrite lookup_insert_ne; [done|]. intros ->. congruence.
Qed.

Lemma has_payload_insert_ne h l l' v v' n :
  l <> l' -> has_payload (<[l := Obj v n]> h) l' v' <-> has_payload h l' v'.
Proof. intros Hne. unfold has_payload. by rewrite lookup_insert_ne. Qed.

Lemma rc_ok_strong h E l o :
  rc_ok h E -> h !! l = Some o ->
  obj_strong o = Z.of_nat (multiplicity l (E ⊎ heap_refs h)).
Proof. intros Hrc Hl. specialize (Hrc l). unfold rc_at in Hrc. rewrite Hl in Hrc. tauto. Qed.

Lemma arc_clone_Some h l o :
  h !! l = Some o -> (obj_strong o <= MAX_REFCOUNT)%Z ->
  arc_clone l h = Some (l, <[l := Obj (obj_val o) (obj_strong o + 1)%Z]> h).
Proof. intros Hl Hb. unfold arc_clone. rewrite Hl. by rewrite decide_False by lia. Qed.

Lemma arc_clone_inv h l l' h' :
  arc_clone l h = Some (l', h') ->
  exists o, h !! l = Some o /\ (obj_strong o <= MAX_REFCOUNT)%Z /\ l' = l /\
            h' = <[l := Obj (obj_val o) (obj_strong o + 1)%Z]> h.
Proof.
  unfold arc_clone. destruct (h !! l) as [o|]; [|done].
  case_decide; [done|]. intros [= <- <-]. exists o. split_and!; auto; lia.
Qed.

Lemma arc_clone_rc h E l l' h' :
  rc_ok h E -> arc_clone l h = Some (l', h') -> l' = l /\ rc_ok h' (E ⊎ {[+ l +]}).
Proof.
  intros Hrc (o & Hl & _ & -> & ->)%arc_clone_inv. split; [done|].
  by apply rc_ok_clone.
Qed.

Lemma arc_drop_decrement h l o :
  h !! l = Some o -> obj_strong o <> 1%Z ->
  arc_drop l h = Some (tt, <[l := Obj (obj_val o) (obj_strong o - 1)%Z]> h).
Proof. intros Hl Hs. unfold arc_drop. simpl. rewrite Hl. by rewrite decide_False. Qed.

(** Dropping a handle to an object that stores no handles touches no
    other location: the count is lowered or the object freed. *)
Lemma arc_drop_leaf_other h l o x :
  h !! l = Some o -> payload_refs (obj_val o) = [] -> x <> l ->
  exists h', arc_drop l h = Some (tt, h') /\ h' !! x = h !! x.
Proof.
  intros Hl Hr Hx. unfold arc_drop. simpl. rewrite Hl. case_decide.
  - rewrite Hr. eexists. split; [reflexivity|]. by rewrite lookup_delete_ne.
  - eexists. split; [reflexivity|]. by rewrite lookup_insert_ne.
Qed.

(** Cloning a handle and then dropping the clone gives back the heap
    exactly, for an object that has a handle and is not above the abort
    bound. *)
Lemma arc_clone_drop_roundtrip h l o :
  h !! l = Some o -> (0 < obj_strong o)%Z -> (obj_strong o <= MAX_REFCOUNT)%Z ->
  st_bind (arc_clone l) arc_drop h = Some (tt, h).
Proof.
  intros Hl Hp Hb. rewrite (st_bind_Some _ _ _ _ _ (arc_clone_Some _ _ _ Hl Hb)).
  rewrite (arc_drop_decrement _ _ (Obj (obj_val o) (obj_strong o + 1)%Z));
    [|by rewrite lookup_insert_eq|simpl; lia].
  simpl. rewrite insert_insert_eq. replace (obj_strong o + 1 - 1)%Z with (obj_strong o) by lia.
  destruct o. by rewrite insert_id.
Qed.

(** The fold that drops a list of handles, given that each single drop
    with fuel [f] terminates, keeps the invariant and frees only. *)
Lemma drop_fold_ok f :
  (forall l h E, (size h < f)%nat -> rc_ok h (E ⊎ {[+ l +]}) ->
     exists h', arc_drop_fuel f l h = Some (tt, h') /\ rc_ok h' E /\
                (size h' <= size h)%nat /\ payloads_kept h h') ->
  forall ls h E, (size h < f)%nat -> rc_ok h (E ⊎ list_to_set_disj ls) ->
     exists h', st_foldl (arc_drop_fuel f) ls h = Some (tt, h') /\ rc_ok h' E /\
                (size h' <= size h)%nat /\ payloads_kept h h'.
Proof.
  intros IH ls. induction ls as [|x ls IHls]; intros h E Hs Hrc.
  - exists h. rewrite list_to_set_disj_nil, gmultiset_disj_union_right_id in Hrc.
    split_and!; [done|done|lia|apply payloads_kept_refl].
  - replace (E ⊎ list_to_set_disj (x :: ls))
      with ((E ⊎ list_to_set_disj ls) ⊎ {[+ x +]}) in Hrc by
      (rewrite list_to_set_disj_cons; multiset_solver).
    destruct (IH x h _ Hs Hrc) as (h1 & Hd & Hrc1 & Hs1 & Hk1).
    destruct (IHls h1 E ltac:(lia) Hrc1) as (h2 & Hf & Hrc2 & Hs2 & Hk2).
    exists h2. simpl. rewrite (st_bind_Some _ _ _ _ _ Hd).
    split_and!; [done|done|lia|by eapply payloads_kept_trans].
Qed.

Lemma arc_drop_fuel_ok fuel :
  forall l h E, (size h < fuel)%nat -> rc_ok h (E ⊎ {[+ l +]}) ->
    exists h', arc_drop_fuel fuel l h = Some (tt, h') /\ rc_ok h' E /\
               (size h' <= size h)%nat /\ payloads_kept h h'.
Proof.
  induction fuel as [|f IHf]; intros l h E Hs Hrc; [lia|].
  destruct (rc_ok_live h _ l Hrc ltac:(multiset_solver)) as [o Hl].
  simpl. rewrite Hl. case_decide as Hone.
  - pose proof (rc_ok_free _ _ _ _ Hrc Hl Hone) as Hrc'.
    assert (Hsz : size (delete l h) = pred (size h)) by (apply map_size_delete_Some; eauto).
    pose proof (map_size_ne_0_lookup_2 h l ltac:(eauto)).
    destruct (drop_fold_ok f IHf (payload_refs (obj_val o)) (delete l h) E ltac:(lia) Hrc')
      as (h' & Hd & Hrc'' & Hs' & Hk).
    exists h'. split_and!; [done|done|lia|].
    eapply payloads_kept_trans; [apply payloads_kept_delete|done].
  - eexists. split_and!; [done|by apply rc_ok_decrement| |].
    + rewrite map_size_insert_Some; eauto.
    + apply payloads_kept_count; [done|lia].
Qed.

(** [Arc::drop] always finishes: with one more unit of fuel than there are
    live objects the recursive deallocation never runs out, it keeps the
    invariant (the dropped handle is no longer counted), and it only frees
    objects or lowers their counts. *)
Lemma arc_drop_ok h E l :
  rc_ok h (E ⊎ {[+ l +]}) ->
  exists h', arc_drop l h = Some (tt, h') /\ rc_ok h' E /\ payloads_kept h h'.
Proof.
  intros Hrc. destruct (arc_drop_fuel_ok (S (size h)) l h E ltac:(lia) Hrc)
    as (h' & Hd & Hrc' & _ & Hk).
  exists h'. unfold arc_drop. auto.
Qed.

Lemma option_drop_ok h E (ol : option loc) :
  rc_ok h (E ⊎ list_to_set_disj (option_handles ol)) ->
  exists h', option_drop ol h = Some (tt, h') /\ rc_ok h' E /\ payloads_kept h h'.
Proof.
  destruct ol as [l|]; simpl.
  - rewrite gmultiset_disj_union_right_id. apply arc_drop_ok.
  - rewrite gmultiset_disj_union_right_id. intros Hrc. exists h.
    split_and!; [done|done|apply payloads_kept_refl].
Qed.

Lemma arc_new_rc h E v l h' :
  rc_ok h (E ⊎ refs_of v) -> arc_new v h = Some (l, h') ->
  h !! l = None /\ h' = <[l := Obj v 1%Z]> h /\ rc_ok h' (E ⊎ {[+ l +]}).
Proof.
  intros Hrc [= <- <-].
  assert (Hfresh : h !! fresh (dom h) = None)
    by (apply not_elem_of_dom, is_fresh).
  split_and!; [done|done|]. by apply rc_ok_alloc.
Qed.

Lemma arc_new_step h E v :
  rc_ok h (E ⊎ refs_of v) ->
  exists l, arc_new v h = Some (l, <[l := Obj v 1%Z]> h) /\ h !! l = None /\
            rc_ok (<[l := Obj v 1%Z]> h) (E ⊎ {[+ l +]}).
Proof.
  intros Hrc. destruct (arc_new v h) as [[l h']|] eqn:Hn; [|done].
  destruct (arc_new_rc _ _ _ _ _ Hrc Hn) as (Hl & -> & Hrc'). eauto.
Qed.

Lemma heap_write_Some h l o v :
  h !! l = Some o -> heap_write l v h = Some (tt, <[l := Obj v (obj_strong o)]> h).
Proof. unfold heap_write. by intros ->. Qed.

(** ** Acyclic heaps

    When every handle an object holds points to an object of lower rank
    (the payload types form no cycle) and no handle is held outside the
    heap, the invariant leaves no object alive: an object of highest rank
    would need a handle from an object of higher rank. *)

Lemma heap_refs_elem h x :
  x ∈ heap_refs h -> exists l o, h !! l = Some o /\ x ∈ payload_refs (obj_val o).
Proof.
  induction h as [|l o h Hl IH] using map_ind.
  - unfold heap_refs. rewrite map_fold_empty. by intros ?%gmultiset_not_elem_of_empty.
  - rewrite heap_refs_insert, delete_id by done.
    intros [Hx|Hx]%gmultiset_elem_of_disj_union.
    + exists l, o. rewrite lookup_insert_eq. split; [done|].
      by apply elem_of_list_to_set_disj in Hx.
    + destruct (IH Hx) as (l' & o' & Hl' & Hin). exists l', o'.
      rewrite lookup_insert_ne by congruence. done.
Qed.

Lemma rc_ok_ranked_empty (rank : P -> nat) K h :
  (forall v, rank v <= K) ->
  (forall l o x o', h !! l = Some o -> x ∈ payload_refs (obj_val o) -> h !! x = Some o' ->
     rank (obj_val o') < rank (obj_val o)) ->
  rc_ok h ∅ -> h = ∅.
Proof.
  intros HK Hr Hrc. apply map_empty. intros l.
  destruct (h !! l) as [o|] eqn:Hl; [exfalso|done].
  remember (K - rank (obj_val o)) as n eqn:En. revert l o Hl En.
  induction n as [n IH] using lt_wf_ind. intros l o Hl ->.
  pose proof (Hrc l) as Ha. unfold rc_at in Ha. rewrite Hl, multiplicity_disj_union, multiplicity_empty in Ha.
  assert (Hin : l ∈ heap_refs h) by (apply elem_of_multiplicity; lia).
  destruct (heap_refs_elem _ _ Hin) as (l' & o' & Hl' & Hx).
  pose proof (Hr _ _ _ _ Hl' Hx Hl). pose proof (HK (obj_val o')).
  exact (IH (K - rank (obj_val o')) ltac:(lia) l' o' Hl' eq_refl).
Qed.

End ArcSpecs.

(** ** Payload frames

    [vals_kept Q h h']: every object of [h'] whose location and payload
    satisfy [Q] was already in [h] with that payload.  Clones and drops
    keep every payload; a write keeps those of [Q] when [Q] does not hold
    of the location and value it writes. *)

Section ArcFrame.
Context {P : Type} `{HasRefs P}.
Implicit Types h : heap P.

Definition vals_kept (Q : loc -> P -> Prop) h h' : Prop :=
  forall l o', h' !! l = Some o' -> Q l (obj_val o') ->
    exists o, h !! l = Some o /\ obj_val o = obj_val o'.

#[global] Instance vals_kept_preorder Q : PreOrder (vals_kept Q).
Proof.
  split; [intros h l o' Hl _; eauto|].
  intros h1 h2 h3 H12 H23 l o3 Hl3 Hq. destruct (H23 _ _ Hl3 Hq) as (o2 & Hl2 & E2).
  rewrite <- E2 in Hq. destruct (H12 _ _ Hl2 Hq) as (o1 & Hl1 & E1). eauto with congruence.
Qed.

Lemma vals_kept_delete Q h l : vals_kept Q h (delete l h).
Proof. intros l' o' Hl _. apply lookup_delete_Some in Hl as [_ ?]. eauto. Qed.

Lemma vals_kept_recount Q h l o n :
  h !! l = Some o -> vals_kept Q h (<[l := Obj (obj_val o) n]> h).
Proof.
  intros Hl l' o' Hl' _. destruct (decide (l = l')) as [<-|Hne].
  - rewrite lookup_insert_eq in Hl'. simplify_eq/=. eauto.
  - rewrite lookup_insert_ne in Hl' by done. eauto.
Qed.

Lemma arc_clone_vals Q l : preserves (vals_kept Q) (arc_clone l).
Proof.
  intros h l' h'. unfold arc_clone. destruct (h !! l) as [o|] eqn:Hl; [|done].
  case_decide; [done|]. intros [= _ <-]. by apply vals_kept_recount.
Qed.

Lemma arc_drop_fuel_vals Q fuel l : preserves (vals_kept Q) (arc_drop_fuel fuel l).
Proof.
  induction fuel as [|f IH] in l |- *; [by intros ???|].
  intros h u h'. simpl. destruct (h !! l) as [o|] eqn:Hl; [|done].
  case_decide.
  - intros Hd. transitivity (delete l h); [apply vals_kept_delete|].
    revert Hd. apply preserves_foldl; [apply _|done].
  - intros [= _ <-]. by apply vals_kept_recount.
Qed.

Lemma arc_drop_vals Q l : preserves (vals_kept Q) (arc_drop l).
Proof. intros h u h'. apply arc_drop_fuel_vals. Qed.

Lemma option_drop_vals Q ol : preserves (vals_kept Q) (option_drop ol).
Proof. destruct ol; [apply arc_drop_vals|apply preserves_ret; apply _]. Qed.

Lemma heap_write_vals (Q : loc -> P -> Prop) l v : ~ Q l v -> preserves (vals_kept Q) (heap_write l v).
Proof.
  intros Hv h u h'. unfold heap_write. destruct (h !! l) as [o|] eqn:Hl; [|done].
  intros [= _ <-] l' o' Hl' Hq. destruct (decide (l = l')) as [<-|Hne].
  - rewrite lookup_insert_eq in Hl'. by simplify_eq/=.
  - rewrite lookup_insert_ne in Hl' by done. eauto.
Qed.

Lemma vals_kept_payload Q h h' l v :
  vals_kept Q h h' -> Q l v -> has_payload h' l v -> has_payload h l v.
Proof.
  intros Hk Hq [n Hl]. destruct (Hk _ _ Hl Hq) as ([v' m] & Hl0 & E). simpl in E. subst. by exists m.
Qed.

End ArcFrame.

#[export] Hint Resolve arc_clone_vals arc_drop_vals option_drop_vals : frame.

