(* ===== verification/RwLock.v ===== *)
(** * The context container: [RwLock<Option<Arc<dyn PluginContext>>>]

    [PluginContextContainer] (src/src/plugin.rs, lines 26-27) wraps a
    [std::sync::RwLock] around an optional context handle.  This file
    models the lock's state (unlocked, [n] readers, one writer), its poison
    flag and the two ways the code uses it: the constructor
    [create_empty_plugin_context_container] (lines 29-32) and the sequential
    statement [container.0.write().unwrap().replace(c)] of [set_context]
    (line 81), which acquires the write lock, panics if the lock is
    poisoned, swaps the stored value and releases the lock at the end of the
    statement.  The finer lock steps used by concurrent callers (acquire and
    release for readers and writers) are defined here too and used by
    [Concurrency]. *)

From S2P Require Import Prelude.

Inductive lock_state : Type :=
| Unlocked
| ReadLocked (n : positive)   (** [n] live read guards *)
| WriteLocked.                (** one live write guard *)

#[global] Instance lock_state_eq_dec : EqDecision lock_state.
Proof. solve_decision. Defined.

Record RwLock (T : Type) : Type := MkRwLock {
  rw_state : lock_state;
  rw_poisoned : bool;
  rw_data : T
}.
Arguments MkRwLock {T} rw_state rw_poisoned rw_data.
Arguments rw_state {T} r.
Arguments rw_poisoned {T} r.
Arguments rw_data {T} r.

#[global] Instance rwlock_eq_dec {T} `{EqDecision T} : EqDecision (RwLock T).
Proof. solve_decision. Defined.

(** [RwLock::new(v)] *)
Definition rwlock_new {T} (v : T) : RwLock T := MkRwLock Unlocked false v.

(** ** Lock steps (what one thread does atomically) *)

(** [write()]: succeeds only on an unlocked lock (otherwise the caller
    blocks); a poisoned lock is still acquired but [write()] returns
    [Err(PoisonError)], which the code's [unwrap()] turns into a panic. *)
Definition try_write {T} (r : RwLock T) : option (RwLock T) :=
  match rw_state r with
  | Unlocked => Some (MkRwLock WriteLocked (rw_poisoned r) (rw_data r))
  | _ => None
  end.

Definition write_unlock {T} (r : RwLock T) : RwLock T :=
  MkRwLock Unlocked (rw_poisoned r) (rw_data r).

(** [read()]: succeeds unless a writer holds the lock. *)
Definition try_read {T} (r : RwLock T) : option (RwLock T) :=
  match rw_state r with
  | Unlocked => Some (MkRwLock (ReadLocked 1) (rw_poisoned r) (rw_data r))
  | ReadLocked n => Some (MkRwLock (ReadLocked (n + 1)) (rw_poisoned r) (rw_data r))
  | WriteLocked => None
  end.

Definition read_unlock {T} (r : RwLock T) : RwLock T :=
  MkRwLock
    (match rw_state r with
     | ReadLocked n => if decide (n = 1%positive) then Unlocked
                       else ReadLocked (Pos.pred n)
     | s => s
     end) (rw_poisoned r) (rw_data r).

(** Round trip of the guards: acquiring a guard and dropping it gives
    back the lock exactly, for writers ([write()] on an unlocked lock) and
    for readers ([read()] on an unlocked or read-locked lock: the reader
    count goes up by one and back down, to [Unlocked] for the last one). *)
Lemma guard_roundtrip {T} (r g : RwLock T) :
  (try_write r = Some g -> write_unlock g = r) /\
  (try_read r = Some g -> read_unlock g = r).
Proof.
  destruct r as [[|n|] p d]; unfold try_write, try_read, write_unlock, read_unlock; simpl;
    split; intros; simplify_eq/=; try done.
  rewrite decide_False by lia. f_equal. f_equal. lia.
Qed.

(** ** The container of src/src/plugin.rs *)

(** [pub struct PluginContextContainer(RwLock<Option<Arc<dyn PluginContext>>>)] *)
Definition PluginContextContainer : Type := RwLock (option loc).

(** [#[provides] fn create_empty_plugin_context_container()] *)
Definition create_empty_plugin_context_container : PluginContextContainer :=
  rwlock_new None.

(** [c.0.write().unwrap()] run by one thread with no other thread inside
    the lock: [None] when [write()] cannot proceed (held lock: the caller
    would block) or [unwrap()] panics (poisoned lock); otherwise the
    write guard, here the write-locked container. *)
Definition container_write {T} (c : RwLock T) : option (RwLock T) :=
  match try_write c with
  | None => None
  | Some g => if rw_poisoned g then None else Some g
  end.

(** [guard.replace(x)]: store [x], hand back the value replaced; the guard
    is dropped at the end of the statement, which unlocks. *)
Definition guard_replace {T} (g : RwLock (option T)) (x : T) : RwLock (option T) * option T :=
  (write_unlock (MkRwLock (rw_state g) (rw_poisoned g) (Some x)), rw_data g).

(** [guard.replace(x)] alone, the guard still live: store [x] and hand
    back the value replaced.  [guard_replace] is this followed by the
    guard's drop. *)
Definition guard_put {T} (g : RwLock (option T)) (x : T) : RwLock (option T) * option T :=
  (MkRwLock (rw_state g) (rw_poisoned g) (Some x), rw_data g).

(** The whole statement [c.0.write().unwrap().replace(x)] for an [x]
    already evaluated. *)
Definition container_replace {T} (c : RwLock (option T)) (x : T)
    : option (RwLock (option T) * option T) :=
  match container_write c with
  | None => None
  | Some g => Some (guard_replace g x)
  end.

(** The container is at rest: no guard is live and the lock is not
    poisoned.  Nothing in this crate holds a guard across a call or panics
    while holding one, so every container of a sequential run is at rest. *)
Definition at_rest {T} (r : RwLock T) : Prop :=
  rw_state r = Unlocked /\ rw_poisoned r = false.

#[global] Instance at_rest_dec {T} (r : RwLock T) : Decision (at_rest r).
Proof. unfold at_rest. apply _. Defined.

Lemma container_replace_at_rest {T} (c : RwLock (option T)) x :
  at_rest c ->
  container_replace c x = Some (MkRwLock Unlocked false (Some x), rw_data c).
Proof. destruct c as [s p d]. unfold at_rest. simpl. by intros [-> ->]. Qed.

Lemma container_replace_inv {T} (c : RwLock (option T)) x c' old :
  container_replace c x = Some (c', old) ->
  at_rest c /\ c' = MkRwLock Unlocked false (Some x) /\ old = rw_data c.
Proof.
  destruct c as [[| |] [|] d]; unfold container_replace; simpl; try done.
  intros [= <- <-]. done.
Qed.

Lemma container_write_at_rest {T} (c : RwLock T) :
  at_rest c -> container_write c = Some (MkRwLock WriteLocked false (rw_data c)).
Proof. destruct c as [st p d]. unfold at_rest. simpl. by intros [-> ->]. Qed.

(** Taking the guard leaves the data in place. *)
Lemma container_write_data {T} (c g : RwLock T) :
  container_write c = Some g -> rw_data g = rw_data c.
Proof.
  destruct c as [[| |] [|] d]; unfold container_write, try_write; simpl; try done.
  by intros [= <-].
Qed.

Lemma create_empty_at_rest : at_rest create_empty_plugin_context_container.
Proof. done. Qed.

#[export] Hint Resolve create_empty_at_rest : rc.


