(* ===== verification/Query.v ===== *)
(** * Capability queries: trait objects, [interfaces!] and [query_arc]

    A provider is exposed through a role interface (a Rust trait object such
    as [dyn ComponentProvider]).  The crate registers, per concrete type, the
    traits it may be viewed as with the [query_interface] crate's
    [interfaces!] macro; line 49 of src/src/plugin.rs registers
    [BinaryPluginImpl: dyn Plugin], the provider files (not part of src/)
    register each provider for its own role.  [<dyn Object>::query_arc]
    takes an [Arc] by value and returns [Ok] with the same allocation viewed
    as the role when the object's concrete type registered that role, and
    [Err] with the unchanged [Arc] otherwise; it never touches the counts. *)

From S2P Require Import Prelude Arc.

(** The trait objects the plugin API names (src/src/plugin.rs lines 9-20). *)
Inductive role : Type :=
| RPlugin
| RComponentProvider
| REntityTypeProvider
| RRelationTypeProvider
| RComponentBehaviourProvider
| REntityBehaviourProvider
| RRelationBehaviourProvider
| RFlowProvider
| RWebResourceProvider
| RPluginContext.

#[global] Instance role_eq_dec : EqDecision role.
Proof. solve_decision. Defined.

(** The concrete types whose objects live behind an [Arc]: the facade, the
    four injected providers, and the host's context objects. *)
Inductive concrete_ty : Type :=
| TBinaryPluginImpl
| TBinaryComponentProviderImpl
| TBinaryEntityTypeProviderImpl
| TBinaryComponentBehaviourProviderImpl
| TBinaryWebResourceProviderImpl
| THostPluginContext.

#[global] Instance concrete_ty_eq_dec : EqDecision concrete_ty.
Proof. solve_decision. Defined.

(** [interfaces!(BinaryPluginImpl: dyn Plugin);] *)
Definition binary_plugin_interfaces : list role := [RPlugin].

(** The registrations of the provider files and of the host. *)
Definition provider_interfaces (t : concrete_ty) : list role :=
  match t with
  | TBinaryPluginImpl => []
  | TBinaryComponentProviderImpl => [RComponentProvider]
  | TBinaryEntityTypeProviderImpl => [REntityTypeProvider]
  | TBinaryComponentBehaviourProviderImpl => [RComponentBehaviourProvider]
  | TBinaryWebResourceProviderImpl => [RWebResourceProvider]
  | THostPluginContext => [RPluginContext]
  end.

Definition interfaces (t : concrete_ty) : list role :=
  match t with
  | TBinaryPluginImpl => binary_plugin_interfaces
  | _ => provider_interfaces t
  end.

(** A payload knows the concrete type of the object holding it. *)
Class HasType (P : Type) := payload_ty : P -> concrete_ty.

Section QueryArc.
Context {P : Type} `{HasRefs P, HasType P}.

(** [<dyn Object>::query_arc::<dyn R>(arc)]: [Ok] with the same location
    when the object's type registered [R], [Err] with the same [Arc]
    otherwise.  The heap is unchanged; a dangling [arc] cannot exist. *)
Definition query_arc (l : loc) (r : role) : st (heap P) (result loc loc) :=
  fun h =>
    match h !! l with
    | None => None
    | Some o =>
        if decide (r ∈ interfaces (payload_ty (obj_val o)))
        then Some (Ok l, h) else Some (Err l, h)
    end.

Lemma query_arc_spec h l r o :
  h !! l = Some o ->
  query_arc l r h =
    Some (if decide (r ∈ interfaces (payload_ty (obj_val o))) then Ok l else Err l, h).
Proof. intros Hl. unfold query_arc. rewrite Hl. by case_decide. Qed.

Lemma query_arc_inv h l r q h' :
  query_arc l r h = Some (q, h') ->
  h' = h /\ exists o, h !! l = Some o /\
    q = if decide (r ∈ interfaces (payload_ty (obj_val o))) then Ok l else Err l.
Proof.
  unfold query_arc. destruct (h !! l) as [o|]; [|done].
  intros Hq. split; [by case_decide; simplify_eq|]. exists o. split; [done|].
  case_decide; by simplify_eq.
Qed.

End QueryArc.
