(* ===== verification/Plugin.v ===== *)
(** * The plugin facade [BinaryPluginImpl] (src/src/plugin.rs)

    The heap of [Arc] objects is instantiated with [payload]: the facade
    itself, the four injected providers and the host's context objects.
    [BinaryPluginImpl] is the struct of lines 37-45; the Section
    [PluginImpl] holds one definition per method of
    [impl Plugin for BinaryPluginImpl] (lines 55-137), each a computation
    in the state-and-panic monad over the heap, written in the order the
    Rust statements run, with every [Arc] clone and drop the code performs.
    The [Plugin] trait is the class [Plugin]; [binary_plugin] is the
    [impl]. *)

From S2P Require Import Prelude Arc RwLock Query.

(** ** Data *)

(** [PluginError]: one absence error per capability. *)
Inductive PluginError : Type :=
| NoComponentProvider
| NoEntityTypeProvider
| NoRelationTypeProvider
| NoComponentBehaviourProvider
| NoEntityBehaviourProvider
| NoRelationBehaviourProvider
| NoFlowProvider
| NoWebResourceProvider.

#[global] Instance PluginError_eq_dec : EqDecision PluginError.
Proof. solve_decision. Defined.

(** [PluginMetadata { name, description, version }] *)
Record PluginMetadata : Type := MkPluginMetadata {
  name : string;
  description : string;
  version : string
}.

#[global] Instance PluginMetadata_eq_dec : EqDecision PluginMetadata.
Proof. solve_decision. Defined.

(** The build-time package variables [env!] reads. *)
Record CargoEnv : Type := MkCargoEnv {
  CARGO_PKG_NAME : string;
  CARGO_PKG_DESCRIPTION : string;
  CARGO_PKG_VERSION : string
}.

(** The web-resource provider keeps its own context container. *)
Record BinaryWebResourceProviderImpl : Type := MkBinaryWebResourceProviderImpl {
  wrp_context : PluginContextContainer
}.

(** [#[module] pub struct BinaryPluginImpl] *)
Record BinaryPluginImpl : Type := MkBinaryPluginImpl {
  component_provider : loc;
  entity_type_provider : loc;
  component_behaviour_provider : loc;
  web_resource_provider : loc;
  context : PluginContextContainer
}.

#[global] Instance BinaryWebResourceProviderImpl_eq_dec :
  EqDecision BinaryWebResourceProviderImpl.
Proof. solve_decision. Defined.
#[global] Instance BinaryPluginImpl_eq_dec : EqDecision BinaryPluginImpl.
Proof. solve_decision. Defined.

(** What an [Arc] allocation holds. *)
Inductive payload : Type :=
| PBinaryPluginImpl (p : BinaryPluginImpl)
| PBinaryComponentProviderImpl
| PBinaryEntityTypeProviderImpl
| PBinaryComponentBehaviourProviderImpl
| PBinaryWebResourceProviderImpl (w : BinaryWebResourceProviderImpl)
| PHostPluginContext (id : nat).

#[global] Instance payload_eq_dec : EqDecision payload.
Proof. solve_decision. Defined.

(** The [Arc] fields of each payload, in declaration order. *)
#[global] Instance payload_refs_inst : HasRefs payload :=
  fun v =>
    match v with
    | PBinaryPluginImpl p =>
        [component_provider p; entity_type_provider p;
         component_behaviour_provider p; web_resource_provider p]
        ++ option_handles (rw_data (context p))
    | PBinaryWebResourceProviderImpl w => option_handles (rw_data (wrp_context w))
    | _ => []
    end.

#[global] Instance payload_ty_inst : HasType payload :=
  fun v =>
    match v with
    | PBinaryPluginImpl _ => TBinaryPluginImpl
    | PBinaryComponentProviderImpl => TBinaryComponentProviderImpl
    | PBinaryEntityTypeProviderImpl => TBinaryEntityTypeProviderImpl
    | PBinaryComponentBehaviourProviderImpl => TBinaryComponentBehaviourProviderImpl
    | PBinaryWebResourceProviderImpl _ => TBinaryWebResourceProviderImpl
    | PHostPluginContext _ => THostPluginContext
    end.

Abbreviation pheap := (heap payload).
Abbreviation PM A := (st pheap A).

(** ** Access to the objects behind [&self] *)

Definition load_plugin (self : loc) : PM BinaryPluginImpl :=
  fun h =>
    match h !! self with
    | Some (Obj (PBinaryPluginImpl p) _) => Some (p, h)
    | _ => None
    end.

Definition load_web_resource_provider (w : loc) : PM BinaryWebResourceProviderImpl :=
  fun h =>
    match h !! w with
    | Some (Obj (PBinaryWebResourceProviderImpl v) _) => Some (v, h)
    | _ => None
    end.

Definition with_context (p : BinaryPluginImpl) (c : PluginContextContainer)
    : BinaryPluginImpl :=
  MkBinaryPluginImpl (component_provider p) (entity_type_provider p)
    (component_behaviour_provider p) (web_resource_provider p) c.

(** [BinaryWebResourceProvider::set_context]: the provider replaces the
    context of its own container, dropping the one it held. *)
Definition web_resource_provider_set_context (w : loc) (ctx : loc) : PM unit :=
  v <- load_web_resource_provider w ;;
  match container_replace (wrp_context v) ctx with
  | None => st_panic
  | Some (c', old) =>
      heap_write w (PBinaryWebResourceProviderImpl (MkBinaryWebResourceProviderImpl c')) ;;;
      option_drop old
  end.

(** ** The methods of [impl Plugin for BinaryPluginImpl] *)

Section PluginImpl.

(** [fn metadata(&self)]: the package's name, description and version. *)
Definition metadata (env : CargoEnv) (self : loc) : PM (result PluginMetadata PluginError) :=
  ret (Ok (MkPluginMetadata (CARGO_PKG_NAME env) (CARGO_PKG_DESCRIPTION env)
                            (CARGO_PKG_VERSION env))).

Definition init (self : loc) : PM (result unit PluginError) := ret (Ok tt).
Definition post_init (self : loc) : PM (result unit PluginError) := ret (Ok tt).
Definition pre_shutdown (self : loc) : PM (result unit PluginError) := ret (Ok tt).
Definition shutdown (self : loc) : PM (result unit PluginError) := ret (Ok tt).

(** [fn set_context(&self, context: Arc<dyn PluginContext>)].
    Line 81: [self.context.0.write().unwrap().replace(context.clone())]
    first evaluates the receiver, taking the write lock (a poisoned lock
    panics in [unwrap]), then the argument [context.clone()]; [replace]
    stores the clone and the replaced value is dropped at the end of the
    statement, with the guard.  Line 82 forwards a second clone to the
    web-resource provider.  Line 83 returns [Ok(())], and the parameter
    [context] is dropped when the function returns. *)
Definition set_context (self ctx : loc) : PM (result unit PluginError) :=
  p <- load_plugin self ;;
  match container_write (context p) with
  | None => st_panic
  | Some g =>
      c1 <- arc_clone ctx ;;
      let '(c', old) := guard_replace g c1 in
      heap_write self (PBinaryPluginImpl (with_context p c')) ;;;
      option_drop old ;;;
      c2 <- arc_clone ctx ;;
      web_resource_provider_set_context (web_resource_provider p) c2 ;;;
      arc_drop ctx ;;;
      ret (Ok tt)
  end.

(** The body shared by the four getters of a wired slot (lines 86-93,
    95-102, 108-116, 130-137): clone the slot's [Arc], [query_arc] it as
    role [r]; on [Err] return the absence error, dropping the [Arc] that
    [query_arc] handed back; on [Ok] return the role view. *)
Definition get_wired (slot : BinaryPluginImpl -> loc) (r : role) (err : PluginError)
    (self : loc) : PM (result loc PluginError) :=
  p <- load_plugin self ;;
  a <- arc_clone (slot p) ;;
  q <- query_arc a r ;;
  match q with
  | Err a' => arc_drop a' ;;; ret (Err err)
  | Ok v => ret (Ok v)
  end.

Definition get_component_provider : loc -> PM (result loc PluginError) :=
  get_wired component_provider RComponentProvider NoComponentProvider.

Definition get_entity_type_provider : loc -> PM (result loc PluginError) :=
  get_wired entity_type_provider REntityTypeProvider NoEntityTypeProvider.

Definition get_relation_type_provider (self : loc) : PM (result loc PluginError) :=
  ret (Err NoRelationTypeProvider).

Definition get_component_behaviour_provider : loc -> PM (result loc PluginError) :=
  get_wired component_behaviour_provider RComponentBehaviourProvider
    NoComponentBehaviourProvider.

Definition get_entity_behaviour_provider (self : loc) : PM (result loc PluginError) :=
  ret (Err NoEntityBehaviourProvider).

Definition get_relation_behaviour_provider (self : loc) : PM (result loc PluginError) :=
  ret (Err NoRelationBehaviourProvider).

Definition get_flow_provider (self : loc) : PM (result loc PluginError) :=
  ret (Err NoFlowProvider).

Definition get_web_resource_provider : loc -> PM (result loc PluginError) :=
  get_wired web_resource_provider RWebResourceProvider NoWebResourceProvider.

End PluginImpl.

(** ** The [Plugin] trait and its implementation *)

Class Plugin (H : Type) : Type := {
  plugin_metadata : loc -> st H (result PluginMetadata PluginError);
  plugin_init : loc -> st H (result unit PluginError);
  plugin_post_init : loc -> st H (result unit PluginError);
  plugin_pre_shutdown : loc -> st H (result unit PluginError);
  plugin_shutdown : loc -> st H (result unit PluginError);
  plugin_set_context : loc -> loc -> st H (result unit PluginError);
  plugin_get_component_provider : loc -> st H (result loc PluginError);
  plugin_get_entity_type_provider : loc -> st H (result loc PluginError);
  plugin_get_relation_type_provider : loc -> st H (result loc PluginError);
  plugin_get_component_behaviour_provider : loc -> st H (result loc PluginError);
  plugin_get_entity_behaviour_provider : loc -> st H (result loc PluginError);
  plugin_get_relation_behaviour_provider : loc -> st H (result loc PluginError);
  plugin_get_flow_provider : loc -> st H (result loc PluginError);
  plugin_get_web_resource_provider : loc -> st H (result loc PluginError)
}.

(** [impl Plugin for BinaryPluginImpl] *)
#[global] Instance binary_plugin (env : CargoEnv) : Plugin pheap := {
  plugin_metadata := metadata env;
  plugin_init := init;
  plugin_post_init := post_init;
  plugin_pre_shutdown := pre_shutdown;
  plugin_shutdown := shutdown;
  plugin_set_context := set_context;
  plugin_get_component_provider := get_component_provider;
  plugin_get_entity_type_provider := get_entity_type_provider;
  plugin_get_relation_type_provider := get_relation_type_provider;
  plugin_get_component_behaviour_provider := get_component_behaviour_provider;
  plugin_get_entity_behaviour_provider := get_entity_behaviour_provider;
  plugin_get_relation_behaviour_provider := get_relation_behaviour_provider;
  plugin_get_flow_provider := get_flow_provider;
  plugin_get_web_resource_provider := get_web_resource_provider
}.

(** [pub trait BinaryPlugin: Plugin + Send + Sync {}] (lines 34-35): a
    marker trait without methods whose supertrait is [Plugin].  [Send] and
    [Sync] have no counterpart here: sharing the facade between threads is
    what the scheduler of [Concurrency] models. *)
Class BinaryPlugin (H : Type) `{!Plugin H} : Prop := {}.

(** [#[provides] impl BinaryPlugin for BinaryPluginImpl {}] (lines 51-53). *)
#[global] Instance binary_plugin_marker (env : CargoEnv) : @BinaryPlugin pheap (binary_plugin env) := {}.

(** The eight capabilities a host may ask for, and the getter of the
    trait that answers each. *)
Inductive capability : Type :=
| CComponent | CEntityType | CRelationType | CComponentBehaviour
| CEntityBehaviour | CRelationBehaviour | CFlow | CWebResource.

#[global] Instance capability_eq_dec : EqDecision capability.
Proof. solve_decision. Defined.

Definition get_capability {H} `{Plugin H} (c : capability)
    : loc -> st H (result loc PluginError) :=
  match c with
  | CComponent => plugin_get_component_provider
  | CEntityType => plugin_get_entity_type_provider
  | CRelationType => plugin_get_relation_type_provider
  | CComponentBehaviour => plugin_get_component_behaviour_provider
  | CEntityBehaviour => plugin_get_entity_behaviour_provider
  | CRelationBehaviour => plugin_get_relation_behaviour_provider
  | CFlow => plugin_get_flow_provider
  | CWebResource => plugin_get_web_resource_provider
  end.

Definition capability_role (c : capability) : role :=
  match c with
  | CComponent => RComponentProvider
  | CEntityType => REntityTypeProvider
  | CRelationType => RRelationTypeProvider
  | CComponentBehaviour => RComponentBehaviourProvider
  | CEntityBehaviour => REntityBehaviourProvider
  | CRelationBehaviour => RRelationBehaviourProvider
  | CFlow => RFlowProvider
  | CWebResource => RWebResourceProvider
  end.

Definition absence_error (c : capability) : PluginError :=
  match c with
  | CComponent => NoComponentProvider
  | CEntityType => NoEntityTypeProvider
  | CRelationType => NoRelationTypeProvider
  | CComponentBehaviour => NoComponentBehaviourProvider
  | CEntityBehaviour => NoEntityBehaviourProvider
  | CRelationBehaviour => NoRelationBehaviourProvider
  | CFlow => NoFlowProvider
  | CWebResource => NoWebResourceProvider
  end.
