(* ===== verification/Facade.v ===== *)
(** * Behaviour of the facade's methods

    The shape invariant [facade_ok] of a heap holding a constructed
    [BinaryPluginImpl] (every slot holds an object of its provider type,
    both context containers are at rest and hold host contexts), how it is
    built by the composition root [construct], and the specification of
    every method on every branch: the wired getters return their slot's
    object with one more count, the defensive [Err] branch leaves the heap
    as it was, the unwired getters answer their absence error, a getter
    aborts exactly when the slot already has more than [isize::MAX]
    handles, and [set_context] stores the context in both containers and
    keeps every count equal to the number of handles. *)

From S2P Require Import Prelude Arc RwLock Query Plugin.

(** ** Construction and the shape invariant *)

(** The composition root: the injection container builds each provider
    once and moves the handles into the facade, whose context container
    comes from [create_empty_plugin_context_container]. *)
Definition construct : PM loc :=
  cp <- arc_new PBinaryComponentProviderImpl ;;
  etp <- arc_new PBinaryEntityTypeProviderImpl ;;
  cbp <- arc_new PBinaryComponentBehaviourProviderImpl ;;
  wrp <- arc_new (PBinaryWebResourceProviderImpl
                    (MkBinaryWebResourceProviderImpl create_empty_plugin_context_container)) ;;
  arc_new (PBinaryPluginImpl
             (MkBinaryPluginImpl cp etp cbp wrp create_empty_plugin_context_container)).

(** The host creates a context: [Arc::new(ctx)]. *)
Definition new_context (id : nat) : PM loc := arc_new (PHostPluginContext id).

Definition is_context (h : pheap) (c : loc) : Prop :=
  exists id, has_payload h c (PHostPluginContext id).

Definition container_ok (h : pheap) (c : PluginContextContainer) : Prop :=
  at_rest c /\ forall x, rw_data c = Some x -> is_context h x.

Record facade_ok (h : pheap) (self : loc) (p : BinaryPluginImpl)
    (w : BinaryWebResourceProviderImpl) : Prop := {
  fo_self : has_payload h self (PBinaryPluginImpl p);
  fo_component : has_payload h (component_provider p) PBinaryComponentProviderImpl;
  fo_entity_type : has_payload h (entity_type_provider p) PBinaryEntityTypeProviderImpl;
  fo_component_behaviour :
    has_payload h (component_behaviour_provider p) PBinaryComponentBehaviourProviderImpl;
  fo_web : has_payload h (web_resource_provider p) (PBinaryWebResourceProviderImpl w);
  fo_web_context : container_ok h (wrp_context w);
  fo_context : container_ok h (context p)
}.

(** The slot that answers each capability, when one is wired. *)
Definition wired_slot (c : capability) : option (BinaryPluginImpl -> loc) :=
  match c with
  | CComponent => Some component_provider
  | CEntityType => Some entity_type_provider
  | CComponentBehaviour => Some component_behaviour_provider
  | CWebResource => Some web_resource_provider
  | _ => None
  end.

(** ** Keeping the shape across drops *)

Lemma kept_ref h h' E l v x v' :
  payloads_kept h h' -> rc_ok h' E -> has_payload h' l v ->
  x ∈ payload_refs v -> has_payload h x v' -> has_payload h' x v'.
Proof.
  intros Hk Hrc [n Hl] Hx Hh. eapply has_payload_kept; [done|done|].
  by eapply (rc_ok_live_ref _ _ _ (Obj v n)).
Qed.

Lemma container_ok_kept h h' E l v c :
  payloads_kept h h' -> rc_ok h' E -> has_payload h' l v ->
  (forall x, rw_data c = Some x -> x ∈ payload_refs v) ->
  container_ok h c -> container_ok h' c.
Proof.
  intros Hk Hrc Hl Hin [Hr Hc]. split; [done|].
  intros x Hx. destruct (Hc x Hx) as [id Hid]. exists id. eauto using kept_ref.
Qed.

Ltac refs_in :=
  unfold payload_refs, payload_refs_inst; simpl;
  try (let x := fresh "x" in let Hx := fresh "Hx" in
       intros x Hx; rewrite Hx; simpl);
  set_solver.

Lemma facade_ok_kept h h' E self p w :
  facade_ok h self p w -> payloads_kept h h' -> rc_ok h' E -> self ∈ E ->
  facade_ok h' self p w.
Proof.
  intros [Hs Hc He Hb Hw Hwc Hpc] Hk Hrc Hin.
  assert (Hs' : has_payload h' self (PBinaryPluginImpl p)).
  { eapply has_payload_kept; eauto using rc_ok_live. }
  assert (Hw' : has_payload h' (web_resource_provider p) (PBinaryWebResourceProviderImpl w))
    by (eapply (kept_ref _ _ _ self); eauto; refs_in).
  split; try done; try (eapply (kept_ref _ _ _ self); eauto; refs_in).
  - eapply (container_ok_kept _ _ _ (web_resource_provider p)); eauto. refs_in.
  - eapply (container_ok_kept _ _ _ self); eauto. refs_in.
Qed.

Lemma facade_ok_distinct h self p w :
  facade_ok h self p w ->
  self <> component_provider p /\ self <> entity_type_provider p /\
  self <> component_behaviour_provider p /\ self <> web_resource_provider p.
Proof.
  intros [[? Hs] [? Hc] [? He] [? Hb] [? Hw] _ _].
  split_and!; intros ->; congruence.
Qed.

Lemma is_context_not_plugin h c self p :
  is_context h c -> has_payload h self (PBinaryPluginImpl p) -> c <> self.
Proof. intros [id [n Hc]] [m Hs] ->. congruence. Qed.

(** ** The getters *)

Lemma load_plugin_Some h self p :
  has_payload h self (PBinaryPluginImpl p) -> load_plugin self h = Some (p, h).
Proof. intros [n Hs]. unfold load_plugin. by rewrite Hs. Qed.

Lemma get_wired_Ok slot r err self h p o :
  has_payload h self (PBinaryPluginImpl p) -> h !! slot p = Some o ->
  r ∈ interfaces (payload_ty (obj_val o)) -> (obj_strong o <= MAX_REFCOUNT)%Z ->
  get_wired slot r err self h =
    Some (Ok (slot p), <[slot p := Obj (obj_val o) (obj_strong o + 1)%Z]> h).
Proof.
  intros Hs Hl Hr Hb. unfold get_wired.
  rewrite (st_bind_Some _ _ _ _ _ (load_plugin_Some _ _ _ Hs)).
  rewrite (st_bind_Some _ _ _ _ _ (arc_clone_Some _ _ _ Hl Hb)).
  rewrite (st_bind_Some _ _ _ _ _ (query_arc_spec _ _ r (Obj (obj_val o) (obj_strong o + 1)%Z)
             ltac:(apply lookup_insert_eq))).
  simpl. by rewrite decide_True.
Qed.

(** The defensive branch: when [query_arc] refuses the role, the [Arc] it
    hands back is dropped, so the heap is exactly the one before the call. *)
Lemma get_wired_Err_heap slot r err self h p o :
  has_payload h self (PBinaryPluginImpl p) -> h !! slot p = Some o ->
  r ∉ interfaces (payload_ty (obj_val o)) ->
  (0 < obj_strong o <= MAX_REFCOUNT)%Z ->
  get_wired slot r err self h = Some (Err err, h).
Proof.
  intros Hs Hl Hr Hb. unfold get_wired.
  rewrite (st_bind_Some _ _ _ _ _ (load_plugin_Some _ _ _ Hs)).
  rewrite (st_bind_Some _ _ _ _ _ (arc_clone_Some _ _ _ Hl ltac:(lia))).
  rewrite (st_bind_Some _ _ _ _ _ (query_arc_spec _ _ r (Obj (obj_val o) (obj_strong o + 1)%Z)
             ltac:(apply lookup_insert_eq))).
  simpl. rewrite decide_False by done.
  rewrite (st_bind_Some _ _ _ _ _ (arc_drop_decrement _ _ _
             (lookup_insert_eq h (slot p) (Obj (obj_val o) (obj_strong o + 1)%Z))
             ltac:(simpl; lia))).
  simpl. rewrite insert_insert_eq, Z.add_simpl_r. destruct o. by rewrite insert_id.
Qed.

Lemma get_wired_abort slot r err self h p o :
  has_payload h self (PBinaryPluginImpl p) -> h !! slot p = Some o ->
  (MAX_REFCOUNT < obj_strong o)%Z -> get_wired slot r err self h = None.
Proof.
  intros Hs Hl Hb. unfold get_wired.
  rewrite (st_bind_Some _ _ _ _ _ (load_plugin_Some _ _ _ Hs)).
  apply st_bind_None. unfold arc_clone. rewrite Hl. by rewrite decide_True.
Qed.

(** [facade_ok] only looks at payloads: a heap change that keeps every
    payload keeps it. *)
Lemma facade_ok_mono h h' self p w :
  (forall x v, has_payload h x v -> has_payload h' x v) ->
  facade_ok h self p w -> facade_ok h' self p w.
Proof.
  intros Hm [Hs Hc He Hb Hw [Hwr Hwc] [Hpr Hpc]].
  split; auto; split; auto; intros x Hx;
    [destruct (Hwc x Hx) as [id ?] | destruct (Hpc x Hx) as [id ?]]; exists id; auto.
Qed.

Lemma facade_ok_recount h self p w l o n :
  facade_ok h self p w -> h !! l = Some o ->
  facade_ok (<[l := Obj (obj_val o) n]> h) self p w.
Proof. intros Hf Hl. eapply facade_ok_mono; [|done]. eauto using has_payload_recount. Qed.

(** Each wired slot holds an object whose type registered the role its
    getter asks for. *)
Lemma wired_slot_registered h self p w c slot o :
  facade_ok h self p w -> wired_slot c = Some slot -> h !! slot p = Some o ->
  capability_role c ∈ interfaces (payload_ty (obj_val o)).
Proof.
  intros [_ [n1 H1] [n2 H2] [n3 H3] [n4 H4] _ _] Hc Hl.
  destruct c; simplify_eq/=; set_solver.
Qed.

(** ** Deciding the shape invariant *)

#[global] Instance is_context_dec h c : Decision (is_context h c).
Proof.
  unfold is_context, has_payload. destruct (h !! c) as [[v n]|] eqn:Hc.
  - destruct v; try (right; intros [id [m Hm]]; congruence). left. eauto.
  - right. intros [id [m Hm]]. congruence.
Defined.

#[global] Instance container_ok_dec h c : Decision (container_ok h c).
Proof.
  unfold container_ok. destruct (rw_data c) as [x|] eqn:Hd.
  - destruct (decide (at_rest c /\ is_context h x)) as [[? ?]|Hn];
      [left; split; [done|intros ? [= <-]; done] | right; intros [? Hx]; eauto].
  - destruct (decide (at_rest c)); [left; split; [done|done]|right; tauto].
Defined.

Lemma facade_ok_iff h self p w :
  facade_ok h self p w <->
  has_payload h self (PBinaryPluginImpl p) /\
  has_payload h (component_provider p) PBinaryComponentProviderImpl /\
  has_payload h (entity_type_provider p) PBinaryEntityTypeProviderImpl /\
  has_payload h (component_behaviour_provider p) PBinaryComponentBehaviourProviderImpl /\
  has_payload h (web_resource_provider p) (PBinaryWebResourceProviderImpl w) /\
  container_ok h (wrp_context w) /\ container_ok h (context p).
Proof. split; [intros []; tauto|intros (?&?&?&?&?&?&?); by split]. Qed.

#[global] Instance facade_ok_dec h self p w : Decision (facade_ok h self p w).
Proof. exact (decide_by_iff (facade_ok_iff h self p w)). Defined.

(** ** Writes of the two containers keep the shape *)

Lemma is_context_insert_other h c l o' v0 :
  is_context h c -> has_payload h l v0 -> (forall id, v0 <> PHostPluginContext id) ->
  is_context (<[l := o']> h) c.
Proof. intros [id Hc] Hl Hne. exists id. eapply has_payload_insert_other; eauto. Qed.

Definition stored (c : loc) : PluginContextContainer := MkRwLock Unlocked false (Some c).

Lemma container_ok_stored h c : is_context h c -> container_ok h (stored c).
Proof. intros Hc. split; [done|]. by intros x [= <-]. Qed.

Lemma facade_ok_write_plugin h self p w c n :
  facade_ok h self p w -> is_context h c ->
  facade_ok (<[self := Obj (PBinaryPluginImpl (with_context p (stored c))) n]> h)
    self (with_context p (stored c)) w.
Proof.
  intros [Hs Hc He Hb Hw [Hwr Hwc] Hpc] Hctx.
  split; simpl; try (eapply has_payload_insert_other; [eassumption|eassumption|done]).
  - apply has_payload_insert_eq.
  - split; [done|]. intros x Hx. eapply is_context_insert_other; eauto.
  - apply container_ok_stored. eapply is_context_insert_other; eauto.
Qed.

Lemma facade_ok_write_web h self p w c n :
  facade_ok h self p w -> is_context h c ->
  facade_ok (<[web_resource_provider p :=
                 Obj (PBinaryWebResourceProviderImpl (MkBinaryWebResourceProviderImpl (stored c))) n]> h)
    self p (MkBinaryWebResourceProviderImpl (stored c)).
Proof.
  intros [Hs Hc He Hb Hw Hwc [Hpr Hpc]] Hctx.
  split; simpl; try (eapply has_payload_insert_other; [eassumption|eassumption|done]).
  - apply has_payload_insert_eq.
  - apply container_ok_stored. eapply is_context_insert_other; eauto.
  - split; [done|]. intros x Hx. eapply is_context_insert_other; eauto.
Qed.

(** ** [set_context] *)

Ltac balance :=
  unfold refs_of, payload_refs, payload_refs_inst; simpl;
  rewrite ?list_to_set_disj_app, ?list_to_set_disj_cons, ?list_to_set_disj_nil;
  multiset_solver.

Lemma load_web_resource_provider_Some h l w :
  has_payload h l (PBinaryWebResourceProviderImpl w) ->
  load_web_resource_provider l h = Some (w, h).
Proof. intros [n Hl]. unfold load_web_resource_provider. by rewrite Hl. Qed.

(** Line 82's callee: the provider stores the context and drops the one it
    held; the moved handle [c] is now counted inside the provider. *)
Lemma web_set_context_ok h E self p w c :
  rc_ok h (E ⊎ {[+ c +]}) -> self ∈ E -> facade_ok h self p w -> is_context h c ->
  exists h', web_resource_provider_set_context (web_resource_provider p) c h = Some (tt, h') /\
    rc_ok h' E /\ facade_ok h' self p (MkBinaryWebResourceProviderImpl (stored c)).
Proof.
  intros Hrc Hin Hf Hc. pose proof (fo_web _ _ _ _ Hf) as Hw. destruct Hw as [n Hw].
  unfold web_resource_provider_set_context.
  rewrite (st_bind_Some _ _ _ _ _ (load_web_resource_provider_Some h _ w ltac:(by exists n))).
  rewrite container_replace_at_rest by apply (proj1 (fo_web_context _ _ _ _ Hf)).
  rewrite (st_bind_Some _ _ _ _ _ (heap_write_Some _ _ _ _ Hw)).
  assert (Hrc2 : rc_ok (<[web_resource_provider p := Obj (PBinaryWebResourceProviderImpl
                           (MkBinaryWebResourceProviderImpl (stored c))) n]> h)
                   (E ⊎ list_to_set_disj (option_handles (rw_data (wrp_context w)))))
    by (eapply (rc_ok_write _ _ _ _ _ _ _ Hrc Hw); balance).
  destruct (option_drop_ok _ _ _ Hrc2) as (h' & Hd & Hrc' & Hk).
  exists h'. split_and!; [done|done|].
  eapply facade_ok_kept; [apply (facade_ok_write_web h self p w c n); done|exact Hk|done|done].
Qed.

Lemma is_context_recount h l o n c :
  h !! l = Some o -> is_context h c -> is_context (<[l := Obj (obj_val o) n]> h) c.
Proof. intros Hl [id Hc]. exists id. by apply has_payload_recount. Qed.

(** Lines 82-84 of [set_context], after the facade's container took the
    context: clone it again, forward the clone, drop the moved parameter. *)
Local Abbreviation forward_tail p c :=
  (c2 <- arc_clone c ;; web_resource_provider_set_context (web_resource_provider p) c2 ;;;
   arc_drop c ;;; ret (@Ok unit PluginError tt)).

(** From the heap where the facade's container already holds [c]: either
    the second clone aborts (the count of [c] is above the bound) or the
    provider stores [c] and the moved parameter is dropped. *)
Lemma set_context_tail h E self c p w oc :
  rc_ok h (E ⊎ {[+ c +]}) -> self ∈ E -> facade_ok h self p w -> h !! c = Some oc ->
  rw_data (context p) = Some c ->
  (forward_tail p c h = None /\ (MAX_REFCOUNT < obj_strong oc)%Z) \/
  ((obj_strong oc <= MAX_REFCOUNT)%Z /\
   exists h', forward_tail p c h = Some (Ok tt, h') /\ rc_ok h' E /\
    facade_ok h' self p (MkBinaryWebResourceProviderImpl (stored c))).
Proof.
  intros Hrc Hin Hf Hc Hp. destruct (decide (MAX_REFCOUNT < obj_strong oc)%Z) as [Hb|Hb].
  { left. split; [|done]. apply st_bind_None. unfold arc_clone. rewrite Hc. by rewrite decide_True. }
  right. split; [lia|]. rewrite (st_bind_Some _ _ _ _ _ (arc_clone_Some _ _ _ Hc ltac:(lia))).
  pose proof (rc_ok_clone _ _ _ _ Hrc Hc) as Hrc4.
  pose proof (facade_ok_recount _ _ _ _ _ _ (obj_strong oc + 1)%Z Hf Hc) as Hf4.
  destruct (web_set_context_ok _ _ self _ _ c Hrc4 ltac:(multiset_solver) Hf4
              (proj2 (fo_context _ _ _ _ Hf4) c Hp)) as (h6 & Hw6 & Hrc6 & Hf6).
  rewrite (st_bind_Some _ _ _ _ _ Hw6).
  destruct (arc_drop_ok _ _ _ Hrc6) as (h7 & Hd7 & Hrc7 & Hk7).
  rewrite (st_bind_Some _ _ _ _ _ Hd7).
  exists h7. split_and!; [done|done|]. eapply facade_ok_kept; eauto.
Qed.

(** One handle to [c] less when the container already held it. *)
Definition same_context (p : BinaryPluginImpl) (c : loc) : Z :=
  if decide (rw_data (context p) = Some c) then 1%Z else 0%Z.

(** Dropping the context the container held before leaves the count of
    [c] as it was, unless that context was [c] itself. *)
Lemma drop_old_count h E self p w c id k n :
  rc_ok h E -> facade_ok h self p w -> c <> self ->
  h !! c = Some (Obj (PHostPluginContext id) k) -> (1 < k)%Z ->
  exists h', option_drop (rw_data (context p)) (<[self := n]> h) = Some (tt, h') /\
    h' !! c = Some (Obj (PHostPluginContext id) (k - same_context p c)).
Proof.
  intros Hrc Hf Hne Hc Hk. unfold same_context.
  assert (Hc' : <[self := n]> h !! c = Some (Obj (PHostPluginContext id) k))
    by by rewrite lookup_insert_ne.
  destruct (rw_data (context p)) as [x|] eqn:Hx; cbn [option_drop].
  - destruct (decide (x = c)) as [->|Hxc].
    + rewrite decide_True by done. rewrite (arc_drop_decrement _ _ _ Hc') by (simpl; lia).
      eexists. split; [reflexivity|]. by rewrite lookup_insert_eq.
    + rewrite decide_False by congruence.
      destruct (proj2 (fo_context _ _ _ _ Hf) x Hx) as [idx [kx Hxl]].
      assert (x <> self) by (eapply is_context_not_plugin; eauto using fo_self; by exists idx, kx).
      assert (Hx' : <[self := n]> h !! x = Some (Obj (PHostPluginContext idx) kx))
        by by rewrite lookup_insert_ne.
      destruct (arc_drop_leaf_other _ _ _ c Hx' eq_refl ltac:(done)) as (h' & Hd & Hl).
      exists h'. rewrite Hd, Hl, Hc'. split; [done|]. do 2 f_equal. lia.
  - rewrite decide_False by done. eexists. split; [reflexivity|]. rewrite Hc'. do 2 f_equal. lia.
Qed.

(** Line 81 of [set_context]: the first clone aborts when [c] is above the
    bound; otherwise the facade's container holds [c], the context it held
    before is dropped, and [c] has one handle more, or the same number
    when the container already held it. *)
Lemma set_context_head h E self c p w id m :
  rc_ok h (E ⊎ {[+ c +]}) -> self ∈ E -> facade_ok h self p w ->
  h !! c = Some (Obj (PHostPluginContext id) m) ->
  ((MAX_REFCOUNT < m)%Z /\ set_context self c h = None) \/
  ((m <= MAX_REFCOUNT)%Z /\ exists h3,
     set_context self c h = forward_tail p c h3 /\ rc_ok h3 (E ⊎ {[+ c +]}) /\
     facade_ok h3 self (with_context p (stored c)) w /\
     h3 !! c = Some (Obj (PHostPluginContext id) (m + 1 - same_context p c))).
Proof.
  intros Hrc Hin Hf Hcl. pose proof (fo_self _ _ _ _ Hf) as [n Hs].
  assert (Hc : is_context h c) by (exists id, m; exact Hcl).
  assert (Hne : c <> self) by (eapply is_context_not_plugin; eauto using fo_self).
  unfold set_context.
  rewrite (st_bind_Some _ _ _ _ _ (load_plugin_Some _ _ _ (fo_self _ _ _ _ Hf))).
  rewrite container_write_at_rest by apply (proj1 (fo_context _ _ _ _ Hf)). cbv beta iota.
  destruct (decide (MAX_REFCOUNT < m)%Z) as [Hb|Hb].
  { left. split; [done|]. apply st_bind_None. unfold arc_clone. rewrite Hcl. by rewrite decide_True. }
  right. split; [lia|].
  rewrite (st_bind_Some _ _ _ _ _ (arc_clone_Some _ _ _ Hcl ltac:(simpl; lia))).
  cbn [guard_replace write_unlock rw_state rw_poisoned rw_data].
  pose proof (rc_ok_clone _ _ _ _ Hrc Hcl) as Hrc1. simpl in Hrc1.
  assert (Hs1 : <[c := Obj (PHostPluginContext id) (m + 1)%Z]> h !! self =
                Some (Obj (PBinaryPluginImpl p) n)) by by rewrite lookup_insert_ne.
  rewrite (st_bind_Some _ _ _ _ _ (heap_write_Some _ _ _ _ Hs1)). simpl.
  assert (Hrc2 := rc_ok_write _ _ _ (list_to_set_disj (option_handles (rw_data (context p))))
                    _ _ (PBinaryPluginImpl (with_context p (stored c))) Hrc1 Hs1 ltac:(balance)).
  simpl in Hrc2. destruct (option_drop_ok _ _ _ Hrc2) as (h3 & Hd3 & Hrc3 & Hk3).
  rewrite (st_bind_Some _ _ _ _ _ Hd3).
  assert (Hm : (1 <= m)%Z).
  { pose proof (Hrc c) as Ha. unfold rc_at in Ha. rewrite Hcl in Ha. simpl in Ha. lia. }
  destruct (drop_old_count _ _ self p w c id (m + 1) (Obj (PBinaryPluginImpl (with_context p (stored c))) n)
              Hrc1 (facade_ok_recount _ _ _ _ _ (Obj (PHostPluginContext id) m) _ Hf Hcl) Hne
              ltac:(by rewrite lookup_insert_eq) ltac:(lia)) as (h3' & Hd3' & Hc3).
  simpl in Hd3'. rewrite Hd3 in Hd3'. injection Hd3' as <-.
  exists h3. split_and!; [done|done| |done].
  eapply facade_ok_kept; [|exact Hk3|exact Hrc3|multiset_solver].
  apply facade_ok_write_plugin;
    [by apply (facade_ok_recount _ _ _ _ _ (Obj (PHostPluginContext id) m))|].
  by apply (is_context_recount _ _ (Obj (PHostPluginContext id) m)).
Qed.

(** [set_context] on a constructed facade with a host context [c] moved
    in: either it aborts in one of its two [Arc::clone]s, which happens only
    when [c] already has [isize::MAX] handles, or it returns [Ok(())] with
    [c] stored in the facade's container and in the web-resource
    provider's, both containers at rest, and every count equal to the
    number of handles. *)
Lemma set_context_cases h E self c p w :
  rc_ok h (E ⊎ {[+ c +]}) -> self ∈ E -> facade_ok h self p w -> is_context h c ->
  (set_context self c h = None /\
     forall o, h !! c = Some o -> (MAX_REFCOUNT <= obj_strong o)%Z) \/
  exists h', set_context self c h = Some (Ok tt, h') /\ rc_ok h' E /\
    facade_ok h' self (with_context p (stored c)) (MkBinaryWebResourceProviderImpl (stored c)).
Proof.
  intros Hrc Hin Hf [id [m Hcl]].
  destruct (set_context_head _ _ _ _ _ _ id m Hrc Hin Hf Hcl)
    as [[Hb Hn]|[Hb (h3 & -> & Hrc3 & Hf3 & Hc3)]].
  { left. split; [done|]. intros o Ho. rewrite Hcl in Ho. injection Ho as <-. simpl. lia. }
  destruct (set_context_tail _ _ _ _ _ _ _ Hrc3 ltac:(multiset_solver) Hf3 Hc3 eq_refl)
    as [[Hnone Hbig]|[_ Hok]]; [left|by right].
  split; [done|]. intros o Ho. rewrite Hcl in Ho. injection Ho as <-. simpl in *.
  unfold same_context in Hbig. case_decide; lia.
Qed.

Lemma set_context_ok h E self c p w :
  rc_ok h (E ⊎ {[+ c +]}) -> self ∈ E -> facade_ok h self p w -> is_context h c ->
  (forall o, h !! c = Some o -> (obj_strong o < MAX_REFCOUNT)%Z) ->
  exists h', set_context self c h = Some (Ok tt, h') /\ rc_ok h' E /\
    facade_ok h' self (with_context p (stored c)) (MkBinaryWebResourceProviderImpl (stored c)).
Proof.
  intros Hrc Hin Hf Hc Hb. pose proof Hc as [id [m Hcl]].
  destruct (set_context_cases _ _ _ _ _ _ Hrc Hin Hf Hc) as [[_ Hbig]|Hok]; [|done].
  specialize (Hb _ Hcl). specialize (Hbig _ Hcl). lia.
Qed.

(** ** Construction *)

Ltac no_refs :=
  match goal with |- rc_ok _ (_ ⊎ ?R) => replace R with (∅ : gmultiset loc) by done end;
  by rewrite gmultiset_disj_union_right_id.

Lemma construct_ok h0 E :
  rc_ok h0 E ->
  exists self h p w, construct h0 = Some (self, h) /\ rc_ok h (E ⊎ {[+ self +]}) /\
    facade_ok h self p w /\
    context p = create_empty_plugin_context_container /\
    wrp_context w = create_empty_plugin_context_container.
Proof.
  intros Hrc0. unfold construct.
  destruct (arc_new_step h0 E PBinaryComponentProviderImpl ltac:(by no_refs))
    as (cp & Hn1 & Hf1 & Hrc1). rewrite (st_bind_Some _ _ _ _ _ Hn1).
  destruct (arc_new_step _ (E ⊎ {[+ cp +]}) PBinaryEntityTypeProviderImpl
              ltac:(by no_refs)) as (etp & Hn2 & Hf2 & Hrc2).
  rewrite (st_bind_Some _ _ _ _ _ Hn2).
  destruct (arc_new_step _ (E ⊎ {[+ cp +]} ⊎ {[+ etp +]}) PBinaryComponentBehaviourProviderImpl
              ltac:(by no_refs)) as (cbp & Hn3 & Hf3 & Hrc3).
  rewrite (st_bind_Some _ _ _ _ _ Hn3).
  set (w := MkBinaryWebResourceProviderImpl create_empty_plugin_context_container).
  destruct (arc_new_step _ (E ⊎ {[+ cp +]} ⊎ {[+ etp +]} ⊎ {[+ cbp +]})
              (PBinaryWebResourceProviderImpl w)
              ltac:(by no_refs)) as (wrp & Hn4 & Hf4 & Hrc4).
  rewrite (st_bind_Some _ _ _ _ _ Hn4).
  set (p := MkBinaryPluginImpl cp etp cbp wrp create_empty_plugin_context_container).
  destruct (arc_new_step _ E (PBinaryPluginImpl p) ltac:(replace (E ⊎ refs_of _) with
              (E ⊎ {[+ cp +]} ⊎ {[+ etp +]} ⊎ {[+ cbp +]} ⊎ {[+ wrp +]}) by balance; done))
    as (self & Hn5 & Hf5 & Hrc5).
  exists self. eexists. exists p, w. split_and!; [exact Hn5|done| |done|done].
  split; simpl; try (split; [done|by intros ? ?]);
    repeat (apply has_payload_insert_eq || (apply has_payload_insert_fresh; [|done])).
Qed.

(** ** Properties of the facade *)

(** C1. Capability queries.  For a constructed facade whose counts are the
    numbers of handles, a wired capability (component, entity type,
    component behaviour, web resource) answers [Ok] with the very object of
    its slot, one more count on it (the handle given to the caller) and the
    invariants kept; an unwired capability (relation type, entity
    behaviour, relation behaviour, flow) answers its own absence error and
    changes nothing. *)
Theorem capability_query_spec env c h E self p w :
  rc_ok h E -> facade_ok h self p w ->
  match wired_slot c with
  | Some slot =>
      forall o, h !! slot p = Some o -> (obj_strong o <= MAX_REFCOUNT)%Z ->
      @get_capability pheap (binary_plugin env) c self h =
        Some (Ok (slot p), <[slot p := Obj (obj_val o) (obj_strong o + 1)%Z]> h) /\
      rc_ok (<[slot p := Obj (obj_val o) (obj_strong o + 1)%Z]> h) (E ⊎ {[+ slot p +]}) /\
      facade_ok (<[slot p := Obj (obj_val o) (obj_strong o + 1)%Z]> h) self p w
  | None =>
      @get_capability pheap (binary_plugin env) c self h = Some (Err (absence_error c), h)
  end.
Proof.
  intros Hrc Hf. pose proof (wired_slot_registered h self p w c) as Hreg.
  destruct c; cbn [wired_slot]; try reflexivity; intros o Hl Hb;
    (split_and!; [|by apply rc_ok_clone|by apply facade_ok_recount]);
    (apply get_wired_Ok; [exact (fo_self _ _ _ _ Hf)|exact Hl| |exact Hb]);
    exact (Hreg _ o Hf eq_refl Hl).
Qed.

(** C2. [set_context] on a constructed facade, with a host context the
    caller moves in, returns [Ok(())] without panicking, leaves the facade's
    container and the web-resource provider's container at rest holding
    that context, and keeps every count equal to the number of handles (the
    replaced contexts lose the handles the two containers held). *)
Theorem set_context_spec env h E self c p w :
  rc_ok h (E ⊎ {[+ c +]}) -> self ∈ E -> facade_ok h self p w -> is_context h c ->
  (forall o, h !! c = Some o -> (obj_strong o < MAX_REFCOUNT)%Z) ->
  exists h', @plugin_set_context pheap (binary_plugin env) self c h = Some (Ok tt, h') /\
    rc_ok h' E /\
    facade_ok h' self (with_context p (stored c)) (MkBinaryWebResourceProviderImpl (stored c)).
Proof. apply set_context_ok. Qed.

(** C3. The defensive branch of a wired getter: when the slot's object does
    not implement the asked role, the getter answers the absence error and
    the heap is exactly as before the call: the clone it made is dropped
    with the [Err] that [query_arc] returned. *)
Theorem get_wired_defensive_err slot r err self h E p o :
  rc_ok h E -> has_payload h self (PBinaryPluginImpl p) -> h !! slot p = Some o ->
  r ∉ interfaces (payload_ty (obj_val o)) -> (obj_strong o <= MAX_REFCOUNT)%Z ->
  get_wired slot r err self h = Some (Err err, h).
Proof.
  intros Hrc Hs Hl Hr Hb. apply (get_wired_Err_heap _ _ _ _ _ p o); [done|done|done|].
  split; [|done]. pose proof (Hrc (slot p)) as Ha. unfold rc_at in Ha. rewrite Hl in Ha. lia.
Qed.

(** C4. A getter aborts the process (the [Arc::clone] overflow guard)
    exactly when more than [isize::MAX] handles to the slot's object
    already exist; below that it never panics. *)
Theorem get_wired_abort_iff slot r err self h E p o :
  rc_ok h E -> has_payload h self (PBinaryPluginImpl p) -> h !! slot p = Some o ->
  get_wired slot r err self h = None <->
  (MAX_REFCOUNT < Z.of_nat (multiplicity (slot p) (E ⊎ heap_refs h)))%Z.
Proof.
  intros Hrc Hs Hl. rewrite <- (rc_ok_strong _ _ _ _ Hrc Hl).
  split; [|by apply (get_wired_abort _ _ _ _ _ p o)].
  intros Hn. destruct (decide (MAX_REFCOUNT < obj_strong o)%Z) as [|Hle]; [done|].
  destruct (decide (r ∈ interfaces (payload_ty (obj_val o)))).
  - rewrite (get_wired_Ok _ _ _ _ _ _ _ Hs Hl) in Hn; [done|done|lia].
  - pose proof (Hrc (slot p)) as Ha. unfold rc_at in Ha. rewrite Hl in Ha.
    rewrite (get_wired_Err_heap _ _ _ _ _ _ _ Hs Hl) in Hn; [done|done|lia].
Qed.

(** C13. The error path of line 81: when the facade's container is
    poisoned, [write().unwrap()] panics, and when a guard on it is live
    the sequential call cannot take the lock; either way [set_context]
    stops there, before cloning the context or forwarding it. *)
Theorem set_context_lock_unusable h self c p n :
  h !! self = Some (Obj (PBinaryPluginImpl p) n) ->
  rw_poisoned (context p) = true \/ rw_state (context p) <> Unlocked ->
  set_context self c h = None.
Proof.
  intros Hs Hbad. unfold set_context.
  rewrite (st_bind_Some _ _ _ _ _ (load_plugin_Some _ _ _ (ex_intro _ n Hs))).
  destruct (context p) as [[|m|] [|] d]; simpl in *; intuition congruence.
Qed.

(** C16. The exact abort condition of [set_context] (lines 81-82): the
    call clones the context twice, and between the two clones it drops the
    context the facade's container held before.  With [c] at [m] handles,
    the call aborts exactly when [m + 1] exceeds [isize::MAX], or [m] does
    when the container already held [c] (the dropped old handle makes room
    for the second clone). *)
Theorem set_context_abort_iff h E self c p w id m :
  rc_ok h (E ⊎ {[+ c +]}) -> self ∈ E -> facade_ok h self p w ->
  h !! c = Some (Obj (PHostPluginContext id) m) ->
  set_context self c h = None <-> (MAX_REFCOUNT < m + 1 - same_context p c)%Z.
Proof.
  intros Hrc Hin Hf Hcl.
  destruct (set_context_head _ _ _ _ _ _ id m Hrc Hin Hf Hcl)
    as [[Hb ->]|[Hb (h3 & -> & Hrc3 & Hf3 & Hc3)]].
  { split; [intros _|done]. unfold same_context. case_decide; lia. }
  destruct (set_context_tail _ _ _ _ _ _ _ Hrc3 ltac:(multiset_solver) Hf3 Hc3 eq_refl)
    as [[Hn Hbig]|[Hle (h' & Hs & _)]]; simpl in *.
  - split; [intros _; lia|intros _; exact Hn].
  - split; [intros Hn; discriminate (eq_trans (eq_sym Hs) Hn)|lia].
Qed.

(** ** Dispatch of the capability queries *)

(** A wired capability is answered by [get_wired] on its slot, an unwired
    one by its absence error. *)
Lemma get_capability_wired env c slot :
  wired_slot c = Some slot ->
  @get_capability pheap (binary_plugin env) c =
    get_wired slot (capability_role c) (absence_error c).
Proof. destruct c; by intros [= <-]. Qed.

Lemma get_capability_unwired env c self h :
  wired_slot c = None ->
  @get_capability pheap (binary_plugin env) c self h = Some (Err (absence_error c), h).
Proof. by destruct c. Qed.

(** ** Witnesses on the freshly constructed facade *)

(** A sample build environment and the heap [construct] builds from an
    empty heap: the providers at locations 1-4, the facade at 5. *)
Definition sample_env : CargoEnv :=
  MkCargoEnv "inexor-rgf-plugin-binary" "binary plugin" "0.1.0".

Definition boot_heap : pheap :=
  match construct ∅ with Some (_, h) => h | None => ∅ end.
Definition boot_self : loc := Loc 5.
Definition boot_plugin : BinaryPluginImpl :=
  MkBinaryPluginImpl (Loc 1) (Loc 2) (Loc 3) (Loc 4) create_empty_plugin_context_container.
Definition boot_web : BinaryWebResourceProviderImpl :=
  MkBinaryWebResourceProviderImpl create_empty_plugin_context_container.

(** The heap after the host created context number 7 (at location 6). *)
Definition ctx_heap : pheap :=
  match new_context 7 boot_heap with Some (_, h) => h | None => ∅ end.

Lemma capability_query_spec_witness :
  rc_ok boot_heap {[+ boot_self +]} /\ facade_ok boot_heap boot_self boot_plugin boot_web /\
  exists h', @get_capability pheap (binary_plugin sample_env) CComponent boot_self boot_heap =
             Some (Ok (Loc 1), h').
Proof.
  assert (Hrc : rc_ok boot_heap {[+ boot_self +]})
    by (by_decide).
  assert (Hf : facade_ok boot_heap boot_self boot_plugin boot_web)
    by (by_decide).
  split; [exact Hrc|split; [exact Hf|]].
  pose proof (capability_query_spec sample_env CComponent _ _ _ _ _ Hrc Hf) as H.
  cbn [wired_slot] in H.
  eexists. apply (H (Obj PBinaryComponentProviderImpl 1%Z)); [vm_compute; reflexivity|].
  unfold MAX_REFCOUNT. simpl. lia.
Defined.

Lemma set_context_spec_witness :
  exists h', @plugin_set_context pheap (binary_plugin sample_env) boot_self (Loc 6) ctx_heap =
               Some (Ok tt, h') /\ rc_ok h' {[+ boot_self +]}.
Proof.
  destruct (set_context_spec sample_env ctx_heap {[+ boot_self +]} boot_self (Loc 6)
              boot_plugin boot_web) as (h' & Hs & Hrc & _).
  - by_decide.
  - apply gmultiset_elem_of_singleton. reflexivity.
  - by_decide.
  - by_decide.
  - intros o Ho. vm_compute in Ho. injection Ho as <-. vm_compute. reflexivity.
  - exists h'. split; [exact Hs|exact Hrc].
Defined.

Lemma get_wired_defensive_err_witness :
  get_wired component_provider RFlowProvider NoFlowProvider boot_self boot_heap =
    Some (Err NoFlowProvider, boot_heap).
Proof.
  apply (get_wired_defensive_err _ _ _ _ _ {[+ boot_self +]} boot_plugin
           (Obj PBinaryComponentProviderImpl 1%Z)).
  - by_decide.
  - by_decide.
  - vm_compute. reflexivity.
  - by_decide.
  - unfold MAX_REFCOUNT. simpl. lia.
Defined.

Lemma get_wired_abort_iff_witness :
  get_wired component_provider RComponentProvider NoComponentProvider boot_self boot_heap = None <->
  (MAX_REFCOUNT < Z.of_nat (multiplicity (Loc 1) ({[+ boot_self +]} ⊎ heap_refs boot_heap)))%Z.
Proof.
  apply (get_wired_abort_iff component_provider RComponentProvider NoComponentProvider
           boot_self boot_heap {[+ boot_self +]} boot_plugin
           (Obj PBinaryComponentProviderImpl 1%Z)).
  - by_decide.
  - by_decide.
  - vm_compute. reflexivity.
Defined.

Lemma set_context_lock_unusable_witness :
  set_context boot_self (Loc 6)
    (<[boot_self := Obj (PBinaryPluginImpl (with_context boot_plugin (MkRwLock Unlocked true None))) 1%Z]>
       ctx_heap) = None.
Proof.
  apply (set_context_lock_unusable _ _ _ (with_context boot_plugin (MkRwLock Unlocked true None)) 1%Z).
  - by rewrite lookup_insert_eq.
  - left. reflexivity.
Defined.

Lemma set_context_abort_iff_witness :
  set_context boot_self (Loc 6) ctx_heap = None <->
  (MAX_REFCOUNT < 1 + 1 - same_context boot_plugin (Loc 6))%Z.
Proof.
  apply (set_context_abort_iff ctx_heap {[+ boot_self +]} boot_self (Loc 6) boot_plugin boot_web 7 1%Z).
  - by_decide.
  - apply gmultiset_elem_of_singleton. reflexivity.
  - by_decide.
  - vm_compute. reflexivity.
Defined.
