(* ===== verification/Lifecycle.v ===== *)
(** * The host: lifecycle protocol and host-driven runs

    The facade keeps no lifecycle state of its own; the host drives it
    through [init], [post_init], [pre_shutdown] and [shutdown] and may call
    [set_context], the getters and [metadata] at any point.  This file has
    two parts.

    - The lifecycle protocol, written against the [Plugin] class only:
      the lifecycle states and hooks, which hook the host may call in which
      state ([hook_enabled]) and the state it moves to ([hook_target]).
    - The host's world for the binary plugin: the Arc heap, the multiset of
      handles the host holds, the facade's location and the lifecycle
      state, an executable step function [host_exec] for each host action
      (a [None] result is a panic or an abort of the process), the step
      relation and reachability from a freshly constructed facade. *)

From S2P Require Import Prelude Arc RwLock Query Plugin Facade.

(** ** The lifecycle protocol, against the [Plugin] interface *)

Inductive lifecycle_state : Type :=
| Constructed
| Initialized
| PostInitialized
| PreShutdown
| ShutdownComplete.

#[global] Instance lifecycle_state_eq_dec : EqDecision lifecycle_state.
Proof. solve_decision. Defined.

Inductive hook : Type := HInit | HPostInit | HPreShutdown | HShutdown.

#[global] Instance hook_eq_dec : EqDecision hook.
Proof. solve_decision. Defined.

Definition hook_call {H} `{Plugin H} (k : hook) : loc -> st H (result unit PluginError) :=
  match k with
  | HInit => plugin_init
  | HPostInit => plugin_post_init
  | HPreShutdown => plugin_pre_shutdown
  | HShutdown => plugin_shutdown
  end.

(** The host calls the hooks in order; [pre_shutdown] may also come early,
    after a failed [init] or [post_init] (best-effort teardown). *)
Definition hook_enabled (k : hook) (s : lifecycle_state) : bool :=
  match k, s with
  | HInit, Constructed => true
  | HPostInit, Initialized => true
  | HPreShutdown, (Constructed | Initialized | PostInitialized) => true
  | HShutdown, PreShutdown => true
  | _, _ => false
  end.

(** Where a hook leads: a failed [init] or [post_init] leaves the state as
    it was (the host does not proceed); teardown hooks proceed whatever
    they report. *)
Definition hook_target (k : hook) (s : lifecycle_state) (ok : bool) : lifecycle_state :=
  match k with
  | HInit => if ok then Initialized else s
  | HPostInit => if ok then PostInitialized else s
  | HPreShutdown => PreShutdown
  | HShutdown => ShutdownComplete
  end.

(** ** The host's world for the binary plugin *)

Record world : Type := MkWorld {
  w_heap : pheap;
  w_host : gmultiset loc;      (** the provider and context handles the host holds *)
  w_plugin : option loc;       (** the host's handle to the facade, until dropped *)
  w_lc : lifecycle_state
}.

Definition plugin_handles (w : world) : gmultiset loc :=
  match w_plugin w with Some l => {[+ l +]} | None => ∅ end.

Inductive host_action : Type :=
| ACall (k : hook)            (** a lifecycle hook *)
| ASetContext (c : loc)       (** move one of the host's context handles in *)
| AQuery (c : capability)     (** call a getter; keep the returned handle *)
| AMetadata
| ANewContext (id : nat)      (** [Arc::new] of a fresh host context *)
| ADrop (l : loc)             (** drop one handle the host holds *)
| ADropPlugin.                (** drop the host's handle to the facade *)

Inductive observation : Type :=
| OUnit (r : result unit PluginError)
| OHandle (r : result loc PluginError)
| OMeta (r : result PluginMetadata PluginError)
| ONew (l : loc)
| ODropped.

(** What the host may do: call the facade while it holds it, call a hook
    its lifecycle state allows, pass only a context it holds, drop only a
    handle it holds. *)
Definition action_enabled (a : host_action) (w : world) : bool :=
  let holds l := bool_decide (l ∈ w_host w) in
  match w_plugin w, a with
  | Some _, ACall k => hook_enabled k (w_lc w)
  | Some _, ASetContext c => holds c && bool_decide (is_context (w_heap w) c)
  | Some _, (AQuery _ | AMetadata | ADropPlugin) => true
  | _, ANewContext _ => true
  | _, ADrop l => holds l
  | None, _ => false
  end.

Definition handle_of (r : result loc PluginError) : gmultiset loc :=
  match r with Ok l => {[+ l +]} | Err _ => ∅ end.

Definition with_heap (w : world) (h : pheap) (host : gmultiset loc) : world :=
  MkWorld h host (w_plugin w) (w_lc w).

(** One host action, run on the facade through the [Plugin] instance;
    [None] is a panic or an abort of the process (or an action the host
    cannot take). *)
Definition host_exec (env : CargoEnv) (a : host_action) (w : world)
    : option (world * observation) :=
  let P := binary_plugin env in
  match a, w_plugin w with
  | ACall k, Some self =>
      match @hook_call pheap P k self (w_heap w) with
      | Some (r, h') =>
          Some (MkWorld h' (w_host w) (w_plugin w) (hook_target k (w_lc w) (negb (is_err r))),
                OUnit r)
      | None => None
      end
  | ASetContext c, Some self =>
      match @plugin_set_context pheap P self c (w_heap w) with
      | Some (r, h') => Some (with_heap w h' (w_host w ∖ {[+ c +]}), OUnit r)
      | None => None
      end
  | AQuery c, Some self =>
      match @get_capability pheap P c self (w_heap w) with
      | Some (r, h') => Some (with_heap w h' (w_host w ⊎ handle_of r), OHandle r)
      | None => None
      end
  | AMetadata, Some self =>
      match @plugin_metadata pheap P self (w_heap w) with
      | Some (r, h') => Some (with_heap w h' (w_host w), OMeta r)
      | None => None
      end
  | ANewContext id, _ =>
      match new_context id (w_heap w) with
      | Some (l, h') => Some (with_heap w h' (w_host w ⊎ {[+ l +]}), ONew l)
      | None => None
      end
  | ADrop l, _ =>
      match arc_drop l (w_heap w) with
      | Some (_, h') => Some (with_heap w h' (w_host w ∖ {[+ l +]}), ODropped)
      | None => None
      end
  | ADropPlugin, Some self =>
      match arc_drop self (w_heap w) with
      | Some (_, h') => Some (MkWorld h' (w_host w) None (w_lc w), ODropped)
      | None => None
      end
  | _, None => None
  end.

Inductive host_step (env : CargoEnv) : world -> world -> Prop :=
| host_step_intro a w w' o :
    action_enabled a w = true -> host_exec env a w = Some (w', o) -> host_step env w w'.

Inductive star {A} (R : A -> A -> Prop) : A -> A -> Prop :=
| star_refl a : star R a a
| star_step a b c : R a b -> star R b c -> star R a c.

(** The world right after construction: the host holds the one handle to
    the facade. *)
Definition initial_world (h : pheap) (self : loc) : world :=
  MkWorld h ∅ (Some self) Constructed.

Definition reachable env (w : world) : Prop :=
  exists h self, construct ∅ = Some (self, h) /\ star (host_step env) (initial_world h self) w.

(** A sequence of host actions, executed in order, with the observations
    in order; [None] when one of them panics or cannot be taken. *)
Fixpoint run_actions (env : CargoEnv) (acts : list host_action) (w : world)
    : option (world * list observation) :=
  match acts with
  | [] => Some (w, [])
  | a :: acts' =>
      if action_enabled a w then
        match host_exec env a w with
        | Some (w', o) =>
            match run_actions env acts' w' with
            | Some (w'', os) => Some (w'', o :: os)
            | None => None
            end
        | None => None
        end
      else None
  end.

(** The metadata [metadata] answers: the package's name, description and
    version. *)
Definition env_metadata (env : CargoEnv) : PluginMetadata :=
  MkPluginMetadata (CARGO_PKG_NAME env) (CARGO_PKG_DESCRIPTION env) (CARGO_PKG_VERSION env).

(** ** The host-level invariant *)

Definition same_slots (p q : BinaryPluginImpl) : Prop :=
  component_provider p = component_provider q /\
  entity_type_provider p = entity_type_provider q /\
  component_behaviour_provider p = component_behaviour_provider q /\
  web_resource_provider p = web_resource_provider q.

(** Counts equal handles (the host's and those stored in objects), and as
    long as the host holds the facade it is well formed with the slots it
    was constructed with. *)
Definition world_ok (p0 : BinaryPluginImpl) (w : world) : Prop :=
  rc_ok (w_heap w) (w_host w ⊎ plugin_handles w) /\
  forall self, w_plugin w = Some self ->
    exists p wp, facade_ok (w_heap w) self p wp /\ same_slots p p0.

Lemma take_handle (E : gmultiset loc) l : l ∈ E -> E = (E ∖ {[+ l +]}) ⊎ {[+ l +]}.
Proof. multiset_solver. Qed.

Lemma facade_ok_fresh h self p wp l o :
  facade_ok h self p wp -> h !! l = None -> facade_ok (<[l := o]> h) self p wp.
Proof. intros Hf Hl. eapply facade_ok_mono; [|done]. intros. by eapply has_payload_insert_fresh. Qed.

Lemma wired_slot_live h self p wp c slot :
  facade_ok h self p wp -> wired_slot c = Some slot -> exists o, h !! slot p = Some o.
Proof. intros [_ [? H1] [? H2] [? H3] [? H4] _ _] Hc. destruct c; simplify_eq/=; eauto. Qed.

Lemma hook_call_binary env k self h :
  @hook_call pheap (binary_plugin env) k self h = Some (Ok tt, h).
Proof. by destruct k. Qed.

Ltac unpack_enabled :=
  repeat match goal with
  | H : _ && _ = true |- _ => apply andb_prop in H as [? ?]
  | H : bool_decide _ = true |- _ => apply bool_decide_eq_true in H
  end.

Section Preservation.
Context (env : CargoEnv) (p0 : BinaryPluginImpl).

(** What a [set_context] step of the host does, in a world satisfying the
    invariant: it returns [Ok], moves the host's handle to [c] into the
    facade, and leaves a well-formed facade whose two containers hold [c]. *)
Lemma host_set_context_inv h E self lc c w' o :
  world_ok p0 (MkWorld h E (Some self) lc) ->
  action_enabled (ASetContext c) (MkWorld h E (Some self) lc) = true ->
  host_exec env (ASetContext c) (MkWorld h E (Some self) lc) = Some (w', o) ->
  exists p wp h', facade_ok h self p wp /\ same_slots p p0 /\ is_context h c /\
    set_context self c h = Some (Ok tt, h') /\ rc_ok h' (E ∖ {[+ c +]} ⊎ {[+ self +]}) /\
    w' = MkWorld h' (E ∖ {[+ c +]}) (Some self) lc /\ o = OUnit (Ok tt) /\
    facade_ok h' self (with_context p (stored c)) (MkBinaryWebResourceProviderImpl (stored c)).
Proof.
  intros [Hrc Hf] Hen Hex. unfold action_enabled, plugin_handles in *; simpl in *. unpack_enabled.
  destruct (Hf self eq_refl) as (p & wp & Hfo & Hsl).
  rewrite (take_handle E c), <- gmultiset_disj_union_assoc,
    (gmultiset_disj_union_comm {[+ c +]}), gmultiset_disj_union_assoc in Hrc by done.
  destruct (set_context_cases _ _ self c p wp Hrc ltac:(multiset_solver) Hfo ltac:(done))
    as [[Hn _]|(h' & Hr & Hrc' & Hf')]; rewrite ?Hn, ?Hr in Hex; [done|].
  injection Hex as <- <-. exists p, wp, h'. split_and!; done.
Qed.

Lemma step_set_context_ok h E self lc c w' o :
  world_ok p0 (MkWorld h E (Some self) lc) ->
  action_enabled (ASetContext c) (MkWorld h E (Some self) lc) = true ->
  host_exec env (ASetContext c) (MkWorld h E (Some self) lc) = Some (w', o) ->
  world_ok p0 w'.
Proof.
  intros Hok Hen Hex.
  destruct (host_set_context_inv _ _ _ _ _ _ _ Hok Hen Hex) as (p & wp & h' & _ & Hsl & _ & _ & Hrc' & -> & _ & Hf').
  split; [done|]. intros ? [= <-]. eauto.
Qed.

Lemma step_query_ok h E self lc c w' o :
  world_ok p0 (MkWorld h E (Some self) lc) ->
  host_exec env (AQuery c) (MkWorld h E (Some self) lc) = Some (w', o) ->
  world_ok p0 w'.
Proof.
  intros [Hrc Hf] Hex. unfold plugin_handles in *; simpl in *. destruct (Hf self eq_refl) as (p & wp & Hfo & Hsl).
  destruct (wired_slot c) as [slot|] eqn:Hw.
  - rewrite (get_capability_wired _ _ _ Hw) in Hex.
    destruct (wired_slot_live _ _ _ _ _ _ Hfo Hw) as [os Hos].
    destruct (decide (MAX_REFCOUNT < obj_strong os)%Z) as [Hb|Hb].
    { rewrite (get_wired_abort _ _ _ _ _ p os) in Hex; eauto using fo_self. done. }
    rewrite (get_wired_Ok _ _ _ _ _ p os) in Hex; eauto using fo_self, wired_slot_registered; [|lia].
    injection Hex as <- _. split; simpl.
    + rewrite <- gmultiset_disj_union_assoc, (gmultiset_disj_union_comm {[+ slot p +]}),
        gmultiset_disj_union_assoc. by apply rc_ok_clone.
    + intros ? [= <-]. exists p, wp. split; [by apply facade_ok_recount|done].
  - rewrite get_capability_unwired in Hex by done. injection Hex as <- _. simpl.
    rewrite gmultiset_disj_union_right_id. split; eauto.
Qed.

Lemma step_new_context_ok h E pl lc id w' o :
  world_ok p0 (MkWorld h E pl lc) ->
  host_exec env (ANewContext id) (MkWorld h E pl lc) = Some (w', o) ->
  world_ok p0 w'.
Proof.
  intros [Hrc Hf] Hex.
  destruct (arc_new_step h _ (PHostPluginContext id) ltac:(no_refs)) as (l & Hn & Hl & Hrc').
  cbn [host_exec w_heap w_plugin] in Hex. unfold new_context in Hex. rewrite Hn in Hex.
  injection Hex as <- _. unfold plugin_handles in *. split; simpl in *.
  - rewrite <- gmultiset_disj_union_assoc, (gmultiset_disj_union_comm {[+ l +]}),
      gmultiset_disj_union_assoc. done.
  - intros self Hs. destruct (Hf self Hs) as (p & wp & Hfo & Hsl). eauto using facade_ok_fresh.
Qed.

Lemma step_drop_ok h E pl lc l w' o :
  world_ok p0 (MkWorld h E pl lc) ->
  action_enabled (ADrop l) (MkWorld h E pl lc) = true ->
  host_exec env (ADrop l) (MkWorld h E pl lc) = Some (w', o) ->
  world_ok p0 w'.
Proof.
  intros [Hrc Hf] Hen Hex. unfold action_enabled, plugin_handles in *; simpl in *.
  assert (Hl : l ∈ E) by (destruct pl; unpack_enabled; done).
  rewrite (take_handle E l), <- gmultiset_disj_union_assoc,
    (gmultiset_disj_union_comm {[+ l +]}), gmultiset_disj_union_assoc in Hrc by done.
  destruct (arc_drop_ok _ _ _ Hrc) as (h' & Hd & Hrc' & Hk). rewrite Hd in Hex.
  injection Hex as <- _. split; [done|]. intros self Hs.
  destruct (Hf self Hs) as (p & wp & Hfo & Hsl). exists p, wp. split; [|done].
  eapply facade_ok_kept; [done|done|done|].
  unfold plugin_handles, with_heap in *; simpl in *; subst pl. multiset_solver.
Qed.

Lemma step_drop_plugin_ok h E self lc w' o :
  world_ok p0 (MkWorld h E (Some self) lc) ->
  host_exec env ADropPlugin (MkWorld h E (Some self) lc) = Some (w', o) ->
  world_ok p0 w'.
Proof.
  intros [Hrc Hf] Hex. unfold plugin_handles in *; simpl in *.
  destruct (arc_drop_ok _ _ _ Hrc) as (h' & Hd & Hrc' & Hk). rewrite Hd in Hex.
  injection Hex as <- _. split; [simpl; by rewrite gmultiset_disj_union_right_id|done].
Qed.

(** Every host step keeps the invariant. *)
Lemma host_step_ok w w' : world_ok p0 w -> host_step env w w' -> world_ok p0 w'.
Proof.
  intros Hok Hst. destruct Hst as [a w0 w1 o Hen Hex]. destruct w0 as [h E [self|] lc].
  - destruct a; [| eapply step_set_context_ok | eapply step_query_ok | |
                 eapply step_new_context_ok | eapply step_drop_ok | eapply step_drop_plugin_ok];
      eauto.
    + cbn [host_exec w_plugin w_heap] in Hex. rewrite hook_call_binary in Hex.
      injection Hex as <- _. exact Hok.
    + cbn [host_exec w_plugin w_heap] in Hex. injection Hex as <- _. exact Hok.
  - destruct a; try done; [eapply step_new_context_ok|eapply step_drop_ok]; eauto.
Qed.

End Preservation.

Lemma star_host_ok env p0 w w' :
  world_ok p0 w -> star (host_step env) w w' -> world_ok p0 w'.
Proof. intros Hok Hs. induction Hs; eauto using host_step_ok. Qed.

Lemma star_trans {A} (R : A -> A -> Prop) a b c : star R a b -> star R b c -> star R a c.
Proof. induction 1; eauto using star. Qed.

Lemma rc_ok_empty : rc_ok (∅ : pheap) ∅.
Proof. intros l. unfold rc_at. by rewrite lookup_empty. Qed.

Lemma initial_world_ok h self p0 :
  construct ∅ = Some (self, h) -> has_payload h self (PBinaryPluginImpl p0) ->
  world_ok p0 (initial_world h self).
Proof.
  intros Hc Hp0. destruct (construct_ok ∅ ∅ rc_ok_empty) as (s & h' & p & wp & Hc' & Hrc & Hf & _).
  rewrite Hc in Hc'. injection Hc' as <- <-. split; [done|].
  intros ? [= <-]. exists p, wp. split; [done|].
  destruct (fo_self _ _ _ _ Hf) as [n Hn]. destruct Hp0 as [m Hm]. rewrite Hn in Hm.
  simplify_eq. unfold same_slots. auto.
Qed.

Lemma same_slots_wired p q c slot :
  same_slots p q -> wired_slot c = Some slot -> slot p = slot q.
Proof. intros (? & ? & ? & ?) Hc. by destruct c; simplify_eq/=. Qed.

(** What a query answers in a world satisfying the invariant: the absence
    error for an unwired capability, and otherwise the slot the facade was
    constructed with, whose object (live after the query) registered the
    capability's role. *)
Lemma query_answer env p0 h E self lc c w' r :
  world_ok p0 (MkWorld h E (Some self) lc) ->
  host_exec env (AQuery c) (MkWorld h E (Some self) lc) = Some (w', OHandle r) ->
  (wired_slot c = None /\ r = Err (absence_error c)) \/
  exists slot o, wired_slot c = Some slot /\ r = Ok (slot p0) /\
    w_heap w' !! slot p0 = Some o /\ capability_role c ∈ interfaces (payload_ty (obj_val o)).
Proof.
  intros [_ Hf] Hex. cbn [w_plugin w_heap] in Hf. destruct (Hf self eq_refl) as (p & wp & Hfo & Hsl).
  cbn [host_exec w_plugin w_heap] in Hex. destruct (wired_slot c) as [slot|] eqn:Hw.
  - right. rewrite (get_capability_wired _ _ _ Hw) in Hex.
    destruct (wired_slot_live _ _ _ _ _ _ Hfo Hw) as [os Hos].
    destruct (decide (MAX_REFCOUNT < obj_strong os)%Z) as [Hb|Hb].
    { by rewrite (get_wired_abort _ _ _ _ _ p os) in Hex; [|exact (fo_self _ _ _ _ Hfo)|exact Hos|exact Hb]. }
    rewrite (get_wired_Ok _ _ _ _ _ p os) in Hex;
      [|exact (fo_self _ _ _ _ Hfo)|exact Hos|eapply wired_slot_registered; eauto|lia].
    injection Hex as <- <-. pose proof (same_slots_wired _ _ _ _ Hsl Hw) as Hsp.
    exists slot, (Obj (obj_val os) (obj_strong os + 1)%Z). split_and!; [done|by rewrite Hsp| |].
    + simpl. by rewrite <- Hsp, lookup_insert_eq.
    + simpl. eapply wired_slot_registered; eauto.
  - left. rewrite get_capability_unwired in Hex by done. by injection Hex as _ <-.
Qed.

(** ** Properties of host-driven runs *)

(** C5. Every world reachable from a freshly constructed facade keeps the
    invariant: every strong count is the number of handles (the host's and
    those stored in live objects), no handle dangles, and as long as the
    host holds the facade it is well formed (slots of their provider types,
    containers at rest holding host contexts) with the slots it was
    constructed with. *)
Theorem reachable_world_ok env h self p0 w :
  construct ∅ = Some (self, h) -> has_payload h self (PBinaryPluginImpl p0) ->
  star (host_step env) (initial_world h self) w -> world_ok p0 w.
Proof. intros Hc Hp Hs. eapply star_host_ok; [|exact Hs]. by apply initial_world_ok. Qed.

(** In a world satisfying the invariant, the only way an action the host
    may take fails is the abort of [Arc::clone] on an object that already
    has [isize::MAX] handles. *)
Lemma host_exec_only_aborts env p0 w a :
  world_ok p0 w -> action_enabled a w = true -> host_exec env a w = None ->
  exists l o, w_heap w !! l = Some o /\ (MAX_REFCOUNT <= obj_strong o)%Z.
Proof.
  destruct w as [h E pl lc]. intros [Hrc Hf] Hen Hex.
  destruct a; destruct pl as [self|]; try done;
    unfold action_enabled, plugin_handles in *; simpl in *; unpack_enabled.
  - by rewrite hook_call_binary in Hex.
  - destruct (Hf self eq_refl) as (p & wp & Hfo & _).
    rewrite (take_handle E c), <- gmultiset_disj_union_assoc,
      (gmultiset_disj_union_comm {[+ c +]}), gmultiset_disj_union_assoc in Hrc by done.
    destruct (set_context_cases _ _ self c p wp Hrc ltac:(multiset_solver) Hfo ltac:(done))
      as [[Hn Hbig]|(h' & Hr & _)]; [|by rewrite Hr in Hex].
    destruct H0 as [id [m Hm]]. exists c, (Obj (PHostPluginContext id) m). eauto.
  - destruct (Hf self eq_refl) as (p & wp & Hfo & _).
    destruct (wired_slot c) as [slot|] eqn:Hw; [|by rewrite get_capability_unwired in Hex].
    rewrite (get_capability_wired _ _ _ Hw) in Hex.
    destruct (wired_slot_live _ _ _ _ _ _ Hfo Hw) as [os Hos].
    destruct (decide (MAX_REFCOUNT < obj_strong os)%Z) as [Hb|Hb]; [exists (slot p), os; split; [done|lia]|].
    rewrite (get_wired_Ok _ _ _ _ _ p os) in Hex;
      [done|exact (fo_self _ _ _ _ Hfo)|exact Hos|eapply wired_slot_registered; eauto|lia].
  - rewrite (take_handle E l), <- gmultiset_disj_union_assoc,
      (gmultiset_disj_union_comm {[+ l +]}), gmultiset_disj_union_assoc in Hrc by done.
    destruct (arc_drop_ok _ _ _ Hrc) as (h' & Hd & _). by rewrite Hd in Hex.
  - rewrite (take_handle E l), <- gmultiset_disj_union_assoc,
      (gmultiset_disj_union_comm {[+ l +]}), gmultiset_disj_union_assoc in Hrc by done.
    destruct (arc_drop_ok _ _ _ Hrc) as (h' & Hd & _). by rewrite Hd in Hex.
  - destruct (arc_drop_ok _ _ _ Hrc) as (h' & Hd & _). by rewrite Hd in Hex.
Qed.

(** C7. Identity of the role views: in every reachable world, a query for
    a wired capability that returns a handle returns the very object the
    slot received at construction, so two queries for the same role alias
    the same provider. *)
Theorem wired_query_stable env h self p0 w c slot w' r :
  construct ∅ = Some (self, h) -> has_payload h self (PBinaryPluginImpl p0) ->
  star (host_step env) (initial_world h self) w ->
  wired_slot c = Some slot ->
  host_exec env (AQuery c) w = Some (w', OHandle r) -> r = Ok (slot p0).
Proof.
  intros Hc Hp Hs Hw Hex. pose proof (star_host_ok env p0 _ w (initial_world_ok h self p0 Hc Hp) Hs) as Hok.
  destruct w as [h1 E [self1|] lc]; [|done].
  destruct (query_answer env p0 h1 E self1 lc c w' r Hok Hex) as [[Hn _]|(slot' & o & Hw' & -> & _)];
    congruence.
Qed.

(** C6. Absence of panics: in a world satisfying the invariant in which no
    object has [isize::MAX] handles, every action the host may take
    completes: no [unwrap] panics, no lock blocks, no handle dangles. *)
Theorem host_exec_progress env p0 w a :
  world_ok p0 w -> action_enabled a w = true ->
  map_Forall (fun _ o => (obj_strong o < MAX_REFCOUNT)%Z) (w_heap w) ->
  exists w' o, host_exec env a w = Some (w', o).
Proof.
  intros Hok Hen Hb. destruct (host_exec env a w) as [[w' o]|] eqn:Hex; [eauto|].
  destruct (host_exec_only_aborts env p0 w a Hok Hen Hex) as (l & o & Hl & Hge).
  pose proof (map_Forall_lookup_1 _ _ _ _ Hb Hl) as Hlt. simpl in Hlt. lia.
Qed.

(** ** Witnesses *)

Definition boot_world : world := initial_world boot_heap boot_self.

Lemma reachable_world_ok_witness : world_ok boot_plugin boot_world.
Proof.
  apply (reachable_world_ok sample_env boot_heap boot_self boot_plugin boot_world).
  - vm_compute. reflexivity.
  - by_decide.
  - apply star_refl.
Defined.

Lemma host_exec_progress_witness :
  exists w' o, host_exec sample_env (AQuery CComponent) boot_world = Some (w', o).
Proof.
  apply (host_exec_progress sample_env boot_plugin).
  - split; [by_decide|]. intros self [= <-]. exists boot_plugin, boot_web.
    split; [by_decide|]. unfold same_slots. auto.
  - reflexivity.
  - by_decide.
Defined.

Lemma wired_query_stable_witness :
  match host_exec sample_env (AQuery CWebResource) boot_world with
  | Some (_, OHandle r) => r = Ok (web_resource_provider boot_plugin)
  | _ => False
  end.
Proof.
  destruct (host_exec sample_env (AQuery CWebResource) boot_world) as [[w' o]|] eqn:Hq;
    [|vm_compute in Hq; discriminate].
  destruct o as [r|r|r|l|]; try (vm_compute in Hq; discriminate).
  apply (wired_query_stable sample_env boot_heap boot_self boot_plugin boot_world
           CWebResource web_resource_provider w' r).
  - vm_compute. reflexivity.
  - by_decide.
  - apply star_refl.
  - reflexivity.
  - exact Hq.
Defined.

