(* ===== verification/Concurrency.v ===== *)
(** * Concurrent callers of [set_context] and readers of the containers

    The sequential model of [Plugin] runs each method as one transition.
    Here the two context containers are shared by threads that interleave
    at the granularity of the lock: a [set_context(c)] call (src/src/plugin.rs
    lines 80-84) is four atomic steps, in code order,
    - line 81: [self.context.0.write()] acquires the facade's write lock
      ([unwrap] panics on a poisoned lock; the guard inside the
      [PoisonError] is released while unwinding);
    - line 81: [.replace(context.clone())] stores [c]; the guard is dropped
      at the end of the statement;
    - line 82: the web-resource provider's [set_context] acquires its own
      container's write lock;
    - it stores [c] and releases the lock; the call returns (line 83).
    A thread of [TSet] runs a list of such calls one after the other.  A
    reader ([TGet], the context getter of the specification) takes a read
    guard, copies the value and releases the guard.  Counts of [Arc]s are
    not tracked here ([ConcurrentArc] interleaves the callers on the Arc
    heap); a context is its identity [ctx].

    Results: freedom from deadlock and from panics (every reachable state
    can run all threads to their end, proved from a lock invariant kept by
    every step and a measure of the steps left), agreement of the two
    containers whenever a single caller is between calls, and what readers
    observe of one call [set_context(c)]: the old or the new context, and
    [c] in both containers once the call returned.  Two traces record
    findings: two concurrent callers can leave the provider with the older
    context for good, and a read can see the new context before the call
    returns and before the provider has it. *)

From S2P Require Import Prelude RwLock.

Abbreviation ctx := nat.

Inductive set_pc : Type := SBegin | SWriting | SStored | SWebWriting.
Inductive get_pc : Type := GBegin | GHolding | GDone (seen : option ctx).
Inductive target : Type := OnCell | OnWeb.

#[global] Instance set_pc_eq_dec : EqDecision set_pc.
Proof. solve_decision. Defined.
#[global] Instance target_eq_dec : EqDecision target.
Proof. solve_decision. Defined.

Inductive thread : Type :=
| TSet (cs : list ctx) (pc : set_pc)   (** the calls still to make; [pc] is in the first *)
| TGet (t : target) (pc : get_pc)
| TPanicked.

(** The two containers: the facade's and the web-resource provider's. *)
Record shared : Type := Shared {
  cell : RwLock (option ctx);
  web : RwLock (option ctx)
}.

Definition container (t : target) (m : shared) : RwLock (option ctx) :=
  match t with OnCell => cell m | OnWeb => web m end.

Definition set_container (t : target) (r : RwLock (option ctx)) (m : shared) : shared :=
  match t with OnCell => Shared r (web m) | OnWeb => Shared (cell m) r end.

(** [guard.replace(x)] and the guard's drop, as in the sequential model. *)
Definition store {T} (r : RwLock (option T)) (x : T) : RwLock (option T) :=
  fst (guard_replace r x).

(** One atomic step of a [set_context] caller. *)
Definition step_set (cs : list ctx) (pc : set_pc) (m : shared) : option (thread * shared) :=
  match cs, pc with
  | [], _ => None
  | c :: _, SBegin =>
      match try_write (cell m) with
      | None => None
      | Some g => if rw_poisoned g then Some (TPanicked, Shared (write_unlock g) (web m))
                  else Some (TSet cs SWriting, Shared g (web m))
      end
  | c :: _, SWriting => Some (TSet cs SStored, Shared (store (cell m) c) (web m))
  | c :: _, SStored =>
      match try_write (web m) with
      | None => None
      | Some g => if rw_poisoned g then Some (TPanicked, Shared (cell m) (write_unlock g))
                  else Some (TSet cs SWebWriting, Shared (cell m) g)
      end
  | c :: rest, SWebWriting => Some (TSet rest SBegin, Shared (cell m) (store (web m) c))
  end.

(** One atomic step of a reader: [read().unwrap()], clone, drop the guard. *)
Definition step_get (t : target) (pc : get_pc) (m : shared) : option (thread * shared) :=
  match pc with
  | GBegin =>
      match try_read (container t m) with
      | None => None
      | Some g => if rw_poisoned g then Some (TPanicked, set_container t (read_unlock g) m)
                  else Some (TGet t GHolding, set_container t g m)
      end
  | GHolding =>
      Some (TGet t (GDone (rw_data (container t m))), set_container t (read_unlock (container t m)) m)
  | GDone _ => None
  end.

Definition step_thread (th : thread) (m : shared) : option (thread * shared) :=
  match th with
  | TSet cs pc => step_set cs pc m
  | TGet t pc => step_get t pc m
  | TPanicked => None
  end.

Definition cstate : Type := shared * list thread.

(** The scheduler runs thread [i] for one step. *)
Definition sched_step (i : nat) (s : cstate) : option cstate :=
  match s.2 !! i with
  | None => None
  | Some th =>
      match step_thread th s.1 with
      | Some (th', m') => Some (m', <[i := th']> s.2)
      | None => None
      end
  end.

Inductive cstep : cstate -> cstate -> Prop :=
| cstep_intro i s s' : sched_step i s = Some s' -> cstep s s'.

Inductive cstar : cstate -> cstate -> Prop :=
| cstar_refl s : cstar s s
| cstar_step s1 s2 s3 : cstep s1 s2 -> cstar s2 s3 -> cstar s1 s3.

Fixpoint run_schedule (sched : list nat) (s : cstate) : option cstate :=
  match sched with
  | [] => Some s
  | i :: rest => match sched_step i s with Some s' => run_schedule rest s' | None => None end
  end.

(** Both containers as [create_empty_plugin_context_container] builds them
    ([RwLock::new(None)]), and threads that have not started. *)
Definition fresh_thread (th : thread) : bool :=
  match th with TSet _ SBegin | TGet _ GBegin => true | _ => false end.

Definition initial_cstate (ts : list thread) : cstate :=
  (Shared (rwlock_new None) (rwlock_new None), ts).

Definition finished (th : thread) : bool :=
  match th with TSet [] _ | TGet _ (GDone _) | TPanicked => true | _ => false end.

(** ** Who holds which guard *)

Definition writes (t : target) (th : thread) : bool :=
  match t, th with
  | OnCell, TSet (_ :: _) SWriting | OnWeb, TSet (_ :: _) SWebWriting => true
  | _, _ => false
  end.

Definition reads (t : target) (th : thread) : bool :=
  match th with TGet t' GHolding => bool_decide (t' = t) | _ => false end.

(** The lock's state is exactly the guards the threads hold, and the lock
    is not poisoned. *)
Definition lock_ok {T} (r : RwLock T) (w rd : nat) : Prop :=
  rw_poisoned r = false /\
  match rw_state r with
  | Unlocked => w = 0 /\ rd = 0
  | ReadLocked n => w = 0 /\ rd = Pos.to_nat n
  | WriteLocked => w = 1 /\ rd = 0
  end.

Definition is_panicked (th : thread) : bool :=
  match th with TPanicked => true | _ => false end.

Definition mutex_ok (s : cstate) : Prop :=
  (forall t, lock_ok (container t s.1) (count_if (writes t) s.2) (count_if (reads t) s.2)) /\
  count_if is_panicked s.2 = 0.

(** ** Facts about one scheduler step *)

Lemma sched_step_inv i s s' :
  sched_step i s = Some s' ->
  exists th th', s.2 !! i = Some th /\ step_thread th s.1 = Some (th', s'.1) /\
                 s'.2 = <[i := th']> s.2.
Proof.
  unfold sched_step. destruct (s.2 !! i) as [th|]; [|done].
  destruct (step_thread th s.1) as [[th' m']|] eqn:E; [|done].
  intros [= <-]. eauto.
Qed.

Lemma run_schedule_cstar sched s s' :
  run_schedule sched s = Some s' -> cstar s s'.
Proof.
  induction sched as [|i sched IH] in s |- *; simpl.
  - intros [= <-]. constructor.
  - destruct (sched_step i s) as [s1|] eqn:E; [|done].
    intros H. eapply cstar_step; [by econstructor|]. by apply IH.
Qed.

Lemma cstar_trans s1 s2 s3 : cstar s1 s2 -> cstar s2 s3 -> cstar s1 s3.
Proof. induction 1; eauto using cstar_step. Qed.

Lemma pos_to_nat_succ n : Pos.to_nat (n + 1) = S (Pos.to_nat n).
Proof. lia. Qed.

Lemma pos_to_nat_pred n : n <> 1%positive -> Pos.to_nat (Pos.pred n) = Pos.to_nat n - 1.
Proof. lia. Qed.

(** The counters before and after a step of thread [th] into [th']. *)
Ltac counters Hl :=
  let go f := pose proof (count_if_insert f _ _ _ _ Hl) in
  go (writes OnCell); go (writes OnWeb); go (reads OnCell); go (reads OnWeb);
  go is_panicked; simpl in *.

Lemma step_thread_mutex th th' m m' W0 W1 R0 R1 P :
  step_thread th m = Some (th', m') ->
  (forall t, lock_ok (container t m) (match t with OnCell => W0 | OnWeb => W1 end + (if writes t th then 1 else 0))
                                     (match t with OnCell => R0 | OnWeb => R1 end + (if reads t th then 1 else 0))) ->
  P + (if is_panicked th then 1 else 0) = 0 ->
  (forall t, lock_ok (container t m') (match t with OnCell => W0 | OnWeb => W1 end + (if writes t th' then 1 else 0))
                                      (match t with OnCell => R0 | OnWeb => R1 end + (if reads t th' then 1 else 0))) /\
  P + (if is_panicked th' then 1 else 0) = 0.
Proof.
  intros Hst Hok Hp. pose proof (Hok OnCell) as [Hp0 H0]. pose proof (Hok OnWeb) as [Hp1 H1].
  destruct m as [[s0 p0 d0] [s1 p1 d1]]; simpl in *; subst p0 p1.
  destruct th as [[|c cs] []|[] []|], s0, s1; simpl in *; try discriminate;
    injection Hst as <- <-; simpl in *;
    (split; [intros []; unfold lock_ok; simpl|lia]);
    repeat case_match; simplify_eq/=; (split; [done|lia]).
Qed.

(** A thread that holds nothing and counts for nothing. *)
Definition idle : thread := TSet [] SBegin.

Lemma cstep_mutex s s' : mutex_ok s -> cstep s s' -> mutex_ok s'.
Proof.
  intros [Hl Hp] Hc. destruct Hc as [i s s' Hs]. destruct (sched_step_inv _ _ _ Hs) as (th & th' & Hi & Hst & Ht).
  unfold mutex_ok. rewrite Ht.
  destruct (count_if_split (writes OnCell) _ _ _ th' idle Hi eq_refl) as [Ew0 Ew0'].
  destruct (count_if_split (writes OnWeb) _ _ _ th' idle Hi eq_refl) as [Ew1 Ew1'].
  destruct (count_if_split (reads OnCell) _ _ _ th' idle Hi eq_refl) as [Er0 Er0'].
  destruct (count_if_split (reads OnWeb) _ _ _ th' idle Hi eq_refl) as [Er1 Er1'].
  destruct (count_if_split is_panicked _ _ _ th' idle Hi eq_refl) as [Ep Ep'].
  pose (rest f := count_if f (<[i := idle]> s.2)).
  destruct (step_thread_mutex th th' s.1 s'.1 (rest (writes OnCell)) (rest (writes OnWeb))
              (rest (reads OnCell)) (rest (reads OnWeb)) (rest is_panicked) Hst) as [Hl' Hp']; subst rest; cbv beta in *.
  - intros []; [rewrite <- Ew0, <- Er0|rewrite <- Ew1, <- Er1]; apply Hl.
  - rewrite <- Ep. exact Hp.
  - split; [intros []; [rewrite Ew0', Er0'|rewrite Ew1', Er1']; apply Hl'|by rewrite Ep'].
Qed.

Lemma cstar_mutex s s' : mutex_ok s -> cstar s s' -> mutex_ok s'.
Proof. intros H Hs. induction Hs; eauto using cstep_mutex. Qed.

Lemma count_if_fresh (f : thread -> bool) ts :
  Forall (fun th => fresh_thread th = true) ts ->
  (forall th, fresh_thread th = true -> f th = false) -> count_if f ts = 0.
Proof. induction 1 as [|th ts Hth _ IH]; simpl; intros Hf; [done|]. rewrite Hf, IH; auto. Qed.

Lemma initial_mutex ts :
  Forall (fun th => fresh_thread th = true) ts -> mutex_ok (initial_cstate ts).
Proof.
  intros Hts. split.
  - intros t. rewrite !(count_if_fresh _ ts Hts); [by destruct t| |];
      intros [[|??] []|? []|]; destruct t; done.
  - apply count_if_fresh; [done|]. by intros [[|??] []|? []|].
Qed.

(** ** The lock invariant holds in every reachable state *)

Lemma set_context_mutual_exclusion_lemma ts s :
  Forall (fun th => fresh_thread th = true) ts -> cstar (initial_cstate ts) s -> mutex_ok s.
Proof. intros Hts Hs. eapply cstar_mutex; [apply initial_mutex, Hts|exact Hs]. Qed.

(** ** Progress *)

(** The steps a thread has still to take. *)
Definition work (th : thread) : nat :=
  match th with
  | TSet cs pc => 4 * length cs - match pc with SBegin => 0 | SWriting => 1 | SStored => 2 | SWebWriting => 3 end
  | TGet _ GBegin => 2
  | TGet _ GHolding => 1
  | _ => 0
  end.

Lemma step_thread_work th m th' m' :
  step_thread th m = Some (th', m') -> work th' < work th.
Proof.
  destruct th as [[|c cs] []|t []|]; simpl; try discriminate;
    repeat case_match; intros; simplify_eq/=; lia.
Qed.

Lemma cstep_work s s' : cstep s s' -> sum_by work s'.2 < sum_by work s.2.
Proof.
  intros [i ? ? Hs]. destruct (sched_step_inv _ _ _ Hs) as (th & th' & Hi & Hst & ->).
  pose proof (sum_by_insert work _ _ _ th' Hi). pose proof (step_thread_work _ _ _ _ Hst). lia.
Qed.

Definition holds (th : thread) : bool :=
  writes OnCell th || writes OnWeb th || reads OnCell th || reads OnWeb th.

Lemma holder_steps th m : holds th = true -> is_Some (step_thread th m).
Proof. destruct th as [[|c cs] []|[] []|]; simpl; by eauto. Qed.

Lemma free_steps th m :
  finished th = false -> rw_state (cell m) = Unlocked -> rw_state (web m) = Unlocked ->
  is_Some (step_thread th m).
Proof.
  destruct m as [[s0 p0 d0] [s1 p1 d1]]; simpl; intros Hf -> ->.
  destruct th as [[|c cs] []|[] []|], p0, p1; simpl in *; by eauto.
Qed.

Lemma step_of_thread s i th :
  s.2 !! i = Some th -> is_Some (step_thread th s.1) -> exists s', cstep s s'.
Proof.
  intros Hi [[th' m'] Hst]. exists (m', <[i := th']> s.2).
  econstructor. unfold sched_step. by rewrite Hi, Hst.
Qed.

Lemma lock_ok_idle {T} (r : RwLock T) : lock_ok r 0 0 -> rw_state r = Unlocked.
Proof. intros [_ H]. destruct (rw_state r); [done|lia..]. Qed.

(** No deadlock: a state where the locks are consistent has a step unless
    every thread has finished. *)
Lemma mutex_progress s :
  mutex_ok s -> Forall (fun th => finished th = true) s.2 \/ exists s', cstep s s'.
Proof.
  intros [Hl _].
  destruct (decide (Exists (fun th => holds th = true) s.2)) as [Hh|Hh].
  { right. apply Exists_exists in Hh as (th & Hin & Hth).
    apply list_elem_of_lookup in Hin as [i Hi]. eapply step_of_thread; eauto using holder_steps. }
  destruct (decide (Forall (fun th => finished th = true) s.2)) as [Hf|Hf]; [by left|right].
  apply not_Forall_Exists, Exists_exists in Hf as (th & Hin & Hth); [|apply _].
  apply list_elem_of_lookup in Hin as [i Hi].
  assert (Hz : forall f : thread -> bool, (forall th, holds th = false -> f th = false) ->
            count_if f s.2 = 0).
  { intros f Hf'. apply count_if_zero. intros j x Hj. apply Hf'.
    apply not_true_is_false. intros Hx. apply Hh, Exists_exists.
    exists x. split; [eapply list_elem_of_lookup_2; eauto|done]. }
  eapply step_of_thread; [exact Hi|]. apply free_steps; [by apply not_true_is_false|..].
  - pose proof (Hl OnCell) as Hc. simpl in Hc. rewrite !Hz in Hc; [by apply lock_ok_idle in Hc|..];
      intros th'; unfold holds; destruct (writes OnCell th'), (reads OnCell th'); simpl;
      rewrite ?orb_true_r; done.
  - pose proof (Hl OnWeb) as Hc. simpl in Hc. rewrite !Hz in Hc; [by apply lock_ok_idle in Hc|..];
      intros th'; unfold holds; destruct (writes OnWeb th'), (reads OnWeb th'); simpl;
      rewrite ?orb_true_r; done.
Qed.

Lemma mutex_no_panic s i th : mutex_ok s -> s.2 !! i = Some th -> is_panicked th = false.
Proof.
  intros [_ Hp] Hi. apply not_true_is_false. intros Ht.
  pose proof (count_if_pos _ _ _ _ Hi Ht). lia.
Qed.

(** C8: no deadlock and no panic: from every reachable state the
    scheduler can run every caller and reader to its end, and none of
    them panics on a poisoned lock. *)
Theorem set_context_calls_complete ts s :
  Forall (fun th => fresh_thread th = true) ts ->
  cstar (initial_cstate ts) s ->
  exists s', cstar s s' /\
             Forall (fun th => finished th = true /\ is_panicked th = false) s'.2.
Proof.
  intros Hts Hs. pose proof (set_context_mutual_exclusion_lemma ts s Hts Hs) as Hm. clear Hs.
  remember (sum_by work s.2) as n eqn:En. revert s Hm En.
  induction n as [n IH] using lt_wf_ind. intros s Hm ->.
  destruct (mutex_progress s Hm) as [Hf|[s' Hst]].
  - exists s. split; [constructor|]. rewrite Forall_lookup in Hf |- *. intros i th Hi.
    split; [by eapply Hf|by eapply mutex_no_panic].
  - destruct (IH (sum_by work s'.2) (cstep_work _ _ Hst) s') as (s'' & Hs'' & Hf);
      eauto using cstep_mutex.
    exists s''. split; [eapply cstar_step; eauto|done].
Qed.

(** ** Agreement of the two containers *)

Definition is_setter (th : thread) : bool :=
  match th with TSet _ _ => true | _ => false end.

(** What a [set_context] caller knows of the two containers at each of its
    program points. *)
Definition agree_ok (s : cstate) : Prop :=
  forall i cs pc, s.2 !! i = Some (TSet cs pc) ->
    match pc with
    | SBegin | SWriting => rw_data (cell s.1) = rw_data (web s.1)
    | SStored | SWebWriting => rw_data (cell s.1) = head cs
    end.

Lemma step_get_data t pc m th' m' :
  step_get t pc m = Some (th', m') ->
  rw_data (cell m') = rw_data (cell m) /\ rw_data (web m') = rw_data (web m) /\ is_setter th' = false.
Proof.
  destruct m as [[s0 p0 d0] [s1 p1 d1]], t, pc; simpl; unfold try_read;
    repeat case_match; intros; simplify_eq/=; done.
Qed.

Lemma step_thread_setter th m th' m' :
  step_thread th m = Some (th', m') -> is_setter th' = true -> is_setter th = true.
Proof. destruct th as [|t pc|]; simpl; [done| |done]. intros H. by apply step_get_data in H as (_ & _ & ->). Qed.

Lemma step_set_agree cs pc m th' m' :
  step_set cs pc m = Some (th', m') ->
  match pc with
  | SBegin | SWriting => rw_data (cell m) = rw_data (web m)
  | SStored | SWebWriting => rw_data (cell m) = head cs
  end ->
  match th' with
  | TSet cs' SBegin | TSet cs' SWriting => rw_data (cell m') = rw_data (web m')
  | TSet cs' _ => rw_data (cell m') = head cs'
  | _ => True
  end.
Proof.
  destruct m as [[s0 p0 d0] [s1 p1 d1]], cs as [|c cs], pc; simpl; try discriminate;
    unfold try_write; repeat case_match; intros; simplify_eq/=; done.
Qed.

Lemma cstep_agree s s' :
  count_if is_setter s.2 <= 1 -> agree_ok s -> cstep s s' ->
  count_if is_setter s'.2 <= 1 /\ agree_ok s'.
Proof.
  intros Hn Ha Hc. destruct Hc as [i s s' Hs].
  destruct (sched_step_inv _ _ _ Hs) as (th & th' & Hi & Hst & Ht).
  pose proof (count_if_insert is_setter _ _ _ th' Hi) as Hcnt.
  pose proof (step_thread_setter _ _ _ _ Hst) as Hset.
  unfold agree_ok. rewrite Ht. split.
  { destruct (is_setter th'), (is_setter th); lia. }
  intros j cs pc Hj. apply list_lookup_insert_Some in Hj as [(<- & Heq & _)|(Hne & Hj)]; [subst th'|].
  - destruct th as [cs0 pc0|t pc0|]; simpl in Hst; [|by apply step_get_data in Hst as (_&_&?)|done].
    pose proof (step_set_agree _ _ _ _ _ Hst (Ha i cs0 pc0 Hi)) as H. by destruct pc.
  - specialize (Ha j cs pc Hj). destruct th as [cs0 pc0|t pc0|]; simpl in Hst; [|..|done].
    + pose proof (count_if_two is_setter _ _ _ _ _ Hi Hj Hne eq_refl eq_refl). lia.
    + apply step_get_data in Hst as (Hc & Hw & _). rewrite Hc, Hw. done.
Qed.

Lemma cstar_agree s s' :
  count_if is_setter s.2 <= 1 -> agree_ok s -> cstar s s' -> agree_ok s'.
Proof.
  intros Hn Ha Hs. induction Hs as [|s1 s2 s3 Hst _ IH]; [done|].
  destruct (cstep_agree _ _ Hn Ha Hst). by apply IH.
Qed.

Lemma initial_agree ts :
  Forall (fun th => fresh_thread th = true) ts -> agree_ok (initial_cstate ts).
Proof.
  intros Hts i cs pc Hi. rewrite Forall_lookup in Hts. specialize (Hts i _ Hi).
  by destruct pc.
Qed.

(** C9: with a single [set_context] caller (making any number of calls
    one after the other) and any readers, whenever the caller is between
    two calls the facade's container and the web-resource provider's hold
    the same context. *)
Theorem single_caller_agreement ts s i cs :
  Forall (fun th => fresh_thread th = true) ts ->
  count_if is_setter ts <= 1 ->
  cstar (initial_cstate ts) s ->
  s.2 !! i = Some (TSet cs SBegin) ->
  rw_data (cell s.1) = rw_data (web s.1).
Proof.
  intros Hts Hn Hs Hi. exact (cstar_agree (initial_cstate ts) s Hn (initial_agree ts Hts) Hs i cs SBegin Hi).
Qed.

(** A trace of the divergence finding: two concurrent callers [set_context(1)] and [set_context(2)] can
    both finish with the facade holding context 2 and the web-resource
    provider holding context 1: each container is updated under its own
    lock, and the second lock is taken after the first is released
    (src/src/plugin.rs lines 81-82). *)
Theorem concurrent_callers_diverge :
  exists s, cstar (initial_cstate [TSet [1] SBegin; TSet [2] SBegin]) s /\
    Forall (fun th => finished th = true) s.2 /\
    rw_data (cell s.1) = Some 2 /\ rw_data (web s.1) = Some 1.
Proof.
  exists (Shared (MkRwLock Unlocked false (Some 2)) (MkRwLock Unlocked false (Some 1)),
          [TSet [] SBegin; TSet [] SBegin]).
  split; [|by repeat constructor].
  apply (run_schedule_cstar [0; 0; 1; 1; 1; 1; 0; 0]). vm_compute. reflexivity.
Qed.

(** ** What readers observe *)

Definition is_reader (th : thread) : Prop := exists t, th = TGet t GBegin.

(** The state of a run of one call [set_context(c)] and readers. *)
Definition single_set_ok (c : ctx) (s : cstate) : Prop :=
  match s.2 !! 0 with
  | Some (TSet [c'] (SBegin | SWriting)) =>
      c' = c /\ rw_data (cell s.1) = None /\ rw_data (web s.1) = None
  | Some (TSet [c'] (SStored | SWebWriting)) =>
      c' = c /\ rw_data (cell s.1) = Some c /\ rw_data (web s.1) = None
  | Some (TSet [] _) => rw_data (cell s.1) = Some c /\ rw_data (web s.1) = Some c
  | Some TPanicked =>
      (rw_data (cell s.1) = None \/ rw_data (cell s.1) = Some c) /\
      (rw_data (web s.1) = None \/ rw_data (web s.1) = Some c)
  | _ => False
  end /\
  (forall j th, j <> 0 -> s.2 !! j = Some th -> is_setter th = false) /\
  (forall j t v, s.2 !! j = Some (TGet t (GDone v)) -> v = None \/ v = Some c).

Lemma single_set_data c s t :
  single_set_ok c s -> rw_data (container t s.1) = None \/ rw_data (container t s.1) = Some c.
Proof.
  intros [H0 _]. destruct (s.2 !! 0); [|done]. repeat case_match; try done;
    destruct t; simpl; intuition congruence.
Qed.

Lemma step_get_seen t pc m th' m' :
  step_get t pc m = Some (th', m') ->
  forall t' v, th' = TGet t' (GDone v) -> v = rw_data (container t' m).
Proof.
  destruct m as [[s0 p0 d0] [s1 p1 d1]], t, pc; simpl; unfold try_read;
    repeat case_match; intros; simplify_eq/=; done.
Qed.

Lemma cstep_single_set c s s' : single_set_ok c s -> cstep s s' -> single_set_ok c s'.
Proof.
  intros Hok Hc. pose proof (fun t => single_set_data c s t Hok) as Hd.
  destruct Hok as (H0 & Hr & Hseen).
  destruct Hc as [i s s' Hs]. destruct (sched_step_inv _ _ _ Hs) as (th & th' & Hi & Hst & Ht).
  destruct s' as [m' ts']. simpl in Hst, Ht. subst ts'. clear Hs.
  unfold single_set_ok. cbn [fst snd].
  destruct (decide (i = 0)) as [->|Hne].
  - rewrite list_lookup_insert_eq by (eapply lookup_lt_Some; eauto). rewrite Hi in H0.
    split_and!.
    + destruct s as [[[s0 p0 d0] [s1 p1 d1]] ts]; simpl in *.
      destruct th as [[|c0 [|c1 cs]] []|t pc|]; simpl in Hst; try done;
        unfold try_write in Hst; repeat case_match; simplify_eq/=; intuition congruence.
    + intros j th1 Hj. rewrite list_lookup_insert_ne by done. by apply Hr.
    + intros j t v. rewrite list_lookup_insert_Some. intros [(<- & ? & _)|(? & ?)]; [|by eapply Hseen].
      subst th'. destruct th as [[|??] []|? []|]; simpl in Hst; try done;
        unfold try_write in Hst; repeat case_match; simplify_eq/=.
  - assert (Hg : exists t pc, th = TGet t pc).
    { destruct th as [cs pc|t pc|]; [|eauto|done]. by specialize (Hr i _ Hne Hi). }
    destruct Hg as (t & pc & ->). simpl in Hst.
    destruct (step_get_data _ _ _ _ _ Hst) as (Ec & Ew & Hs').
    split_and!.
    + rewrite list_lookup_insert_ne by done. rewrite Ec, Ew. done.
    + intros j th1 Hj. rewrite list_lookup_insert_Some.
      intros [(<- & <- & _)|(_ & ?)]; [done|by eapply Hr].
    + intros j t' v. rewrite list_lookup_insert_Some.
      intros [(<- & Heq & _)|(? & ?)]; [|by eapply Hseen].
      rewrite (step_get_seen _ _ _ _ _ Hst t' v Heq). apply Hd.
Qed.

Lemma initial_single_set c rs :
  Forall is_reader rs -> single_set_ok c (initial_cstate (TSet [c] SBegin :: rs)).
Proof.
  intros Hrs. split_and!; [done| |].
  - intros [|j] th Hj; [done|]. simpl. intros Hth.
    rewrite Forall_lookup in Hrs. by destruct (Hrs _ _ Hth) as [t ->].
  - intros [|j] t v; simpl; [done|]. intros Hth.
    rewrite Forall_lookup in Hrs. by destruct (Hrs _ _ Hth).
Qed.

(** C12: one call [set_context(c)] among any number of readers of either
    container: every read returns [None] or [c] (the old or the new
    context, never anything else), and once the call has returned both
    containers hold [c]. *)
Theorem single_set_observations c rs s :
  Forall is_reader rs ->
  cstar (initial_cstate (TSet [c] SBegin :: rs)) s ->
  (forall j t v, s.2 !! j = Some (TGet t (GDone v)) -> v = None \/ v = Some c) /\
  (forall pc, s.2 !! 0 = Some (TSet [] pc) ->
     rw_data (cell s.1) = Some c /\ rw_data (web s.1) = Some c).
Proof.
  intros Hrs Hs. assert (Hok : single_set_ok c s).
  { clear - Hrs Hs. remember (initial_cstate _) as s0 eqn:E.
    assert (H0 : single_set_ok c s0) by (subst; by apply initial_single_set).
    clear E. induction Hs; eauto using cstep_single_set. }
  destruct Hok as (H0 & _ & Hseen). split; [done|]. intros pc Hpc. by rewrite Hpc in H0.
Qed.

(** A trace of the early-read finding: a read can return the new context before [set_context] has
    returned and before the web-resource provider has it: with
    [set_context(1)] stopped between lines 81 and 82, a reader of the
    facade's container returns context 1 while a reader of the provider's
    container returns nothing. *)
Theorem early_read_before_forwarding :
  exists s, cstar (initial_cstate [TSet [1] SBegin; TGet OnCell GBegin; TGet OnWeb GBegin]) s /\
    s.2 !! 0 = Some (TSet [1] SStored) /\
    s.2 !! 1 = Some (TGet OnCell (GDone (Some 1))) /\
    s.2 !! 2 = Some (TGet OnWeb (GDone None)).
Proof.
  exists (Shared (MkRwLock Unlocked false (Some 1)) (MkRwLock Unlocked false None),
          [TSet [1] SStored; TGet OnCell (GDone (Some 1)); TGet OnWeb (GDone None)]).
  split; [|done].
  apply (run_schedule_cstar [0; 0; 1; 1; 2; 2]). vm_compute. reflexivity.
Qed.

(** ** Witnesses *)

Definition sample_threads : list thread := [TSet [1; 2] SBegin; TGet OnCell GBegin; TGet OnWeb GBegin].

Lemma set_context_calls_complete_witness :
  exists s', cstar (initial_cstate sample_threads) s' /\
             Forall (fun th => finished th = true /\ is_panicked th = false) s'.2.
Proof.
  apply (set_context_calls_complete sample_threads (initial_cstate sample_threads));
    [by repeat constructor|constructor].
Defined.

Lemma single_caller_agreement_witness :
  exists s, cstar (initial_cstate sample_threads) s /\
    s.2 !! 0 = Some (TSet [2] SBegin) /\ rw_data (cell s.1) = rw_data (web s.1).
Proof.
  assert (Hr : run_schedule [0; 0; 1; 0; 1; 0] (initial_cstate sample_threads) =
               Some (Shared (MkRwLock Unlocked false (Some 1)) (MkRwLock Unlocked false (Some 1)),
                     [TSet [2] SBegin; TGet OnCell (GDone (Some 1)); TGet OnWeb GBegin])).
  { vm_compute. reflexivity. }
  eexists. split; [exact (run_schedule_cstar _ _ _ Hr)|]. split; [reflexivity|].
  apply (single_caller_agreement sample_threads _ 0 [2]).
  - by repeat constructor.
  - vm_compute. lia.
  - exact (run_schedule_cstar _ _ _ Hr).
  - reflexivity.
Defined.

Definition one_set_threads : list thread := [TSet [1] SBegin; TGet OnCell GBegin; TGet OnWeb GBegin].

Lemma single_set_observations_witness :
  exists s, cstar (initial_cstate one_set_threads) s /\
    (forall j t v, s.2 !! j = Some (TGet t (GDone v)) -> v = None \/ v = Some 1) /\
    (forall pc, s.2 !! 0 = Some (TSet [] pc) ->
       rw_data (cell s.1) = Some 1 /\ rw_data (web s.1) = Some 1).
Proof.
  assert (Hr : run_schedule [0; 0; 1; 1; 0; 0; 2; 2] (initial_cstate one_set_threads) =
               Some (Shared (MkRwLock Unlocked false (Some 1)) (MkRwLock Unlocked false (Some 1)),
                     [TSet [] SBegin; TGet OnCell (GDone (Some 1)); TGet OnWeb (GDone (Some 1))])).
  { vm_compute. reflexivity. }
  eexists. split; [exact (run_schedule_cstar _ _ _ Hr)|].
  apply (single_set_observations 1 [TGet OnCell GBegin; TGet OnWeb GBegin]).
  - repeat constructor; eexists; reflexivity.
  - exact (run_schedule_cstar _ _ _ Hr).
Defined.

