(* ===== verification/Refinement.v ===== *)
(** * Refinement: the facade implements the specification's abstract facade

    The specification (sections 3 and 4) describes the facade abstractly:
    an execution-context cell holding an optional context, the context the
    web-resource provider was last handed, a fixed table of capabilities
    (the injected provider for each wired role, a specific absence error
    for the others), constant metadata and hooks that always succeed.
    [afacade] is that state, [spec_step] its transitions with the answers
    the specification promises.

    [abs_world] reads the abstract state off a concrete host world: the
    identities of the contexts the facade's container and the web-resource
    provider's container point to in the [Arc] heap, and the lifecycle
    state.  [host_refines_spec] is a forward simulation: every step the host
    takes from a reachable world is matched by the abstract step of the
    corresponding abstract action, with the same answer.  The steps that
    only concern the host (creating and dropping its own handles) are
    stuttering steps: they never change what the facade stores, even when
    the host drops its last handle to the context the facade holds, since
    the containers' handles keep that context alive. *)

From S2P Require Import Prelude Arc RwLock Query Plugin Facade Lifecycle.

(** ** The abstract facade *)

Record afacade : Type := AFacade {
  a_cell : option nat;       (** the context in the execution-context cell *)
  a_web : option nat;        (** the context the web-resource provider holds *)
  a_lc : lifecycle_state
}.

Inductive spec_action : Type :=
| SHook (k : hook)
| SSet (id : nat)
| SQuery (c : capability)
| SMetadata
| SHost          (** a step of the host alone *)
| SRelease.      (** the host lets the facade go *)

(** The capability table fixed at construction. *)
Definition spec_query (p0 : BinaryPluginImpl) (c : capability) : result loc PluginError :=
  match wired_slot c with
  | Some slot => Ok (slot p0)
  | None => Err (absence_error c)
  end.

(** One abstract step and the facade's answer, if the facade answers. *)
Definition spec_step (env : CargoEnv) (p0 : BinaryPluginImpl) (a : spec_action)
    (s : option afacade) : option afacade * option observation :=
  match s, a with
  | Some f, SHook k =>
      (Some (AFacade (a_cell f) (a_web f) (hook_target k (a_lc f) true)), Some (OUnit (Ok tt)))
  | Some f, SSet id => (Some (AFacade (Some id) (Some id) (a_lc f)), Some (OUnit (Ok tt)))
  | Some f, SQuery c => (Some f, Some (OHandle (spec_query p0 c)))
  | Some f, SMetadata => (Some f, Some (OMeta (Ok (env_metadata env))))
  | Some _, SRelease => (None, None)
  | _, _ => (s, None)
  end.

(** ** Abstraction of a host world *)

(** The identity of the host context at [l]. *)
Definition ctx_id (h : pheap) (l : loc) : option nat :=
  match h !! l with
  | Some (Obj (PHostPluginContext id) _) => Some id
  | _ => None
  end.

Definition facade_view (h : pheap) (self : loc) : option (option nat * option nat) :=
  match h !! self with
  | Some (Obj (PBinaryPluginImpl p) _) =>
      match h !! web_resource_provider p with
      | Some (Obj (PBinaryWebResourceProviderImpl wp) _) =>
          Some (rw_data (context p) ≫= ctx_id h, rw_data (wrp_context wp) ≫= ctx_id h)
      | _ => None
      end
  | _ => None
  end.

Definition abs_world (w : world) : option afacade :=
  match w_plugin w with
  | Some self =>
      match facade_view (w_heap w) self with
      | Some (c, wc) => Some (AFacade c wc (w_lc w))
      | None => None
      end
  | None => None
  end.

Definition abs_action (h : pheap) (a : host_action) : spec_action :=
  match a with
  | ACall k => SHook k
  | ASetContext c => match ctx_id h c with Some id => SSet id | None => SHost end
  | AQuery c => SQuery c
  | AMetadata => SMetadata
  | ANewContext _ | ADrop _ => SHost
  | ADropPlugin => SRelease
  end.

(** The concrete answer is the abstract one whenever the facade answers. *)
Definition obs_matches (ob : option observation) (o : observation) : Prop :=
  match ob with Some o' => o = o' | None => True end.

(** ** The view of a well-formed facade *)

Definition is_ctx_payload (v : payload) : Prop :=
  match v with PHostPluginContext _ => True | _ => False end.

Lemma ctx_id_payload h l id : has_payload h l (PHostPluginContext id) -> ctx_id h l = Some id.
Proof. intros [n Hl]. unfold ctx_id. by rewrite Hl. Qed.

Lemma facade_view_ok h self p wp :
  facade_ok h self p wp ->
  facade_view h self =
    Some (rw_data (context p) ≫= ctx_id h, rw_data (wrp_context wp) ≫= ctx_id h).
Proof.
  intros Hf. destruct (fo_self _ _ _ _ Hf) as [n Hs]. destruct (fo_web _ _ _ _ Hf) as [m Hw].
  unfold facade_view. by rewrite Hs, Hw.
Qed.

(** The contexts a container points to keep their identity across a frame. *)
Lemma container_ctx_kept Q h h' (c : PluginContextContainer) :
  vals_kept Q h h' -> (forall l id, Q l (PHostPluginContext id)) -> container_ok h' c ->
  rw_data c ≫= ctx_id h' = rw_data c ≫= ctx_id h.
Proof.
  intros Hk HQ [_ Hc]. destruct (rw_data c) as [x|]; [|done]. simpl.
  destruct (Hc x eq_refl) as [id Hid].
  rewrite (ctx_id_payload _ _ _ Hid). symmetry. by eapply ctx_id_payload, vals_kept_payload.
Qed.

Lemma payload_unique (h : pheap) l v v' : has_payload h l v -> has_payload h l v' -> v = v'.
Proof. intros [n Hn] [m Hm]. rewrite Hn in Hm. by simplify_eq. Qed.

(** A step that keeps every payload keeps the view. *)
Lemma facade_view_kept h h' self p wp p' wp' :
  vals_kept (fun _ _ => True) h h' -> facade_ok h self p wp -> facade_ok h' self p' wp' ->
  facade_view h' self = facade_view h self.
Proof.
  intros Hk Hf Hf'.
  assert (p' = p) as ->.
  { pose proof (vals_kept_payload _ _ _ _ _ Hk I (fo_self _ _ _ _ Hf')) as Hs.
    apply (payload_unique _ _ _ _ (fo_self _ _ _ _ Hf)) in Hs. by simplify_eq. }
  assert (wp' = wp) as ->.
  { pose proof (vals_kept_payload _ _ _ _ _ Hk I (fo_web _ _ _ _ Hf')) as Hs.
    apply (payload_unique _ _ _ _ (fo_web _ _ _ _ Hf)) in Hs. by simplify_eq. }
  rewrite (facade_view_ok _ _ _ _ Hf), (facade_view_ok _ _ _ _ Hf').
  erewrite (container_ctx_kept _ h h' (context p)), (container_ctx_kept _ h h' (wrp_context wp));
    eauto using fo_context, fo_web_context; done.
Qed.

(** Allocating a fresh object keeps the view. *)
Lemma facade_view_fresh h self p wp l o :
  facade_ok h self p wp -> h !! l = None -> facade_view (<[l := o]> h) self = facade_view h self.
Proof.
  intros Hf Hl. rewrite (facade_view_ok _ _ _ _ Hf).
  rewrite (facade_view_ok _ _ _ _ (facade_ok_fresh _ _ _ _ _ o Hf Hl)).
  assert (Hctx : forall c, container_ok h c -> rw_data c ≫= ctx_id (<[l := o]> h) = rw_data c ≫= ctx_id h).
  { intros c [_ Hc]. destruct (rw_data c) as [x|]; [|done]. simpl.
    destruct (Hc x eq_refl) as [id [n Hx]]. unfold ctx_id.
    rewrite lookup_insert_ne by congruence. done. }
  rewrite !Hctx; eauto using fo_context, fo_web_context.
Qed.

(** ** Frames of the facade's methods *)

Lemma load_plugin_frame Q self : preserves (vals_kept Q) (load_plugin self).
Proof.
  apply preserves_read; [apply _|]. intros h p h'. unfold load_plugin.
  by repeat case_match; intros; simplify_eq.
Qed.

Lemma load_web_frame Q l : preserves (vals_kept Q) (load_web_resource_provider l).
Proof.
  apply preserves_read; [apply _|]. intros h v h'. unfold load_web_resource_provider.
  by repeat case_match; intros; simplify_eq.
Qed.

Lemma query_arc_frame Q l r : preserves (vals_kept Q) (query_arc l r).
Proof. apply preserves_read; [apply _|]. intros h q h' Hq. by apply query_arc_inv in Hq as [-> _]. Qed.

#[export] Hint Resolve load_plugin_frame load_web_frame query_arc_frame : frame.

Ltac frame :=
  repeat (intros; first
    [ apply preserves_bind | apply preserves_ret
    | apply heap_write_vals; first [by intros ? | intros [? ?]; congruence] | apply _
    | solve [eauto with frame] | case_match ]).

(** [set_context] writes only the facade and the web-resource provider:
    every host context keeps its payload. *)
Lemma set_context_frame self c : preserves (vals_kept (fun _ v => is_ctx_payload v)) (set_context self c).
Proof. unfold set_context, web_resource_provider_set_context. frame. Qed.

(** A getter only clones and drops: every payload is kept. *)
Lemma get_capability_frame env c self :
  preserves (vals_kept (fun _ _ => True)) (@get_capability pheap (binary_plugin env) c self).
Proof. destruct c; simpl; unfold get_wired; frame. Qed.

(** ** The simulation *)

Section Simulation.
Context (env : CargoEnv) (p0 : BinaryPluginImpl).

(** The concrete step from [w] by [a] to [w'] answering [o] is matched by
    the abstract step of [abs_action a] from [abs_world w]. *)
Definition refines_step (w : world) (a : host_action) (w' : world) (o : observation) : Prop :=
  abs_world w' = fst (spec_step env p0 (abs_action (w_heap w) a) (abs_world w)) /\
  obs_matches (snd (spec_step env p0 (abs_action (w_heap w) a) (abs_world w))) o.

Lemma world_ok_view h E self lc :
  world_ok p0 (MkWorld h E (Some self) lc) ->
  exists p wp, facade_ok h self p wp /\ same_slots p p0 /\
    abs_world (MkWorld h E (Some self) lc) =
      Some (AFacade (rw_data (context p) ≫= ctx_id h) (rw_data (wrp_context wp) ≫= ctx_id h) lc).
Proof.
  intros [_ Hf]. cbn [w_plugin w_heap] in Hf.
  destruct (Hf self eq_refl) as (p & wp & Hfo & Hsl). exists p, wp.
  split_and!; [done|done|]. unfold abs_world. cbn [w_plugin w_heap w_lc].
  by rewrite (facade_view_ok _ _ _ _ Hfo).
Qed.

(** A step that keeps every payload, the facade and the lifecycle state
    keeps the abstract state. *)
Lemma abs_world_kept h E self lc h' E' :
  world_ok p0 (MkWorld h E (Some self) lc) -> world_ok p0 (MkWorld h' E' (Some self) lc) ->
  vals_kept (fun _ _ => True) h h' ->
  abs_world (MkWorld h' E' (Some self) lc) = abs_world (MkWorld h E (Some self) lc).
Proof.
  intros Hok Hok' Hk. destruct (world_ok_view _ _ _ _ Hok) as (p & wp & Hf & _).
  destruct (world_ok_view _ _ _ _ Hok') as (p' & wp' & Hf' & _).
  unfold abs_world. cbn [w_plugin w_heap w_lc]. by rewrite (facade_view_kept h h' self p wp p' wp').
Qed.

Lemma refine_set_context h E self lc c w' o :
  world_ok p0 (MkWorld h E (Some self) lc) ->
  action_enabled (ASetContext c) (MkWorld h E (Some self) lc) = true ->
  host_exec env (ASetContext c) (MkWorld h E (Some self) lc) = Some (w', o) ->
  refines_step (MkWorld h E (Some self) lc) (ASetContext c) w' o.
Proof.
  intros Hok Hen Hex. destruct (world_ok_view _ _ _ _ Hok) as (p1 & wp1 & Hfo1 & _ & Habs).
  destruct (host_set_context_inv env p0 _ _ _ _ _ _ _ Hok Hen Hex)
    as (p & wp & h' & Hfo & _ & [id Hid] & Hr & _ & -> & -> & Hf').
  unfold refines_step. rewrite Habs. simpl.
  rewrite (ctx_id_payload _ _ _ Hid). simpl. split; [|done].
  unfold abs_world. cbn [w_plugin w_heap w_lc].
  rewrite (facade_view_ok _ _ _ _ Hf'). simpl.
  destruct (fo_context _ _ _ _ Hf') as [_ Hcx]. destruct (Hcx c eq_refl) as [id' Hid'].
  pose proof (vals_kept_payload _ _ _ _ (PHostPluginContext id') (set_context_frame self c h _ h' Hr) I Hid') as Hh.
  pose proof (payload_unique _ _ _ _ Hid Hh) as Heq. simplify_eq. by rewrite (ctx_id_payload _ _ _ Hid').
Qed.

Lemma refine_query h E self lc c w' o :
  world_ok p0 (MkWorld h E (Some self) lc) -> world_ok p0 w' ->
  host_exec env (AQuery c) (MkWorld h E (Some self) lc) = Some (w', o) ->
  refines_step (MkWorld h E (Some self) lc) (AQuery c) w' o.
Proof.
  intros Hok Hok' Hex. destruct (world_ok_view _ _ _ _ Hok) as (p & wp & Hfo & Hsl & Habs).
  cbn [host_exec w_plugin w_heap] in Hex.
  destruct (@get_capability pheap (binary_plugin env) c self h) as [[r h']|] eqn:Hq; [|done].
  injection Hex as <- <-. unfold refines_step. rewrite Habs. simpl. split.
  - rewrite <- Habs. apply abs_world_kept; [done|done|]. by eapply get_capability_frame.
  - f_equal. unfold spec_query. destruct (wired_slot c) as [slot|] eqn:Hw.
    + rewrite (get_capability_wired _ _ _ Hw) in Hq.
      destruct (wired_slot_live _ _ _ _ _ _ Hfo Hw) as [os Hos].
      destruct (decide (MAX_REFCOUNT < obj_strong os)%Z).
      { by rewrite (get_wired_abort _ _ _ _ _ p os) in Hq; eauto using fo_self. }
      rewrite (get_wired_Ok _ _ _ _ _ p os) in Hq; eauto using fo_self, wired_slot_registered; [|lia].
      injection Hq as <- _. f_equal. eapply same_slots_wired; eauto.
    + rewrite get_capability_unwired in Hq by done. by injection Hq as <- _.
Qed.

Lemma refine_host_exec w a w' o :
  world_ok p0 w -> action_enabled a w = true -> host_exec env a w = Some (w', o) ->
  refines_step w a w' o.
Proof.
  intros Hok Hen Hex.
  pose proof (host_step_ok env p0 w w' Hok (host_step_intro env a w w' o Hen Hex)) as Hok'.
  destruct w as [h E [self|] lc].
  2: { destruct a; try discriminate; cbn [host_exec w_heap w_plugin] in Hex;
       repeat case_match; simplify_eq; done. }
  destruct a as [k|c|c| |id|l|].
  2: by eapply refine_set_context.
  2: by eapply refine_query.
  all: destruct (world_ok_view _ _ _ _ Hok) as (p & wp & Hfo & _ & Habs);
    unfold refines_step; rewrite Habs; cbn [host_exec w_heap w_plugin w_lc] in Hex.
  - rewrite hook_call_binary in Hex. injection Hex as <- <-. split; [|done].
    unfold abs_world. cbn [w_plugin w_heap w_lc]. by rewrite (facade_view_ok _ _ _ _ Hfo).
  - injection Hex as <- <-. by split.
  - unfold new_context, arc_new in Hex. injection Hex as <- <-. split; [|done].
    unfold abs_world, with_heap. cbn [w_plugin w_heap w_lc].
    rewrite facade_view_fresh with (p := p) (wp := wp); [|done|apply not_elem_of_dom, is_fresh].
    by rewrite (facade_view_ok _ _ _ _ Hfo).
  - destruct (arc_drop l h) as [[u h']|] eqn:Hd; [|done]. injection Hex as <- <-.
    split; [|done]. cbn [spec_step abs_action fst]. rewrite <- Habs. unfold with_heap in *. cbn [w_plugin w_lc] in *.
    apply abs_world_kept; [done|done|]. by eapply arc_drop_vals.
  - destruct (arc_drop self h) as [[u h']|]; [|done]. by injection Hex as <- <-.
Qed.

End Simulation.

Lemma abs_initial h self :
  construct ∅ = Some (self, h) -> abs_world (initial_world h self) = Some (AFacade None None Constructed).
Proof.
  intros Hc. destruct (construct_ok ∅ ∅ rc_ok_empty) as (s & h' & p & wp & Hc' & _ & Hf & Hp & Hw).
  rewrite Hc in Hc'. injection Hc' as <- <-. unfold abs_world, initial_world. cbn [w_plugin w_heap w_lc].
  rewrite (facade_view_ok _ _ _ _ Hf), Hp, Hw. done.
Qed.

(** ** Theorems *)

(** C10: forward simulation of the specification's abstract facade.  A
    freshly constructed facade is abstractly an empty cell, a provider
    without context, in state [Constructed]; and every step the host takes
    from a reachable world is matched by the abstract step: [set_context(c)]
    sets both the cell and the provider's context to [c]'s identity, hooks
    advance the lifecycle and answer [Ok], queries answer from the fixed
    capability table, [metadata] answers the package's metadata, the host's
    own steps leave the abstract state as it was, and releasing the facade
    ends it. *)
Theorem host_refines_spec env h self p0 w a w' o :
  construct ∅ = Some (self, h) -> has_payload h self (PBinaryPluginImpl p0) ->
  star (host_step env) (initial_world h self) w ->
  action_enabled a w = true -> host_exec env a w = Some (w', o) ->
  abs_world (initial_world h self) = Some (AFacade None None Constructed) /\
  abs_world w' = fst (spec_step env p0 (abs_action (w_heap w) a) (abs_world w)) /\
  obs_matches (snd (spec_step env p0 (abs_action (w_heap w) a) (abs_world w))) o.
Proof.
  intros Hc Hp Hs Hen Hex. split; [by apply abs_initial|].
  apply (refine_host_exec env p0 w a w' o); [|done|done].
  eapply star_host_ok; [by apply initial_world_ok|exact Hs].
Qed.

Definition keeps_context (a : host_action) : bool :=
  match a with ASetContext _ | ADropPlugin => false | _ => true end.

Lemma spec_step_keeps env p0 h a f :
  keeps_context a = true ->
  exists f', fst (spec_step env p0 (abs_action h a) (Some f)) = Some f' /\
             a_cell f' = a_cell f /\ a_web f' = a_web f.
Proof. destruct a; simpl; try discriminate; intros _; eexists; done. Qed.

Lemma run_keeps_context env p0 acts w w' os f :
  world_ok p0 w -> abs_world w = Some f ->
  Forall (fun a => keeps_context a = true) acts ->
  run_actions env acts w = Some (w', os) ->
  exists f', abs_world w' = Some f' /\ a_cell f' = a_cell f /\ a_web f' = a_web f.
Proof.
  induction acts as [|a acts IH] in w, os, f |- *; simpl; intros Hok Habs Hk Hrun.
  { injection Hrun as <- _. eauto. }
  inversion Hk as [|? ? Ha Hk']; subst.
  destruct (action_enabled a w) eqn:Hen; [|done].
  destruct (host_exec env a w) as [[w1 o]|] eqn:Hex; [|done].
  destruct (run_actions env acts w1) as [[w2 os']|] eqn:Hr; [|done]. injection Hrun as <- _.
  destruct (refine_host_exec env p0 w a w1 o Hok Hen Hex) as [Habs1 _].
  rewrite Habs in Habs1. destruct (spec_step_keeps env p0 (w_heap w) a f Ha) as (f1 & Hf1 & Hc1 & Hw1).
  rewrite Hf1 in Habs1.
  destruct (IH w1 os' f1) as (f' & ? & ? & ?); eauto using host_step_ok, host_step_intro.
  exists f'. split_and!; congruence.
Qed.

(** C11: the last context set is the one the facade holds: after
    [set_context(c)] from a reachable world, any run of host actions other
    than another [set_context] or releasing the facade (hooks, queries,
    metadata, creating contexts, dropping handles) ends with both the
    execution-context cell and the web-resource provider holding [c]'s
    identity.  The host moved its handle to [c] into the call, so the two
    containers' handles alone keep [c] alive through the run. *)
Theorem last_set_context_persists env h self p0 w c id w1 o1 acts w2 os :
  construct ∅ = Some (self, h) -> has_payload h self (PBinaryPluginImpl p0) ->
  star (host_step env) (initial_world h self) w ->
  action_enabled (ASetContext c) w = true -> ctx_id (w_heap w) c = Some id ->
  host_exec env (ASetContext c) w = Some (w1, o1) ->
  Forall (fun a => keeps_context a = true) acts ->
  run_actions env acts w1 = Some (w2, os) ->
  exists f, abs_world w2 = Some f /\ a_cell f = Some id /\ a_web f = Some id.
Proof.
  intros Hc Hp Hs Hen Hid Hex Hk Hrun.
  assert (Hok : world_ok p0 w) by (eapply star_host_ok; [by apply initial_world_ok|exact Hs]).
  destruct (refine_host_exec env p0 w _ w1 o1 Hok Hen Hex) as [Habs1 _].
  destruct w as [hw E [s|] lc]; [|done].
  destruct (world_ok_view p0 _ _ _ _ Hok) as (p & wp & _ & _ & Habs).
  rewrite Habs in Habs1. cbn [abs_action w_heap] in Habs1, Hid. rewrite Hid in Habs1.
  destruct (run_keeps_context env p0 acts w1 w2 os _
              ltac:(eauto using host_step_ok, host_step_intro) Habs1 Hk Hrun) as (f & ? & ? & ?).
  eauto.
Qed.

(** ** Witnesses *)

(** The booted facade after the host created context 7 (at location 6). *)
Definition ctx_world : world :=
  match host_exec sample_env (ANewContext 7) boot_world with
  | Some (w, _) => w
  | None => boot_world
  end.

Lemma ctx_world_reachable : star (host_step sample_env) (initial_world boot_heap boot_self) ctx_world.
Proof.
  eapply star_step; [|apply star_refl].
  apply (host_step_intro sample_env (ANewContext 7) _ _ (ONew (Loc 6))); vm_compute; reflexivity.
Qed.

Lemma host_refines_spec_witness :
  match host_exec sample_env (ASetContext (Loc 6)) ctx_world with
  | Some (w', o) =>
      abs_world (initial_world boot_heap boot_self) = Some (AFacade None None Constructed) /\
      abs_world w' = fst (spec_step sample_env boot_plugin
                            (abs_action (w_heap ctx_world) (ASetContext (Loc 6))) (abs_world ctx_world)) /\
      obs_matches (snd (spec_step sample_env boot_plugin
                          (abs_action (w_heap ctx_world) (ASetContext (Loc 6))) (abs_world ctx_world))) o
  | None => False
  end.
Proof.
  destruct (host_exec sample_env (ASetContext (Loc 6)) ctx_world) as [[w' o]|] eqn:Hq;
    [|vm_compute in Hq; discriminate].
  apply (host_refines_spec sample_env boot_heap boot_self boot_plugin ctx_world (ASetContext (Loc 6))).
  - vm_compute. reflexivity.
  - by_decide.
  - exact ctx_world_reachable.
  - vm_compute. reflexivity.
  - exact Hq.
Defined.

(** Set context 7 (the host moves its only handle into the call), then
    query the component provider, run [init], create context 8 and drop
    it again. *)
Lemma last_set_context_persists_witness :
  match host_exec sample_env (ASetContext (Loc 6)) ctx_world with
  | Some (w1, _) =>
      match run_actions sample_env [AQuery CComponent; ACall HInit; ANewContext 8; ADrop (Loc 7)] w1 with
      | Some (w2, _) => exists f, abs_world w2 = Some f /\ a_cell f = Some 7 /\ a_web f = Some 7
      | None => False
      end
  | None => False
  end.
Proof.
  destruct (host_exec sample_env (ASetContext (Loc 6)) ctx_world) as [[w1 o1]|] eqn:Hq;
    [|vm_compute in Hq; discriminate].
  destruct (run_actions sample_env [AQuery CComponent; ACall HInit; ANewContext 8; ADrop (Loc 7)] w1)
    as [[w2 os]|] eqn:Hr.
  2: { apply (f_equal (fun x => match x with Some (w, _) => w | None => boot_world end)) in Hq.
       cbn beta iota in Hq. rewrite <- Hq in Hr. vm_compute in Hr. discriminate. }
  apply (last_set_context_persists sample_env boot_heap boot_self boot_plugin ctx_world
           (Loc 6) 7 w1 o1 [AQuery CComponent; ACall HInit; ANewContext 8; ADrop (Loc 7)] w2 os).
  - vm_compute. reflexivity.
  - by_decide.
  - exact ctx_world_reachable.
  - vm_compute. reflexivity.
  - vm_compute. reflexivity.
  - exact Hq.
  - repeat constructor.
  - exact Hr.
Defined.
