(* ===== verification/Ownership.v ===== *)
(** * Ownership and teardown (specification section 5)

    The facade owns its four provider slots and its context container;
    the web-resource provider owns its own container.  Ownership is shared
    ownership through [Arc]: the providers are also handed out as role
    views by the getters.  This file follows what happens to the objects
    when the host releases the facade ([ADropPlugin], the drop of the last
    [Arc<BinaryPluginImpl>]).

    The payload types form no cycle: the facade (rank 2) holds providers
    and contexts, providers (rank 1) hold at most a context, contexts
    (rank 0) hold nothing.  [ranked] says every handle stored in an object
    points to an object of lower rank; every host step keeps it.  With the
    count invariant this gives the two teardown results: when the host
    holds no other handle, releasing the facade frees every object
    ([facade_release_frees_all]); and every object the host still holds a
    handle to survives the release ([host_handles_outlive_facade]), so a
    provider obtained from a query outlives the facade. *)

From S2P Require Import Prelude Arc RwLock Query Plugin Facade Lifecycle Refinement.

(** ** Ranks of the payload types *)

Definition rank (v : payload) : nat :=
  match v with
  | PBinaryPluginImpl _ => 2
  | PBinaryComponentProviderImpl | PBinaryEntityTypeProviderImpl
  | PBinaryComponentBehaviourProviderImpl | PBinaryWebResourceProviderImpl _ => 1
  | PHostPluginContext _ => 0
  end.

Lemma rank_le v : rank v <= 2.
Proof. destruct v; simpl; lia. Qed.

Lemma rank_refs v x : x ∈ payload_refs v -> 1 <= rank v.
Proof. destruct v; simpl; [lia|by intros ?%elem_of_nil..|lia|by intros ?%elem_of_nil]. Qed.

(** The handle [x] stored in an object of payload [v] points below it. *)
Definition rank_below (h : pheap) (v : payload) (x : loc) : bool :=
  match h !! x with
  | Some o' => bool_decide (rank (obj_val o') < rank v)
  | None => true
  end.

Definition ranked (h : pheap) : Prop :=
  map_Forall (fun _ o => Forall (fun x => rank_below h (obj_val o) x = true)
                                (payload_refs (obj_val o))) h.

#[global] Instance ranked_dec h : Decision (ranked h).
Proof. unfold ranked. apply _. Defined.

Lemma ranked_spec h :
  ranked h <->
  forall l o x o', h !! l = Some o -> x ∈ payload_refs (obj_val o) -> h !! x = Some o' ->
    rank (obj_val o') < rank (obj_val o).
Proof.
  unfold ranked, rank_below. rewrite map_Forall_lookup. split.
  - intros H l o x o' Hl Hx Hx'. specialize (H l o Hl). rewrite Forall_forall in H.
    specialize (H x Hx). rewrite Hx' in H. by apply bool_decide_eq_true in H.
  - intros H l o Hl. apply Forall_forall. intros x Hx.
    destruct (h !! x) as [o'|] eqn:Hx'; [|done]. apply bool_decide_eq_true. eauto.
Qed.

(** A step keeps the heap ranked when every object it leaves alive either
    existed with the same rank and kept its payload or points below
    itself, or is a fresh context. *)
Lemma ranked_step h h' :
  ranked h ->
  (forall l o', h' !! l = Some o' ->
     (exists o, h !! l = Some o /\ rank (obj_val o) = rank (obj_val o') /\
        (obj_val o = obj_val o' \/
         forall x o'', x ∈ payload_refs (obj_val o') -> h' !! x = Some o'' ->
           rank (obj_val o'') < rank (obj_val o'))) \/
     (h !! l = None /\ rank (obj_val o') = 0)) ->
  ranked h'.
Proof.
  rewrite !ranked_spec. intros Hr Hs l o' x o'' Hl Hx Hx'.
  destruct (Hs l o' Hl) as [(o & Hlo & Er & [Ev|Hd])|[_ R0]].
  - rewrite <- Ev in Hx. pose proof (rank_refs _ _ Hx).
    destruct (Hs x o'' Hx') as [(ox & Hxo & Erx & _)|[_ R0]]; [|lia].
    rewrite <- Erx, <- Er. eapply Hr; eauto.
  - eauto.
  - pose proof (rank_refs _ _ Hx). lia.
Qed.

Lemma ranked_kept h h' : ranked h -> vals_kept (fun _ _ => True) h h' -> ranked h'.
Proof.
  intros Hr Hk. apply (ranked_step h); [done|]. intros l o' Hl. left.
  destruct (Hk l o' Hl I) as (o & Ho & Ev). exists o. rewrite Ev. auto.
Qed.

Lemma ranked_fresh h l id n :
  ranked h -> h !! l = None -> ranked (<[l := Obj (PHostPluginContext id) n]> h).
Proof.
  intros Hr Hl. apply (ranked_step h); [done|]. intros l' o' Hl'.
  destruct (decide (l = l')) as [<-|Hne].
  - right. rewrite lookup_insert_eq in Hl'. by simplify_eq/=.
  - left. rewrite lookup_insert_ne in Hl' by done. eauto.
Qed.

(** The handles of a well-formed facade and of its web-resource provider
    point to providers and contexts. *)
Lemma facade_refs_rank h self p wp x o :
  facade_ok h self p wp -> x ∈ payload_refs (PBinaryPluginImpl p) -> h !! x = Some o ->
  rank (obj_val o) < 2.
Proof.
  intros Hf Hx Hxo. destruct o as [v n]. pose proof (rank_le v). simpl.
  destruct (decide (rank v = 2)) as [R2|]; [exfalso|lia].
  destruct v; try discriminate. clear R2.
  destruct Hf as [_ [n1 H1] [n2 H2] [n3 H3] [n4 H4] _ [_ Hc]].
  simpl in Hx. apply elem_of_app in Hx as [Hx|Hx].
  - repeat (apply elem_of_cons in Hx as [->|Hx]; [congruence|]). by apply elem_of_nil in Hx.
  - destruct (rw_data (context p)) as [y|] eqn:Hy; simpl in Hx; [|by apply elem_of_nil in Hx].
    apply list_elem_of_singleton in Hx as ->. destruct (Hc y eq_refl) as [id [m Hm]]. congruence.
Qed.

Lemma web_refs_rank h self p wp x o :
  facade_ok h self p wp -> x ∈ payload_refs (PBinaryWebResourceProviderImpl wp) -> h !! x = Some o ->
  rank (obj_val o) < 1.
Proof.
  intros Hf Hx Hxo. destruct (fo_web_context _ _ _ _ Hf) as [_ Hc].
  unfold payload_refs, payload_refs_inst in Hx. destruct (rw_data (wrp_context wp)) as [y|] eqn:Hy; simpl in Hx;
    [|by apply elem_of_nil in Hx].
  apply list_elem_of_singleton in Hx as ->. destruct (Hc y eq_refl) as [id [m Hm]].
  rewrite Hm in Hxo. injection Hxo as <-. simpl. lia.
Qed.

(** ** Every host step keeps the heap ranked *)

(** [set_context] writes only the facade and its web-resource provider. *)
Lemma set_context_frame_locs self c p h r h' :
  has_payload h self (PBinaryPluginImpl p) -> set_context self c h = Some (r, h') ->
  vals_kept (fun l _ => l <> self /\ l <> web_resource_provider p) h h'.
Proof.
  intros Hs Hr. unfold set_context in Hr.
  rewrite (st_bind_Some _ _ _ _ _ (load_plugin_Some _ _ _ Hs)) in Hr.
  apply (fun Hp : preserves (vals_kept (fun l (_ : payload) => l <> self /\ l <> web_resource_provider p)) _ =>
           Hp h r h' Hr).
  unfold web_resource_provider_set_context. frame.
Qed.

Lemma set_context_ranked h self c p wp r h' :
  ranked h -> facade_ok h self p wp -> set_context self c h = Some (r, h') ->
  facade_ok h' self (with_context p (stored c)) (MkBinaryWebResourceProviderImpl (stored c)) ->
  ranked h'.
Proof.
  intros Hr Hf Hs Hf'. apply (ranked_step h); [done|]. intros l o' Hl. left.
  destruct (fo_self _ _ _ _ Hf) as [n Hself]. destruct (fo_web _ _ _ _ Hf) as [m Hweb].
  destruct (decide (l = self)) as [->|Hns].
  - destruct (fo_self _ _ _ _ Hf') as [n' Hself']. rewrite Hself' in Hl. injection Hl as <-.
    eexists. split_and!; [exact Hself|done|right]. intros x o'' Hx Hx'.
    exact (facade_refs_rank _ _ _ _ _ _ Hf' Hx Hx').
  - destruct (decide (l = web_resource_provider p)) as [->|Hnw].
    + destruct (fo_web _ _ _ _ Hf') as [m' Hweb']. simpl in Hweb'. rewrite Hweb' in Hl. injection Hl as <-.
      eexists. split_and!; [exact Hweb|done|right]. intros x o'' Hx Hx'.
      exact (web_refs_rank _ _ _ _ _ _ Hf' Hx Hx').
    + destruct (set_context_frame_locs _ _ _ _ _ _ (ex_intro _ n Hself) Hs l o' Hl (conj Hns Hnw))
        as (o & Ho & Ev). exists o. rewrite Ev. auto.
Qed.

Section Preserve.
Context (env : CargoEnv) (p0 : BinaryPluginImpl).

Lemma host_exec_ranked w a w' o :
  world_ok p0 w -> action_enabled a w = true -> host_exec env a w = Some (w', o) ->
  ranked (w_heap w) -> ranked (w_heap w').
Proof.
  intros Hok Hen Hex Hr.
  assert (Hnew : forall id, ranked (w_heap w) ->
            host_exec env (ANewContext id) w = Some (w', o) -> ranked (w_heap w')).
  { intros id Hr' Hx. cbn [host_exec] in Hx. unfold new_context, arc_new in Hx.
    injection Hx as <- _. apply ranked_fresh; [done|apply not_elem_of_dom, is_fresh]. }
  assert (Hdrop : forall l u h', arc_drop l (w_heap w) = Some (u, h') -> ranked h').
  { intros l u h' Hd. eapply ranked_kept; [done|]. by eapply arc_drop_vals. }
  destruct w as [h E [self|] lc].
  2: { destruct a; try discriminate; [by eapply Hnew|].
       cbn [host_exec w_heap] in Hex. destruct (arc_drop _ h) as [[u h']|] eqn:Hd; [|done].
       injection Hex as <- _. by eapply Hdrop. }
  destruct a as [k|c|c| |id|l|]; [| |cbn [host_exec w_plugin w_heap] in Hex..].
  - cbn [host_exec w_plugin w_heap] in Hex. rewrite hook_call_binary in Hex. by injection Hex as <- _.
  - destruct (host_set_context_inv env p0 _ _ _ _ _ _ _ Hok Hen Hex)
      as (p & wp & h' & Hfo & _ & _ & Hs & _ & -> & _ & Hf'). by eapply set_context_ranked.
  - destruct (@get_capability pheap (binary_plugin env) c self h) as [[r h']|] eqn:Hq; [|done].
    injection Hex as <- _. eapply ranked_kept; [done|]. by eapply get_capability_frame.
  - by injection Hex as <- _.
  - by eapply Hnew.
  - destruct (arc_drop l h) as [[u h']|] eqn:Hd; [|done]. injection Hex as <- _. by eapply Hdrop.
  - destruct (arc_drop self h) as [[u h']|] eqn:Hd; [|done]. injection Hex as <- _. by eapply Hdrop.
Qed.

End Preserve.

Lemma star_ranked env p0 w w' :
  world_ok p0 w -> ranked (w_heap w) -> star (host_step env) w w' -> ranked (w_heap w').
Proof.
  intros Hok Hr Hs. induction Hs as [|w1 w2 w3 Hst _ IH]; [done|].
  destruct Hst as [a w1 w2 o Hen Hex].
  apply IH; [eauto using host_step_ok, host_step_intro|]. by eapply host_exec_ranked.
Qed.

Lemma initial_ranked h self : construct ∅ = Some (self, h) -> ranked h.
Proof.
  intros Hc. assert (h = boot_heap) as -> by (unfold boot_heap; by rewrite Hc). by_decide.
Qed.

Lemma reachable_ranked env h self p0 w :
  construct ∅ = Some (self, h) -> has_payload h self (PBinaryPluginImpl p0) ->
  star (host_step env) (initial_world h self) w -> world_ok p0 w /\ ranked (w_heap w).
Proof.
  intros Hc Hp Hs. pose proof (initial_world_ok h self p0 Hc Hp) as Hok. split.
  - exact (star_host_ok env p0 _ w Hok Hs).
  - exact (star_ranked env p0 _ w Hok (initial_ranked h self Hc) Hs).
Qed.

(** ** Teardown *)

(** C14. No leak at teardown: in every reachable world where the host holds
    the facade and no other handle, releasing the facade succeeds and frees
    every object: the facade, its four providers and every context the
    containers held.  The payload types form no cycle, so the last drop
    cascades through the fields in order. *)
Theorem facade_release_frees_all env h self p0 w :
  construct ∅ = Some (self, h) -> has_payload h self (PBinaryPluginImpl p0) ->
  star (host_step env) (initial_world h self) w ->
  w_plugin w <> None -> w_host w = ∅ ->
  exists w', host_exec env ADropPlugin w = Some (w', ODropped) /\ w_heap w' = ∅.
Proof.
  intros Hc Hp Hs Hpl HE. destruct (reachable_ranked env h self p0 w Hc Hp Hs) as [[Hrc _] Hr].
  destruct w as [h1 E [s|] lc]; [|done]. unfold plugin_handles in Hrc; simpl in *; subst E.
  destruct (arc_drop_ok _ _ _ Hrc) as (h' & Hd & Hrc' & _).
  exists (MkWorld h' ∅ None lc). split; [by rewrite Hd|]. simpl.
  apply (rc_ok_ranked_empty rank 2 h' rank_le); [|done].
  apply ranked_spec. eapply ranked_kept; [exact Hr|]. by eapply arc_drop_vals.
Qed.

(** C15. The providers outlive the facade they were obtained from: when
    the host releases the facade, every object it still holds a handle to
    (a provider returned by a query, a context it created) stays alive. *)
Theorem host_handles_outlive_facade env h self p0 w w' o l :
  construct ∅ = Some (self, h) -> has_payload h self (PBinaryPluginImpl p0) ->
  star (host_step env) (initial_world h self) w ->
  host_exec env ADropPlugin w = Some (w', o) -> l ∈ w_host w ->
  exists o', w_heap w' !! l = Some o'.
Proof.
  intros Hc Hp Hs Hex Hl. destruct (reachable_ranked env h self p0 w Hc Hp Hs) as [Hok _].
  assert (Hen : action_enabled ADropPlugin w = true) by (destruct w as [? ? [|] ?]; done).
  destruct (host_step_ok env p0 w w' Hok (host_step_intro env _ _ _ _ Hen Hex)) as [Hrc' _].
  destruct w as [h1 E [s|] lc]; [|done]. cbn [host_exec w_heap w_plugin] in Hex.
  destruct (arc_drop s h1) as [[u h']|]; [|done]. injection Hex as <- _.
  eapply rc_ok_live; [exact Hrc'|]. simpl. multiset_solver.
Qed.

(** ** Witnesses *)

Lemma facade_release_frees_all_witness :
  exists w', host_exec sample_env ADropPlugin boot_world = Some (w', ODropped) /\ w_heap w' = ∅.
Proof.
  apply (facade_release_frees_all sample_env boot_heap boot_self boot_plugin boot_world).
  - vm_compute. reflexivity.
  - by_decide.
  - apply star_refl.
  - discriminate.
  - reflexivity.
Defined.

(** The booted facade after the host queried the component provider
    (location 1). *)
Definition queried_world : world :=
  match host_exec sample_env (AQuery CComponent) boot_world with
  | Some (w, _) => w
  | None => boot_world
  end.

Lemma queried_world_reachable :
  star (host_step sample_env) (initial_world boot_heap boot_self) queried_world.
Proof.
  eapply star_step; [|apply star_refl].
  apply (host_step_intro sample_env (AQuery CComponent) _ _ (OHandle (Ok (Loc 1)))); vm_compute; reflexivity.
Qed.

Lemma host_handles_outlive_facade_witness :
  match host_exec sample_env ADropPlugin queried_world with
  | Some (w', _) => exists o', w_heap w' !! Loc 1 = Some o'
  | None => False
  end.
Proof.
  destruct (host_exec sample_env ADropPlugin queried_world) as [[w' o]|] eqn:Hq;
    [|vm_compute in Hq; discriminate].
  apply (host_handles_outlive_facade sample_env boot_heap boot_self boot_plugin queried_world w' o).
  - vm_compute. reflexivity.
  - by_decide.
  - apply queried_world_reachable.
  - exact Hq.
  - vm_compute. lia.
Defined.

(** On the booted facade, after one query the release frees the facade
    object itself while the component provider it returned stays alive. *)
Lemma provider_outlives_facade_example :
  match host_exec sample_env ADropPlugin queried_world with
  | Some (w', _) => w_heap w' !! boot_self = None /\ is_Some (w_heap w' !! Loc 1)
  | None => False
  end.
Proof. vm_compute. split; [reflexivity | eexists; reflexivity]. Qed.
