(* ===== verification/ConcurrentArc.v ===== *)
(** * Concurrent [set_context] callers on the reference-counted heap

    [Concurrency] interleaves [set_context] callers at the granularity of
    the locks but leaves reference counts to the sequential model.  Here
    the callers run on the Arc heap of [Arc]: every atomic operation of
    lines 81-84 of src/src/plugin.rs is one step of a caller, in code order,
    - line 81: [self.context.0.write()] takes the facade's write lock;
      [context.clone()] (the argument, evaluated after the receiver);
      [replace] stores the clone through the guard; at the end of the
      statement the temporaries are dropped in reverse order of creation:
      first the [Option] that [replace] returned, then the guard;
    - line 82: [context.clone()], then the web-resource provider's
      [set_context] with the same steps on its own container (the handle is
      moved in, not cloned);
    - line 84: the parameter [context] is dropped when the call returns.
    A caller runs a list of such calls, one after the other; it owns the
    handles of its pending calls from the start (they are its parameters).

    [rc_spec X m Y] is a small Hoare logic of ownership: run from a heap
    whose counts are exact with the handles [X] owned by the step (and any
    others owned elsewhere), [m] leaves exact counts with the handles
    [Y a].  Each step of a caller is proved against it once; the scheduler
    composes them.  Results: counts stay exact under every interleaving
    and nothing leaks once the calls return
    ([concurrent_counts_exact]); with the locks held exactly by their
    holders ([arc_ok]), some caller can always step until every call has
    returned ([concurrent_calls_progress]); once every call has returned
    both locks are free and no count is left to the callers
    ([concurrent_calls_quiesce]). *)

From S2P Require Import Prelude Arc RwLock Query Plugin Facade Lifecycle.

(** ** Owned handles: a Hoare logic of reference counts *)

Definition rc_spec {A} (X : gmultiset loc) (m : PM A) (Y : A -> gmultiset loc) : Prop :=
  forall h E a h', rc_ok h (E ⊎ X) -> m h = Some (a, h') -> rc_ok h' (E ⊎ Y a).

Lemma rc_spec_ret {A} X (a : A) : rc_spec X (ret a) (fun _ => X).
Proof. by intros h E ? h' Hrc [= <- <-]. Qed.

Lemma rc_spec_bind {A B} X Y Z (m : PM A) (k : A -> PM B) :
  rc_spec X m Y -> (forall a, rc_spec (Y a) (k a) Z) -> rc_spec X (st_bind m k) Z.
Proof.
  intros Hm Hk h E b h'' Hrc (a & h' & H1 & H2)%st_bind_inv. eapply Hk; [|exact H2]. by eapply Hm.
Qed.

Lemma rc_spec_clone l : rc_spec ∅ (arc_clone l) (fun _ => {[+ l +]}).
Proof.
  intros h E l' h' Hrc Hc. rewrite gmultiset_disj_union_right_id in Hrc.
  by destruct (arc_clone_rc _ _ _ _ _ Hrc Hc).
Qed.

Lemma rc_spec_drop l : rc_spec {[+ l +]} (arc_drop l) (fun _ => ∅).
Proof.
  intros h E [] h' Hrc Hd. destruct (arc_drop_ok _ _ _ Hrc) as (h'' & Hd' & Hrc' & _).
  rewrite Hd in Hd'. injection Hd' as <-. by rewrite gmultiset_disj_union_right_id.
Qed.

Lemma rc_spec_option_drop o :
  rc_spec (list_to_set_disj (option_handles o)) (option_drop o) (fun _ => ∅).
Proof.
  intros h E [] h' Hrc Hd. destruct (option_drop_ok _ _ _ Hrc) as (h'' & Hd' & Hrc' & _).
  rewrite Hd in Hd'. injection Hd' as <-. by rewrite gmultiset_disj_union_right_id.
Qed.

(** The handles a step does not touch stay owned. *)
Lemma rc_spec_frame {A} X Y F (m : PM A) :
  rc_spec X m Y -> rc_spec (X ⊎ F) m (fun a => Y a ⊎ F).
Proof.
  intros Hm h E a h' Hrc Hs. rewrite (gmultiset_disj_union_comm _ F), gmultiset_disj_union_assoc.
  eapply Hm; [|exact Hs]. by rewrite <- gmultiset_disj_union_assoc, (gmultiset_disj_union_comm F).
Qed.

Lemma rc_spec_weaken {A} X X' Y Y' (m : PM A) :
  X = X' -> (forall a, Y' a = Y a) -> rc_spec X' m Y' -> rc_spec X m Y.
Proof. intros -> HY Hm h E a h' Hrc Hs. rewrite <- HY. by eapply Hm. Qed.

(** A clone followed by a constant result: one more owned handle. *)
Lemma rc_spec_clone_ret {B} X l (b : B) (Y : B -> gmultiset loc) :
  Y b = X ⊎ {[+ l +]} -> rc_spec X (_ <- arc_clone l ;; ret b) Y.
Proof.
  intros HY h E a h' Hrc (l' & h1 & Hc & [= <- <-])%st_bind_inv.
  rewrite HY, gmultiset_disj_union_assoc. by destruct (arc_clone_rc _ _ _ _ _ Hrc Hc).
Qed.

(** Dropping an [Option] of a handle, then a constant result. *)
Lemma rc_spec_drop_ret {B} X o (b : B) (Y : B -> gmultiset loc) :
  X = Y b ⊎ list_to_set_disj (option_handles o) -> rc_spec X (option_drop o ;;; ret b) Y.
Proof.
  intros -> h E a h' Hrc ([] & h1 & Hd & [= <- <-])%st_bind_inv.
  rewrite gmultiset_disj_union_assoc in Hrc.
  pose proof (rc_spec_option_drop o h (E ⊎ Y b) tt h1 Hrc Hd) as Hrc1.
  by rewrite gmultiset_disj_union_right_id in Hrc1.
Qed.

(** ** Interior mutation of the facade and of its web-resource provider *)

(** Through [&self], a method changes the facade's object only inside its
    [RwLock]: read the payload, compute the new one (or block or panic,
    [None]) and write it back. *)
Definition modify_plugin {A} (self : loc) (f : BinaryPluginImpl -> option (BinaryPluginImpl * A))
    : PM A :=
  p <- load_plugin self ;;
  match f p with
  | None => st_panic
  | Some (p', a) => heap_write self (PBinaryPluginImpl p') ;;; ret a
  end.

(** The same on the web-resource provider the facade's field points to
    ([self.web_resource_provider.set_context(..)]). *)
Definition modify_web {A} (self : loc)
    (f : BinaryWebResourceProviderImpl -> option (BinaryWebResourceProviderImpl * A)) : PM A :=
  p <- load_plugin self ;;
  v <- load_web_resource_provider (web_resource_provider p) ;;
  match f v with
  | None => st_panic
  | Some (v', a) =>
      heap_write (web_resource_provider p) (PBinaryWebResourceProviderImpl v') ;;; ret a
  end.

Lemma load_plugin_inv self h p h' :
  load_plugin self h = Some (p, h') -> h' = h /\ exists n, h !! self = Some (Obj (PBinaryPluginImpl p) n).
Proof.
  unfold load_plugin. destruct (h !! self) as [[[] n]|]; try done. intros [= <- <-]. eauto.
Qed.

Lemma load_web_inv l h w h' :
  load_web_resource_provider l h = Some (w, h') ->
  h' = h /\ exists n, h !! l = Some (Obj (PBinaryWebResourceProviderImpl w) n).
Proof.
  unfold load_web_resource_provider. destruct (h !! l) as [[[] n]|]; try done. intros [= <- <-]. eauto.
Qed.

Lemma rc_spec_write l o v X Y h E h' :
  rc_ok h (E ⊎ X) -> h !! l = Some o -> refs_of v ⊎ Y = refs_of (obj_val o) ⊎ X ->
  heap_write l v h = Some (tt, h') -> rc_ok h' (E ⊎ Y).
Proof.
  intros Hrc Hl Hb Hw. rewrite (heap_write_Some _ _ _ _ Hl) in Hw. injection Hw as <-.
  by eapply rc_ok_write.
Qed.

Lemma rc_spec_modify_plugin {A} self f X (Y : A -> gmultiset loc) :
  (forall p p' a, f p = Some (p', a) ->
     refs_of (PBinaryPluginImpl p') ⊎ Y a = refs_of (PBinaryPluginImpl p) ⊎ X) ->
  rc_spec X (modify_plugin self f) Y.
Proof.
  intros Hb h E a h' Hrc Hm. apply st_bind_inv in Hm as (p & h1 & (-> & n & Hs)%load_plugin_inv & Hm).
  destruct (f p) as [[p' b]|] eqn:Hf; [|done].
  apply st_bind_inv in Hm as ([] & h2 & Hw & [= -> <-]).
  eapply (rc_spec_write self); [exact Hrc|exact Hs|by apply Hb|exact Hw].
Qed.

Lemma rc_spec_modify_web {A} self f X (Y : A -> gmultiset loc) :
  (forall v v' a, f v = Some (v', a) ->
     refs_of (PBinaryWebResourceProviderImpl v') ⊎ Y a = refs_of (PBinaryWebResourceProviderImpl v) ⊎ X) ->
  rc_spec X (modify_web self f) Y.
Proof.
  intros Hb h E a h' Hrc Hm. apply st_bind_inv in Hm as (p & h1 & (-> & _)%load_plugin_inv & Hm).
  apply st_bind_inv in Hm as (v & h2 & (-> & n & Hw)%load_web_inv & Hm).
  destruct (f v) as [[v' b]|] eqn:Hf; [|done].
  apply st_bind_inv in Hm as ([] & h3 & Hwr & [= -> <-]).
  eapply (rc_spec_write (web_resource_provider p)); [exact Hrc|exact Hw|by apply Hb|exact Hwr].
Qed.

(** ** Callers *)

(** Where a caller is inside one call [set_context(c)]. *)
Inductive call_pc : Type :=
| CBegin                          (** line 81: [self.context.0.write().unwrap()] *)
| CLocked                         (** holding the guard: [context.clone()] *)
| CCloned                         (** [.replace(..)] through the guard *)
| CReplaced (old : option loc)    (** end of statement: drop the returned [Option] *)
| COldDropped                     (** end of statement: drop the guard *)
| CUnlocked                       (** line 82: [context.clone()] *)
| CForward                        (** provider: [self.context.0.write().unwrap()] *)
| CWebLocked                      (** provider: [.replace(context)] *)
| CWebReplaced (old : option loc) (** provider: drop the returned [Option] *)
| CWebOldDropped                  (** provider: drop the guard *)
| CReturned.                      (** line 84: drop the parameter [context] *)

#[global] Instance call_pc_eq_dec : EqDecision call_pc.
Proof. solve_decision. Defined.

(** One step of the call [set_context(c)] at [pc]. *)
Definition step_call (self c : loc) (pc : call_pc) : PM call_pc :=
  match pc with
  | CBegin => modify_plugin self (fun p =>
      g ← container_write (context p); Some (with_context p g, CLocked))
  | CLocked => _ <- arc_clone c ;; ret CCloned
  | CCloned => modify_plugin self (fun p =>
      let '(g, old) := guard_put (context p) c in Some (with_context p g, CReplaced old))
  | CReplaced old => option_drop old ;;; ret COldDropped
  | COldDropped => modify_plugin self (fun p =>
      Some (with_context p (write_unlock (context p)), CUnlocked))
  | CUnlocked => _ <- arc_clone c ;; ret CForward
  | CForward => modify_web self (fun v =>
      g ← container_write (wrp_context v); Some (MkBinaryWebResourceProviderImpl g, CWebLocked))
  | CWebLocked => modify_web self (fun v =>
      let '(g, old) := guard_put (wrp_context v) c in
      Some (MkBinaryWebResourceProviderImpl g, CWebReplaced old))
  | CWebReplaced old => option_drop old ;;; ret CWebOldDropped
  | CWebOldDropped => modify_web self (fun v =>
      Some (MkBinaryWebResourceProviderImpl (write_unlock (wrp_context v)), CReturned))
  | CReturned => st_panic
  end.

(** A caller: the contexts of the calls it still makes, [pc] in the first. *)
Record caller : Type := Caller { calls : list loc; at_pc : call_pc }.

Definition step_caller (self : loc) (k : caller) : PM caller :=
  match calls k with
  | [] => st_panic
  | c :: rest =>
      match at_pc k with
      | CReturned => arc_drop c ;;; ret (Caller rest CBegin)
      | pc => pc' <- step_call self c pc ;; ret (Caller (c :: rest) pc')
      end
  end.

(** The handles the current call owns at each point: its parameter, the
    clone not yet stored, the replaced value not yet dropped. *)
Definition call_handles (c : loc) (pc : call_pc) : gmultiset loc :=
  match pc with
  | CCloned | CForward | CWebLocked => {[+ c +]} ⊎ {[+ c +]}
  | CReplaced old | CWebReplaced old => {[+ c +]} ⊎ list_to_set_disj (option_handles old)
  | _ => {[+ c +]}
  end.

Definition owned (k : caller) : gmultiset loc :=
  match calls k with
  | [] => ∅
  | c :: rest => call_handles c (at_pc k) ⊎ list_to_set_disj rest
  end.

Definition owned_all (ks : list caller) : gmultiset loc :=
  foldr (fun k acc => owned k ⊎ acc) ∅ ks.

(** The scheduler runs caller [i] for one step. *)
Definition arc_sched (self : loc) (i : nat) (s : pheap * list caller) : option (pheap * list caller) :=
  match s.2 !! i with
  | None => None
  | Some k =>
      match step_caller self k s.1 with
      | Some (k', h') => Some (h', <[i := k']> s.2)
      | None => None
      end
  end.

Definition arc_step (self : loc) (s s' : pheap * list caller) : Prop :=
  exists i, arc_sched self i s = Some s'.

(** ** Every step keeps the counts exact *)

(** The multiset equation of a write of the facade's or the provider's
    container. *)
Ltac refs_balance :=
  unfold refs_of, payload_refs, payload_refs_inst; simpl;
  rewrite ?list_to_set_disj_app, ?list_to_set_disj_cons, ?list_to_set_disj_nil;
  multiset_solver.

Lemma step_call_rc self c pc :
  pc <> CReturned -> rc_spec (call_handles c pc) (step_call self c pc) (call_handles c).
Proof.
  intros Hpc. destruct pc; simpl; try done;
    try (apply rc_spec_clone_ret; reflexivity); try (apply rc_spec_drop_ret; reflexivity).
  - apply rc_spec_modify_plugin. intros p p' a Hf.
    destruct (container_write (context p)) as [g|] eqn:Hw; simplify_eq/=.
    unfold refs_of, payload_refs, payload_refs_inst; simpl. by rewrite (container_write_data _ _ Hw).
  - apply rc_spec_modify_plugin. intros p p' a Hf. simplify_eq/=. refs_balance.
  - apply rc_spec_modify_plugin. intros p p' a Hf. simplify_eq/=. refs_balance.
  - apply rc_spec_modify_web. intros v v' a Hf.
    destruct (container_write (wrp_context v)) as [g|] eqn:Hw; simplify_eq/=.
    unfold refs_of, payload_refs, payload_refs_inst; simpl. by rewrite (container_write_data _ _ Hw).
  - apply rc_spec_modify_web. intros v v' a Hf. simplify_eq/=. refs_balance.
  - apply rc_spec_modify_web. intros v v' a Hf. simplify_eq/=. refs_balance.
Qed.

Lemma rc_spec_ret_eq {A} X (a : A) (Y : A -> gmultiset loc) : Y a = X -> rc_spec X (ret a) Y.
Proof. intros HY h E ? h' Hrc [= <- <-]. by rewrite HY. Qed.

Lemma owned_begin rest : owned (Caller rest CBegin) = list_to_set_disj rest.
Proof. by destruct rest. Qed.

Lemma step_caller_rc self k : rc_spec (owned k) (step_caller self k) owned.
Proof.
  destruct k as [[|c rest] pc]; [by intros ????|]. unfold step_caller, owned at 1. cbn [calls at_pc].
  destruct pc; try (eapply rc_spec_bind;
    [eapply (rc_spec_frame _ _ (list_to_set_disj rest)); by apply step_call_rc
    |intros pc'; by apply rc_spec_ret_eq]).
  eapply rc_spec_bind; [eapply (rc_spec_frame _ _ (list_to_set_disj rest)); apply rc_spec_drop|].
  intros []. apply rc_spec_ret_eq. rewrite owned_begin. simpl. by rewrite gmultiset_disj_union_left_id.
Qed.

Lemma owned_all_insert ks i k' :
  i < length ks -> owned_all (<[i := k']> ks) = owned k' ⊎ owned_all (delete i ks).
Proof.
  revert i. induction ks as [|x ks IH]; intros [|i] Hi; simpl in *; [lia|lia|done|].
  rewrite IH by lia. multiset_solver.
Qed.

Lemma owned_all_lookup ks i k :
  ks !! i = Some k -> owned_all ks = owned k ⊎ owned_all (delete i ks).
Proof.
  intros Hk. rewrite <- owned_all_insert by (by eapply lookup_lt_Some). by rewrite list_insert_id.
Qed.

Lemma arc_sched_rc self E i s s' :
  rc_ok s.1 (E ⊎ owned_all s.2) -> arc_sched self i s = Some s' -> rc_ok s'.1 (E ⊎ owned_all s'.2).
Proof.
  destruct s as [h ks]. unfold arc_sched. simpl.
  destruct (ks !! i) as [k|] eqn:Hk; [|done].
  destruct (step_caller self k h) as [[k' h']|] eqn:Hs; [|done]. intros Hrc [= <-]. simpl.
  rewrite owned_all_insert by (by eapply lookup_lt_Some).
  rewrite (owned_all_lookup _ _ _ Hk) in Hrc.
  replace (E ⊎ (owned k' ⊎ owned_all (delete i ks))) with (E ⊎ owned_all (delete i ks) ⊎ owned k')
    by multiset_solver.
  apply (step_caller_rc self k h _ k' h'); [|exact Hs].
  by replace (E ⊎ owned_all (delete i ks) ⊎ owned k) with (E ⊎ (owned k ⊎ owned_all (delete i ks)))
    by multiset_solver.
Qed.

(** Running a schedule: the callers to step, in order. *)
Fixpoint run_arc (self : loc) (sched : list nat) (s : pheap * list caller)
    : option (pheap * list caller) :=
  match sched with
  | [] => Some s
  | i :: rest => match arc_sched self i s with Some s' => run_arc self rest s' | None => None end
  end.

Lemma run_arc_star self sched s s' :
  run_arc self sched s = Some s' -> star (arc_step self) s s'.
Proof.
  revert s. induction sched as [|i rest IH]; intros s; simpl; [intros [= <-]; constructor|].
  destruct (arc_sched self i s) as [s1|] eqn:Hs; [|done]. intros Hr.
  eapply star_step; [by exists i|]. by apply IH.
Qed.

Definition all_returned (ks : list caller) : Prop := Forall (fun k => calls k = []) ks.

Lemma owned_all_returned ks : all_returned ks -> owned_all ks = ∅.
Proof. induction 1 as [|k ks Hk _ IH]; [done|]. simpl. rewrite IH. unfold owned. by rewrite Hk. Qed.

(** C17. Reference counts stay exact under every interleaving of
    concurrent [set_context] callers: counting the handles each caller
    holds at its current point (its parameters, the clone not yet stored,
    the replaced context not yet dropped), every strong count equals the
    number of handles and no handle dangles; once every call has returned
    the callers hold nothing, so a context is alive exactly as long as the
    host or a container holds it (no leak, no double free). *)
Theorem concurrent_counts_exact self E s s' :
  rc_ok s.1 (E ⊎ owned_all s.2) -> star (arc_step self) s s' ->
  rc_ok s'.1 (E ⊎ owned_all s'.2) /\ (all_returned s'.2 -> rc_ok s'.1 E).
Proof.
  intros Hrc Hs. assert (Hrc' : rc_ok s'.1 (E ⊎ owned_all s'.2)).
  { induction Hs as [|s1 s2 s3 [i Hi] _ IH]; [done|]. apply IH. by eapply arc_sched_rc. }
  split; [done|]. intros Hr. rewrite owned_all_returned, gmultiset_disj_union_right_id in Hrc'; done.
Qed.

(** ** Locks and the shape of the facade under concurrent callers *)

(** The caller holds the write guard of the facade's container, or of the
    provider's. *)
Definition holds_cell (k : caller) : bool :=
  match calls k, at_pc k with
  | _ :: _, (CLocked | CCloned | CReplaced _ | COldDropped) => true
  | _, _ => false
  end.

Definition holds_web (k : caller) : bool :=
  match calls k, at_pc k with
  | _ :: _, (CWebLocked | CWebReplaced _ | CWebOldDropped) => true
  | _, _ => false
  end.

(** A lock is held by exactly the [n] callers holding its guard (none or
    one) and is not poisoned. *)
Definition lock_held (r : PluginContextContainer) (n : nat) : Prop :=
  rw_poisoned r = false /\
  ((rw_state r = Unlocked /\ n = 0) \/ (rw_state r = WriteLocked /\ n = 1)).

#[global] Instance lock_held_dec r n : Decision (lock_held r n).
Proof. unfold lock_held. apply _. Defined.

(** The state of a run: exact counts with the callers' handles, the facade
    and its web-resource provider in place, each lock held by its holders. *)
Definition arc_ok (self : loc) (E : gmultiset loc) (s : pheap * list caller) : Prop :=
  rc_ok s.1 (E ⊎ owned_all s.2) /\
  exists p w, has_payload s.1 self (PBinaryPluginImpl p) /\
    has_payload s.1 (web_resource_provider p) (PBinaryWebResourceProviderImpl w) /\
    lock_held (context p) (count_if holds_cell s.2) /\
    lock_held (wrp_context w) (count_if holds_web s.2).

Lemma modify_plugin_inv {A} self f h (a : A) h' p :
  has_payload h self (PBinaryPluginImpl p) -> modify_plugin self f h = Some (a, h') ->
  exists p' n, f p = Some (p', a) /\ h !! self = Some (Obj (PBinaryPluginImpl p) n) /\
    h' = <[self := Obj (PBinaryPluginImpl p') n]> h.
Proof.
  intros [n Hs] Hm. unfold modify_plugin in Hm.
  rewrite (st_bind_Some _ _ _ _ _ (load_plugin_Some h self p (ex_intro _ n Hs))) in Hm.
  destruct (f p) as [[p' b]|]; [|done].
  rewrite (st_bind_Some _ _ _ _ _ (heap_write_Some _ _ _ _ Hs)) in Hm. injection Hm as <- <-. eauto.
Qed.

Lemma modify_web_inv {A} self f h (a : A) h' p w :
  has_payload h self (PBinaryPluginImpl p) ->
  has_payload h (web_resource_provider p) (PBinaryWebResourceProviderImpl w) ->
  modify_web self f h = Some (a, h') ->
  exists w' m, f w = Some (w', a) /\
    h !! web_resource_provider p = Some (Obj (PBinaryWebResourceProviderImpl w) m) /\
    h' = <[web_resource_provider p := Obj (PBinaryWebResourceProviderImpl w') m]> h.
Proof.
  intros Hs [m Hw] Hm. unfold modify_web in Hm.
  rewrite (st_bind_Some _ _ _ _ _ (load_plugin_Some h self p Hs)) in Hm.
  rewrite (st_bind_Some _ _ _ _ _ (load_web_resource_provider_Some h _ w (ex_intro _ m Hw))) in Hm.
  destruct (f w) as [[w' b]|]; [|done].
  rewrite (st_bind_Some _ _ _ _ _ (heap_write_Some _ _ _ _ Hw)) in Hm. injection Hm as <- <-. eauto.
Qed.

(** A step that only clones and drops keeps the facade and its provider:
    the host's handle keeps the facade alive, the facade's field the
    provider. *)
Lemma kept_shape h h' X self p w :
  vals_kept (fun _ _ => True) h h' -> rc_ok h' X -> self ∈ X ->
  has_payload h self (PBinaryPluginImpl p) ->
  has_payload h (web_resource_provider p) (PBinaryWebResourceProviderImpl w) ->
  has_payload h' self (PBinaryPluginImpl p) /\
  has_payload h' (web_resource_provider p) (PBinaryWebResourceProviderImpl w).
Proof.
  intros Hk Hrc Hin Hs Hw.
  assert (Hkeep : forall l v, has_payload h l v -> (exists o', h' !! l = Some o') -> has_payload h' l v).
  { intros l v [n Hl] [[v' n'] Hl']. destruct (Hk l _ Hl' I) as (o & Ho & Ev).
    rewrite Hl in Ho. injection Ho as <-. simpl in Ev. subst v'. by exists n'. }
  assert (Hs' : has_payload h' self (PBinaryPluginImpl p)) by eauto using rc_ok_live.
  split; [done|]. apply Hkeep; [done|]. destruct Hs' as [n Hs'].
  eapply (rc_ok_live_ref _ _ _ (Obj (PBinaryPluginImpl p) n)); [exact Hrc|exact Hs'|].
  unfold payload_refs, payload_refs_inst. simpl. set_solver.
Qed.

(** How one step changes a lock, given the other holders [n]: the caller
    held the guard or not ([b]), holds it or not afterwards ([b']). *)
Definition lock_step (r r' : PluginContextContainer) (b b' : bool) : Prop :=
  forall n, lock_held r (n + (if b then 1 else 0)) -> lock_held r' (n + (if b' then 1 else 0)).

Lemma lock_step_keep r b : lock_step r r b b.
Proof. by intros n. Qed.

Lemma lock_step_acquire r g : container_write r = Some g -> lock_step r g false true.
Proof.
  destruct r as [[| |] [|] d]; unfold container_write, try_write; simpl; try done.
  intros [= <-] n [_ [[_ Hn]|[? _]]]; [|done]. split; [done|right]. simpl. split; [done|lia].
Qed.

Lemma lock_step_put r x b : lock_step r (guard_put r x).1 b b.
Proof. by intros n. Qed.

Lemma lock_step_release r : lock_step r (write_unlock r) true false.
Proof. intros n [Hp [[_ Hn]|[_ Hn]]]; [lia|]. split; [done|left]. simpl. split; [done|lia]. Qed.

Lemma has_payload_ne (h : pheap) l l' v v' :
  has_payload h l v -> has_payload h l' v' -> v <> v' -> l <> l'.
Proof. intros [n Hl] [n' Hl'] Hne ->. rewrite Hl in Hl'. congruence. Qed.

(** What one step leaves of the facade, of its provider and of their
    locks. *)
Definition step_shape (h h' : pheap) (self : loc) (p : BinaryPluginImpl)
    (w : BinaryWebResourceProviderImpl) (k k' : caller) : Prop :=
  exists p' w', web_resource_provider p' = web_resource_provider p /\
    has_payload h' self (PBinaryPluginImpl p') /\
    has_payload h' (web_resource_provider p) (PBinaryWebResourceProviderImpl w') /\
    lock_step (context p) (context p') (holds_cell k) (holds_cell k') /\
    lock_step (wrp_context w) (wrp_context w') (holds_web k) (holds_web k').

Lemma shape_keep h h' X self p w k k' :
  vals_kept (fun _ _ => True) h h' -> rc_ok h' X -> self ∈ X ->
  has_payload h self (PBinaryPluginImpl p) ->
  has_payload h (web_resource_provider p) (PBinaryWebResourceProviderImpl w) ->
  holds_cell k' = holds_cell k -> holds_web k' = holds_web k -> step_shape h h' self p w k k'.
Proof.
  intros Hk Hrc Hin Hs Hw Ec Ew. destruct (kept_shape _ _ _ _ _ _ Hk Hrc Hin Hs Hw).
  exists p, w. rewrite Ec, Ew. split_and!; auto using lock_step_keep.
Qed.

Lemma shape_cell h self p w r' n k k' :
  h !! self = Some (Obj (PBinaryPluginImpl p) n) ->
  has_payload h (web_resource_provider p) (PBinaryWebResourceProviderImpl w) ->
  lock_step (context p) r' (holds_cell k) (holds_cell k') -> holds_web k' = holds_web k ->
  step_shape h (<[self := Obj (PBinaryPluginImpl (with_context p r')) n]> h) self p w k k'.
Proof.
  intros Hs Hw Hl Ew. exists (with_context p r'), w. rewrite Ew. split_and!; auto using lock_step_keep.
  - apply has_payload_insert_eq.
  - apply has_payload_insert_ne; [|exact Hw].
    apply (has_payload_ne h _ _ (PBinaryPluginImpl p) (PBinaryWebResourceProviderImpl w));
      [by exists n|exact Hw|done].
Qed.

Lemma shape_web h self p w r' m k k' :
  has_payload h self (PBinaryPluginImpl p) ->
  h !! web_resource_provider p = Some (Obj (PBinaryWebResourceProviderImpl w) m) ->
  lock_step (wrp_context w) r' (holds_web k) (holds_web k') -> holds_cell k' = holds_cell k ->
  step_shape h (<[web_resource_provider p :=
                   Obj (PBinaryWebResourceProviderImpl (MkBinaryWebResourceProviderImpl r')) m]> h)
    self p w k k'.
Proof.
  intros Hs Hw Hl Ec. exists p, (MkBinaryWebResourceProviderImpl r'). rewrite Ec.
  split_and!; auto using lock_step_keep.
  - apply has_payload_insert_ne; [|exact Hs].
    apply (has_payload_ne h _ _ (PBinaryWebResourceProviderImpl w) (PBinaryPluginImpl p));
      [by exists m|exact Hs|done].
  - apply has_payload_insert_eq.
Qed.

(** A step that only clones or drops, then returns a constant. *)
Lemma keep_inv {A B} (m : PM A) (b : B) h b' h' :
  preserves (vals_kept (fun _ _ => True)) m -> (m ;;; ret b) h = Some (b', h') ->
  b' = b /\ vals_kept (fun _ _ => True) h h'.
Proof. intros Hm (a & h1 & H1 & [= <- <-])%st_bind_inv. split; [done|]. by eapply Hm. Qed.

Lemma step_caller_shape self X h k k' h' p w :
  rc_ok h' X -> self ∈ X -> has_payload h self (PBinaryPluginImpl p) ->
  has_payload h (web_resource_provider p) (PBinaryWebResourceProviderImpl w) ->
  step_caller self k h = Some (k', h') -> step_shape h h' self p w k k'.
Proof.
  intros Hrc Hin Hs Hw Hst. destruct k as [[|c rest] pc]; [done|].
  unfold step_caller in Hst; cbn [calls at_pc] in Hst.
  destruct pc; apply st_bind_inv in Hst as (pc' & h1 & H1 & [= <- <-]); cbn [step_call] in H1;
    try (destruct (keep_inv _ _ _ _ _ (arc_clone_vals _ c) H1) as [-> Hk]
         || destruct (keep_inv _ _ _ _ _ (option_drop_vals _ _) H1) as [-> Hk];
         by eapply shape_keep).
  - destruct (modify_plugin_inv _ _ _ _ _ _ Hs H1) as (p' & n & Hf & Hn & ->).
    destruct (container_write (context p)) as [g|] eqn:Hcw; simplify_eq/=.
    apply shape_cell; [done|done|by apply lock_step_acquire|done].
  - destruct (modify_plugin_inv _ _ _ _ _ _ Hs H1) as (p' & n & Hf & Hn & ->). simplify_eq/=.
    apply shape_cell; [done|done|apply (lock_step_put _ c true)|done].
  - destruct (modify_plugin_inv _ _ _ _ _ _ Hs H1) as (p' & n & Hf & Hn & ->). simplify_eq/=.
    apply shape_cell; [done|done|apply lock_step_release|done].
  - destruct (modify_web_inv _ _ _ _ _ _ _ Hs Hw H1) as (w' & m & Hf & Hm & ->).
    destruct (container_write (wrp_context w)) as [g|] eqn:Hcw; simplify_eq/=.
    apply shape_web; [done|done|by apply lock_step_acquire|done].
  - destruct (modify_web_inv _ _ _ _ _ _ _ Hs Hw H1) as (w' & m & Hf & Hm & ->). simplify_eq/=.
    apply shape_web; [done|done|apply (lock_step_put _ c true)|done].
  - destruct (modify_web_inv _ _ _ _ _ _ _ Hs Hw H1) as (w' & m & Hf & Hm & ->). simplify_eq/=.
    apply shape_web; [done|done|apply lock_step_release|done].
  - eapply shape_keep; [by eapply arc_drop_vals|done|done|done|done|by destruct rest|by destruct rest].
Qed.

(** A caller that holds nothing. *)
Definition idle_caller : caller := Caller [] CBegin.

Lemma arc_sched_ok self E i s s' :
  self ∈ E -> arc_ok self E s -> arc_sched self i s = Some s' -> arc_ok self E s'.
Proof.
  intros Hin [Hrc (p & w & Hs & Hw & Hc & Hwb)] Hst.
  pose proof (arc_sched_rc self E i s s' Hrc Hst) as Hrc'. split; [done|].
  destruct s as [h ks]. unfold arc_sched in Hst. simpl in *.
  destruct (ks !! i) as [k|] eqn:Hk; [|done].
  destruct (step_caller self k h) as [[k' h']|] eqn:Hsc; [|done]. injection Hst as <-. simpl in *.
  destruct (step_caller_shape self _ h k k' h' p w Hrc' ltac:(multiset_solver) Hs Hw Hsc)
    as (p' & w' & Eweb & Hs' & Hw' & Lc & Lw).
  destruct (count_if_split holds_cell ks i k k' idle_caller Hk eq_refl) as [C1 C2].
  destruct (count_if_split holds_web ks i k k' idle_caller Hk eq_refl) as [W1 W2].
  exists p', w'. rewrite Eweb, C2, W2. split_and!; [done|done|apply Lc|apply Lw].
  - by rewrite <- C1.
  - by rewrite <- W1.
Qed.

Lemma star_arc_ok self E s s' :
  self ∈ E -> arc_ok self E s -> star (arc_step self) s s' -> arc_ok self E s'.
Proof.
  intros Hin Hok Hs. induction Hs as [|s1 s2 s3 [i Hi] _ IH]; [done|].
  apply IH. by eapply arc_sched_ok.
Qed.

(** ** No deadlock and no abort below the count bound *)

Lemma modify_plugin_some {A} self f h p p' (a : A) :
  has_payload h self (PBinaryPluginImpl p) -> f p = Some (p', a) ->
  exists h', modify_plugin self f h = Some (a, h').
Proof.
  intros [n Hs] Hf. unfold modify_plugin.
  rewrite (st_bind_Some _ _ _ _ _ (load_plugin_Some h self p (ex_intro _ n Hs))), Hf.
  rewrite (st_bind_Some _ _ _ _ _ (heap_write_Some _ _ _ _ Hs)). by eexists.
Qed.

Lemma modify_web_some {A} self f h p w w' (a : A) :
  has_payload h self (PBinaryPluginImpl p) ->
  has_payload h (web_resource_provider p) (PBinaryWebResourceProviderImpl w) -> f w = Some (w', a) ->
  exists h', modify_web self f h = Some (a, h').
Proof.
  intros Hs [m Hw] Hf. unfold modify_web.
  rewrite (st_bind_Some _ _ _ _ _ (load_plugin_Some h self p Hs)).
  rewrite (st_bind_Some _ _ _ _ _ (load_web_resource_provider_Some h _ w (ex_intro _ m Hw))), Hf.
  rewrite (st_bind_Some _ _ _ _ _ (heap_write_Some _ _ _ _ Hw)). by eexists.
Qed.

Lemma drop_ret_some {B} h R o (b : B) :
  rc_ok h (R ⊎ list_to_set_disj (option_handles o)) -> exists h', (option_drop o ;;; ret b) h = Some (b, h').
Proof.
  intros Hrc. destruct (option_drop_ok _ _ _ Hrc) as (h' & Hd & _).
  exists h'. by rewrite (st_bind_Some _ _ _ _ _ Hd).
Qed.

Lemma clone_ret_some {B} (h : pheap) c o (b : B) :
  h !! c = Some o -> (obj_strong o <= MAX_REFCOUNT)%Z ->
  exists h', (_ <- arc_clone c ;; ret b) h = Some (b, h').
Proof. intros Hc Hb. eexists. by rewrite (st_bind_Some _ _ _ _ _ (arc_clone_Some _ _ _ Hc Hb)). Qed.

(** Every step of a call can be taken, except taking a lock that is held:
    the owned handles are alive, the replaced ones can be dropped, the
    facade and its provider are in place. *)
Lemma step_call_progress self h p w c pc R :
  has_payload h self (PBinaryPluginImpl p) ->
  has_payload h (web_resource_provider p) (PBinaryWebResourceProviderImpl w) ->
  rc_ok h (R ⊎ call_handles c pc) -> (forall o, h !! c = Some o -> (obj_strong o <= MAX_REFCOUNT)%Z) ->
  pc <> CReturned ->
  (pc = CBegin -> at_rest (context p)) -> (pc = CForward -> at_rest (wrp_context w)) ->
  exists pc' h', step_call self c pc h = Some (pc', h').
Proof.
  intros Hs Hw Hrc Hb Hpc Hcell Hweb.
  destruct (rc_ok_live h _ c Hrc ltac:(destruct pc; simpl; multiset_solver)) as [oc Hoc].
  destruct pc; simpl; try done.
  - edestruct (modify_plugin_some (A := call_pc) self) as [h' ->]; [exact Hs| |by eauto].
    cbv beta. by rewrite container_write_at_rest by auto.
  - edestruct (clone_ret_some (B := call_pc) h c) as [h' ->]; eauto.
  - edestruct (modify_plugin_some (A := call_pc) self) as [h' ->]; [exact Hs|reflexivity|by eauto].
  - edestruct (drop_ret_some (B := call_pc) h (R ⊎ {[+ c +]})) as [h' ->]; [|by eauto].
    simpl in Hrc. by rewrite <- gmultiset_disj_union_assoc.
  - edestruct (modify_plugin_some (A := call_pc) self) as [h' ->]; [exact Hs|reflexivity|by eauto].
  - edestruct (clone_ret_some (B := call_pc) h c) as [h' ->]; eauto.
  - edestruct (modify_web_some (A := call_pc) self) as [h' ->]; [exact Hs|exact Hw| |by eauto].
    cbv beta. by rewrite container_write_at_rest by auto.
  - edestruct (modify_web_some (A := call_pc) self) as [h' ->]; [exact Hs|exact Hw|reflexivity|by eauto].
  - edestruct (drop_ret_some (B := call_pc) h (R ⊎ {[+ c +]})) as [h' ->]; [|by eauto].
    simpl in Hrc. by rewrite <- gmultiset_disj_union_assoc.
  - edestruct (modify_web_some (A := call_pc) self) as [h' ->]; [exact Hs|exact Hw|reflexivity|by eauto].
Qed.

Lemma step_caller_call self c rest pc pc' h h' :
  pc <> CReturned -> step_call self c pc h = Some (pc', h') ->
  step_caller self (Caller (c :: rest) pc) h = Some (Caller (c :: rest) pc', h').
Proof. intros Hpc Hs. unfold step_caller. destruct pc; try done; simpl; by rewrite (st_bind_Some _ _ _ _ _ Hs). Qed.

Lemma lock_held_free r n : lock_held r n -> n = 0 -> at_rest r.
Proof. intros [Hp [[Hs _]|[_ ->]]] Hn; [by split|lia]. Qed.

(** A caller with a call to make can take its next step, unless it waits
    for a lock another caller holds. *)
Lemma caller_progress self E h ks i k :
  self ∈ E -> arc_ok self E (h, ks) ->
  (forall l o, h !! l = Some o -> (obj_strong o <= MAX_REFCOUNT)%Z) ->
  ks !! i = Some k -> calls k <> [] ->
  (exists r, step_caller self k h = Some r) \/
  (at_pc k = CBegin /\ count_if holds_cell ks = 1) \/ (at_pc k = CForward /\ count_if holds_web ks = 1).
Proof.
  intros Hin [Hrc (p & w & Hs & Hw & Hc & Hwb)] Hb Hk Hne. simpl in *.
  rewrite (owned_all_lookup _ _ _ Hk) in Hrc.
  destruct k as [[|c rest] pc]; [done|]. clear Hne. unfold owned in Hrc; cbn [calls at_pc] in *.
  assert (Hrc' : rc_ok h ((E ⊎ owned_all (delete i ks) ⊎ list_to_set_disj rest) ⊎ call_handles c pc))
    by (by replace (E ⊎ owned_all (delete i ks) ⊎ list_to_set_disj rest ⊎ call_handles c pc)
          with (E ⊎ (call_handles c pc ⊎ list_to_set_disj rest ⊎ owned_all (delete i ks)))
          by multiset_solver).
  destruct (decide (pc = CReturned)) as [->|Hpc].
  { left. destruct (arc_drop_ok _ _ _ Hrc') as (h' & Hd & _).
    eexists. unfold step_caller. simpl. by rewrite (st_bind_Some _ _ _ _ _ Hd). }
  destruct (decide (pc = CBegin /\ count_if holds_cell ks = 1)) as [|Hnc]; [by right; left|].
  destruct (decide (pc = CForward /\ count_if holds_web ks = 1)) as [|Hnw]; [by right; right|].
  left. destruct (step_call_progress self h p w c pc _ Hs Hw Hrc' (Hb c) Hpc) as (pc' & h' & Hst).
  - intros ->. apply (lock_held_free _ _ Hc). destruct Hc as [_ [[_ ?]|[_ ?]]]; [done|naive_solver].
  - intros ->. apply (lock_held_free _ _ Hwb). destruct Hwb as [_ [[_ ?]|[_ ?]]]; [done|naive_solver].
  - eexists. by apply step_caller_call.
Qed.

Lemma holder_busy k :
  holds_cell k = true \/ holds_web k = true ->
  calls k <> [] /\ at_pc k <> CBegin /\ at_pc k <> CForward.
Proof. destruct k as [[|c rest] []]; simpl; intros [H|H]; done. Qed.

Lemma arc_progress self E s :
  self ∈ E -> arc_ok self E s ->
  (forall l o, s.1 !! l = Some o -> (obj_strong o <= MAX_REFCOUNT)%Z) ->
  all_returned s.2 \/ exists s', arc_step self s s'.
Proof.
  destruct s as [h ks]. intros Hin Hok Hb. simpl in *.
  destruct (decide (all_returned ks)) as [|Hn]; [by left|right].
  assert (Hstep : forall i k r, ks !! i = Some k -> step_caller self k h = Some r ->
                    exists s', arc_step self (h, ks) s').
  { intros i k [k' h'] Hk Hs. exists (h', <[i := k']> ks), i. unfold arc_sched. simpl. by rewrite Hk, Hs. }
  assert (Hholder : forall f, (forall k, f k = true -> holds_cell k = true \/ holds_web k = true) ->
                    count_if f ks = 1 -> exists s', arc_step self (h, ks) s').
  { intros f Hf Hc. destruct (count_if_exists f ks) as (j & k & Hj & Hfk); [lia|].
    destruct (holder_busy k (Hf k Hfk)) as (Hne & Hb1 & Hb2).
    destruct (caller_progress self E h ks j k Hin Hok Hb Hj Hne) as [[r Hr]|[[]|[]]]; [|done|done].
    eauto. }
  apply not_Forall_Exists in Hn; [|apply _]. apply Exists_exists in Hn as (k & Hk & Hne).
  apply list_elem_of_lookup in Hk as [i Hk].
  destruct (caller_progress self E h ks i k Hin Hok Hb Hk Hne) as [[r Hr]|[[_ Hc]|[_ Hc]]];
    [eauto|apply (Hholder holds_cell)|apply (Hholder holds_web)]; auto.
Qed.

(** C18. Concurrent [set_context] callers never deadlock and never panic
    on the heap: in every state reachable by any interleaving, either
    every call has returned or some caller can take its next step (no lock
    is poisoned, the holder of a lock can always proceed, every owned
    handle is alive and every replaced one can be dropped), as long as no
    object has more than [isize::MAX] handles. *)
Theorem concurrent_calls_progress self E s0 s :
  self ∈ E -> arc_ok self E s0 -> star (arc_step self) s0 s ->
  (forall l o, s.1 !! l = Some o -> (obj_strong o <= MAX_REFCOUNT)%Z) ->
  all_returned s.2 \/ exists s', arc_step self s s'.
Proof. intros Hin Hok Hs Hb. exact (arc_progress self E s Hin (star_arc_ok self E s0 s Hin Hok Hs) Hb). Qed.

(** ** Once every call has returned *)

(** A caller with no call left holds neither guard. *)
Lemma returned_holds_none (f : caller -> bool) ks :
  (forall k, calls k = [] -> f k = false) -> all_returned ks -> count_if f ks = 0.
Proof.
  intros Hf Hr. apply count_if_zero. intros i k Hk. apply Hf.
  exact (Forall_lookup_1 _ _ _ _ Hr Hk).
Qed.

Lemma lock_held_none (r : PluginContextContainer) : lock_held r 0 -> at_rest r.
Proof. unfold lock_held, at_rest. intros [Hp [[Hs _]|[_ Hn]]]; [done|lia]. Qed.

(** C19. Quiescence: under every interleaving of concurrent
    [set_context] callers, once every call has returned both write locks
    are free and unpoisoned (no guard is left behind, so a later call can
    take them) and every count is exactly the number of handles held by
    the host and the objects, with none left to the callers. *)
Theorem concurrent_calls_quiesce self E s0 s :
  self ∈ E -> arc_ok self E s0 -> star (arc_step self) s0 s -> all_returned s.2 ->
  rc_ok s.1 E /\
  exists p w, has_payload s.1 self (PBinaryPluginImpl p) /\
    has_payload s.1 (web_resource_provider p) (PBinaryWebResourceProviderImpl w) /\
    at_rest (context p) /\ at_rest (wrp_context w).
Proof.
  intros Hin Hok Hs Hr. destruct (star_arc_ok self E s0 s Hin Hok Hs) as [Hrc (p & w & Hp & Hw & Hc & Hwc)].
  rewrite (owned_all_returned _ Hr), gmultiset_disj_union_right_id in Hrc.
  rewrite (returned_holds_none holds_cell s.2) in Hc; [|by intros [[] ?] ?|done].
  rewrite (returned_holds_none holds_web s.2) in Hwc; [|by intros [[] ?] ?|done].
  split; [done|]. exists p, w. split_and!; [done|done|by apply lock_held_none|by apply lock_held_none].
Qed.

(** ** Witnesses *)

(** The booted facade and two host contexts, numbers 7 and 8 at locations
    6 and 7, each handed to its own caller. *)
Definition two_ctx_heap : pheap :=
  match new_context 8 ctx_heap with Some (_, h) => h | None => ∅ end.

Definition racing_callers : list caller := [Caller [Loc 6] CBegin; Caller [Loc 7] CBegin].

(** Caller 0 finishes line 81, caller 1 runs its whole call, then caller 0
    forwards: the facade ends with context 8, the provider with context 7. *)
Definition race_schedule : list nat :=
  [0; 0; 0; 0; 0; 1; 1; 1; 1; 1; 1; 1; 1; 1; 1; 1; 0; 0; 0; 0; 0; 0].

Lemma concurrent_counts_exact_witness :
  match run_arc boot_self race_schedule (two_ctx_heap, racing_callers) with
  | Some s' => rc_ok s'.1 ({[+ boot_self +]} ⊎ owned_all s'.2) /\
               (all_returned s'.2 -> rc_ok s'.1 {[+ boot_self +]})
  | None => False
  end.
Proof.
  destruct (run_arc boot_self race_schedule (two_ctx_heap, racing_callers)) as [s'|] eqn:Hr;
    [|vm_compute in Hr; discriminate].
  apply (concurrent_counts_exact boot_self {[+ boot_self +]} (two_ctx_heap, racing_callers) s').
  - by_decide.
  - exact (run_arc_star _ _ _ _ Hr).
Defined.

(** Six steps into the race: caller 0 has finished line 81, caller 1
    holds the facade's lock. *)
Definition mid_race : list nat := [0; 0; 0; 0; 0; 1].

Lemma concurrent_calls_progress_witness :
  match run_arc boot_self mid_race (two_ctx_heap, racing_callers) with
  | Some s => all_returned s.2 \/ exists s', arc_step boot_self s s'
  | None => False
  end.
Proof.
  destruct (run_arc boot_self mid_race (two_ctx_heap, racing_callers)) as [s|] eqn:Hr;
    [|vm_compute in Hr; discriminate].
  apply (concurrent_calls_progress boot_self {[+ boot_self +]} (two_ctx_heap, racing_callers) s).
  - apply gmultiset_elem_of_singleton. reflexivity.
  - split; [by_decide|]. exists boot_plugin, boot_web. split_and!; by_decide.
  - exact (run_arc_star _ _ _ _ Hr).
  - assert (Hb : map_Forall (fun _ o => (obj_strong o <= MAX_REFCOUNT)%Z) s.1).
    { vm_compute in Hr. injection Hr as <-. by_decide. }
    intros l o Hl. exact (map_Forall_lookup_1 _ _ _ _ Hb Hl).
Defined.

(** The full race: both calls return, both locks are free again. *)
Lemma concurrent_calls_quiesce_witness :
  match run_arc boot_self race_schedule (two_ctx_heap, racing_callers) with
  | Some s => rc_ok s.1 {[+ boot_self +]} /\
      exists p w, has_payload s.1 boot_self (PBinaryPluginImpl p) /\
        has_payload s.1 (web_resource_provider p) (PBinaryWebResourceProviderImpl w) /\
        at_rest (context p) /\ at_rest (wrp_context w)
  | None => False
  end.
Proof.
  destruct (run_arc boot_self race_schedule (two_ctx_heap, racing_callers)) as [s|] eqn:Hr;
    [|vm_compute in Hr; discriminate].
  apply (concurrent_calls_quiesce boot_self {[+ boot_self +]} (two_ctx_heap, racing_callers) s).
  - apply gmultiset_elem_of_singleton. reflexivity.
  - split; [by_decide|]. exists boot_plugin, boot_web. split_and!; by_decide.
  - exact (run_arc_star _ _ _ _ Hr).
  - vm_compute in Hr. injection Hr as <-. by_decide.
Defined.
