(* ===== verification/SoloCaller.v ===== *)
(** * A concurrent caller running alone: the contract of [set_context]

    [ConcurrentArc] splits [set_context] (src/src/plugin.rs lines 80-84)
    into eleven atomic steps.  Run one after the other with no other
    caller in between, they compute exactly what the sequential model of
    [Plugin] computes: the same heap, and an abort in the same cases.  The
    steps differ from the sequential statement only in writing the
    facade's (and the provider's) object three times instead of once and
    in dropping the replaced context before the guard rather than after
    it; a context holds no handles, so its drop is a pure change of the
    heap ([drop_leaf]) that commutes with those writes
    ([solo_run_sequential]).  With it, [solo_caller_spec] states what the
    eleven steps themselves achieve: the call returns, both containers
    are at rest holding the new context, and the counts stay exact. *)

From S2P Require Import Prelude Arc RwLock Query Plugin Facade Lifecycle ConcurrentArc.

(** ** Dropping a handle to a context *)

(** The heap after dropping an [Option] of a handle to an object that
    holds no handles; [None] for a dangling handle. *)
Definition drop_leaf (ol : option loc) (h : pheap) : option pheap :=
  match ol with
  | None => Some h
  | Some x =>
      match h !! x with
      | None => None
      | Some o => Some (if decide (obj_strong o = 1%Z) then delete x h
                        else <[x := Obj (obj_val o) (obj_strong o - 1)%Z]> h)
      end
  end.

(** The objects at [x] are contexts, or [x] is free. *)
Definition ctx_at (h : pheap) (x : loc) : Prop :=
  forall o, h !! x = Some o -> exists id, obj_val o = PHostPluginContext id.

Lemma option_drop_leaf ol h :
  (forall x, ol = Some x -> ctx_at h x) ->
  option_drop ol h = (fun h' => (tt, h')) <$> drop_leaf ol h.
Proof.
  intros Hc. destruct ol as [x|]; [|done]. simpl. unfold arc_drop. simpl.
  destruct (h !! x) as [o|] eqn:Hx; [|done]. destruct (Hc x eq_refl o Hx) as [id Hid].
  case_decide; [|done]. by rewrite Hid.
Qed.

Lemma drop_leaf_insert ol l o h :
  ol <> Some l -> drop_leaf ol (<[l := o]> h) = (fun h' => <[l := o]> h') <$> drop_leaf ol h.
Proof.
  intros Hne. destruct ol as [x|]; [|done]. assert (x <> l) by congruence. simpl.
  rewrite lookup_insert_ne by done. destruct (h !! x) as [o'|]; [|done]. simpl. f_equal.
  case_decide; [by rewrite delete_insert_ne|by rewrite insert_insert_ne].
Qed.

Lemma drop_leaf_lookup_ne ol h h' y :
  drop_leaf ol h = Some h' -> ol <> Some y -> h' !! y = h !! y.
Proof.
  destruct ol as [x|]; simpl; [|by intros [= <-]]. intros Hd Hne.
  destruct (h !! x) as [o|]; [|done]. injection Hd as <-. assert (x <> y) by congruence.
  case_decide; [by rewrite lookup_delete_ne|by rewrite lookup_insert_ne].
Qed.

Lemma ctx_at_insert_ne h x l o : ctx_at h x -> l <> x -> ctx_at (<[l := o]> h) x.
Proof. intros Hc Hne o'. rewrite lookup_insert_ne by done. apply Hc. Qed.

Lemma ctx_at_insert_ctx h x l id n : ctx_at h x -> ctx_at (<[l := Obj (PHostPluginContext id) n]> h) x.
Proof.
  intros Hc o. destruct (decide (l = x)) as [->|Hne].
  - rewrite lookup_insert_eq. intros [= <-]. by exists id.
  - rewrite lookup_insert_ne by done. apply Hc.
Qed.

Lemma ctx_at_drop_leaf ol h h' x : ctx_at h x -> drop_leaf ol h = Some h' -> ctx_at h' x.
Proof.
  intros Hc Hd o. destruct ol as [y|]; simpl in Hd; [|injection Hd as <-; apply Hc].
  destruct (h !! y) as [oy|] eqn:Hy; [|done]. injection Hd as <-.
  destruct (decide (y = x)) as [->|Hne].
  - case_decide; [by rewrite lookup_delete_eq|]. rewrite lookup_insert_eq. intros [= <-]. by apply (Hc oy).
  - case_decide; [rewrite lookup_delete_ne by done|rewrite lookup_insert_ne by done]; apply Hc.
Qed.

(** ** The steps of a call as explicit heap updates *)

Lemma modify_plugin_exact {A} self f g q k q' (a : A) :
  g !! self = Some (Obj (PBinaryPluginImpl q) k) -> f q = Some (q', a) ->
  modify_plugin self f g = Some (a, <[self := Obj (PBinaryPluginImpl q') k]> g).
Proof.
  intros Hs Hf. unfold modify_plugin.
  rewrite (st_bind_Some _ _ _ _ _ (load_plugin_Some g self q (ex_intro _ k Hs))), Hf.
  by rewrite (st_bind_Some _ _ _ _ _ (heap_write_Some _ _ _ _ Hs)).
Qed.

Lemma modify_web_exact {A} self f g q k v m v' (a : A) :
  g !! self = Some (Obj (PBinaryPluginImpl q) k) ->
  g !! web_resource_provider q = Some (Obj (PBinaryWebResourceProviderImpl v) m) ->
  f v = Some (v', a) ->
  modify_web self f g =
    Some (a, <[web_resource_provider q := Obj (PBinaryWebResourceProviderImpl v') m]> g).
Proof.
  intros Hs Hw Hf. unfold modify_web.
  rewrite (st_bind_Some _ _ _ _ _ (load_plugin_Some g self q (ex_intro _ k Hs))).
  rewrite (st_bind_Some _ _ _ _ _ (load_web_resource_provider_Some g _ v (ex_intro _ m Hw))), Hf.
  by rewrite (st_bind_Some _ _ _ _ _ (heap_write_Some _ _ _ _ Hw)).
Qed.

Section Steps.
Context (self c : loc) (rest : list loc).

Local Abbreviation at_step pc := (Caller (c :: rest) pc).

(** A step that is not the last one of the call. *)
Lemma solo_call pc g :
  pc <> CReturned ->
  step_caller self (at_step pc) g = (fun r => (at_step r.1, r.2)) <$> step_call self c pc g.
Proof.
  intros Hpc. unfold step_caller. cbn [calls at_pc].
  destruct pc; try done; unfold st_bind; by destruct (step_call _ _ _ g) as [[]|].
Qed.

Lemma solo_last g :
  step_caller self (at_step CReturned) g = (fun r => (Caller rest CBegin, r.2)) <$> arc_drop c g.
Proof. unfold step_caller. cbn [calls at_pc]. unfold st_bind. by destruct (arc_drop c g) as [[]|]. Qed.

Lemma solo_lock g q k :
  g !! self = Some (Obj (PBinaryPluginImpl q) k) -> at_rest (context q) ->
  step_call self c CBegin g =
    Some (CLocked,
          <[self := Obj (PBinaryPluginImpl (with_context q (MkRwLock WriteLocked false (rw_data (context q))))) k]> g).
Proof. intros Hs Hr. apply (modify_plugin_exact self _ g q k); [done|]. cbn. by rewrite container_write_at_rest. Qed.

Lemma solo_clone pc pc' g :
  (pc = CLocked /\ pc' = CCloned) \/ (pc = CUnlocked /\ pc' = CForward) ->
  step_call self c pc g = (fun r => (pc', r.2)) <$> arc_clone c g.
Proof. intros [[-> ->]|[-> ->]]; simpl; unfold st_bind; by destruct (arc_clone c g) as [[]|]. Qed.

Lemma solo_put g q k :
  g !! self = Some (Obj (PBinaryPluginImpl q) k) ->
  step_call self c CCloned g =
    Some (CReplaced (rw_data (context q)),
          <[self := Obj (PBinaryPluginImpl (with_context q (guard_put (context q) c).1)) k]> g).
Proof. intros Hs. by apply (modify_plugin_exact self _ g q k). Qed.

Lemma solo_drop old pc pc' g :
  (pc = CReplaced old /\ pc' = COldDropped) \/ (pc = CWebReplaced old /\ pc' = CWebOldDropped) ->
  step_call self c pc g = (fun r => (pc', r.2)) <$> option_drop old g.
Proof. intros [[-> ->]|[-> ->]]; simpl; unfold st_bind; by destruct (option_drop old g) as [[]|]. Qed.

Lemma solo_unlock g q k :
  g !! self = Some (Obj (PBinaryPluginImpl q) k) ->
  step_call self c COldDropped g =
    Some (CUnlocked, <[self := Obj (PBinaryPluginImpl (with_context q (write_unlock (context q)))) k]> g).
Proof. intros Hs. by apply (modify_plugin_exact self _ g q k). Qed.

Lemma solo_web_lock g q k v m :
  g !! self = Some (Obj (PBinaryPluginImpl q) k) ->
  g !! web_resource_provider q = Some (Obj (PBinaryWebResourceProviderImpl v) m) ->
  at_rest (wrp_context v) ->
  step_call self c CForward g =
    Some (CWebLocked, <[web_resource_provider q := Obj (PBinaryWebResourceProviderImpl
            (MkBinaryWebResourceProviderImpl (MkRwLock WriteLocked false (rw_data (wrp_context v))))) m]> g).
Proof. intros Hs Hw Hr. eapply modify_web_exact; [done|done|]. cbn. by rewrite container_write_at_rest. Qed.

Lemma solo_web_put g q k v m :
  g !! self = Some (Obj (PBinaryPluginImpl q) k) ->
  g !! web_resource_provider q = Some (Obj (PBinaryWebResourceProviderImpl v) m) ->
  step_call self c CWebLocked g =
    Some (CWebReplaced (rw_data (wrp_context v)), <[web_resource_provider q :=
            Obj (PBinaryWebResourceProviderImpl
                   (MkBinaryWebResourceProviderImpl (guard_put (wrp_context v) c).1)) m]> g).
Proof. intros Hs Hw. by eapply modify_web_exact. Qed.

Lemma solo_web_unlock g q k v m :
  g !! self = Some (Obj (PBinaryPluginImpl q) k) ->
  g !! web_resource_provider q = Some (Obj (PBinaryWebResourceProviderImpl v) m) ->
  step_call self c CWebOldDropped g =
    Some (CReturned, <[web_resource_provider q := Obj (PBinaryWebResourceProviderImpl
            (MkBinaryWebResourceProviderImpl (write_unlock (wrp_context v)))) m]> g).
Proof. intros Hs Hw. by eapply modify_web_exact. Qed.

End Steps.

Lemma run_arc_solo self sched g k :
  run_arc self (0 :: sched) (g, [k]) =
    match step_caller self k g with Some (k', g') => run_arc self sched (g', [k']) | None => None end.
Proof. simpl. unfold arc_sched. simpl. by destruct (step_caller self k g) as [[]|]. Qed.

Lemma arc_clone_insert_ne (h : pheap) c l o :
  c <> l -> arc_clone c (<[l := o]> h) = (fun r => (r.1, <[l := o]> r.2)) <$> arc_clone c h.
Proof.
  intros Hne. unfold arc_clone. rewrite lookup_insert_ne by done.
  destruct (h !! c) as [oc|]; [|done]. case_decide; [done|]. simpl. by rewrite insert_insert_ne.
Qed.

Lemma option_drop_insert_ne ol (h : pheap) l o :
  ol <> Some l -> (forall x, ol = Some x -> ctx_at h x) ->
  option_drop ol (<[l := o]> h) = (fun h' => (tt, <[l := o]> h')) <$> drop_leaf ol h.
Proof.
  intros Hne Hc. rewrite option_drop_leaf.
  - rewrite drop_leaf_insert by done. by destruct (drop_leaf ol h).
  - intros x -> o'. rewrite lookup_insert_ne by congruence. by apply (Hc x eq_refl).
Qed.

(** [n] steps of a caller running alone. *)
Fixpoint solo_run (self : loc) (n : nat) (k : caller) (g : pheap) : option (caller * pheap) :=
  match n with
  | 0 => Some (k, g)
  | S n' => match step_caller self k g with Some (k', g') => solo_run self n' k' g' | None => None end
  end.

Lemma run_arc_solo_run self n k g :
  run_arc self (repeat 0 n) (g, [k]) = (fun r => (r.2, [r.1])) <$> solo_run self n k g.
Proof.
  revert k g. induction n as [|n IH]; intros k g; [done|].
  rewrite (run_arc_solo self (repeat 0 n)). simpl. by destruct (step_caller self k g) as [[]|].
Qed.

Lemma solo_run_add self a b k g :
  solo_run self (a + b) k g = match solo_run self a k g with Some (k', g') => solo_run self b k' g' | None => None end.
Proof.
  revert k g. induction a as [|a IH]; intros k g; [done|].
  simpl. destruct (step_caller self k g) as [[]|]; [apply IH|done].
Qed.

(** ** Line 81 *)

Section Head.
Context (self c : loc) (rest : list loc) (p : BinaryPluginImpl) (n : Z) (id : nat) (m : Z) (h : pheap).
Hypothesis Hs : h !! self = Some (Obj (PBinaryPluginImpl p) n).
Hypothesis Hr : at_rest (context p).
Hypothesis Hcm : h !! c = Some (Obj (PHostPluginContext id) m).
Hypothesis Hcs : c <> self.
Hypothesis Hold : forall x, rw_data (context p) = Some x -> x <> self /\ ctx_at h x.

(** The sequential statement of line 81: clone, store, drop the old. *)
Definition head_seq : option pheap :=
  match arc_clone c h with
  | None => None
  | Some (_, h1) =>
      drop_leaf (rw_data (context p)) (<[self := Obj (PBinaryPluginImpl (with_context p (stored c))) n]> h1)
  end.

Lemma head_seq_set_context :
  set_context self c h =
    match head_seq with
    | None => None
    | Some h3 => (c2 <- arc_clone c ;; web_resource_provider_set_context (web_resource_provider p) c2 ;;;
                  arc_drop c ;;; ret (@Ok unit PluginError tt)) h3
    end.
Proof.
  unfold set_context, head_seq.
  rewrite (st_bind_Some _ _ _ _ _ (load_plugin_Some h self p (ex_intro _ n Hs))).
  rewrite container_write_at_rest by done. cbv beta iota.
  unfold st_bind at 1. destruct (arc_clone c h) as [[c1 h1]|] eqn:Hcl; [|done].
  apply arc_clone_inv in Hcl as (o & Ho & _ & -> & ->). rewrite Hcm in Ho. injection Ho as <-.
  cbn [guard_replace write_unlock rw_state rw_poisoned rw_data].
  rewrite (st_bind_Some _ _ _ _ _ (heap_write_Some _ self (Obj (PBinaryPluginImpl p) n) _
    ltac:(by rewrite lookup_insert_ne))).
  unfold stored. cbn [write_unlock rw_poisoned rw_data]. unfold st_bind at 1. rewrite option_drop_leaf.
  - by destruct (drop_leaf _ _).
  - intros x Hx o'. destruct (Hold x Hx) as [Hxs Hc].
    rewrite lookup_insert_ne by done. apply ctx_at_insert_ctx, Hc.
Qed.

Lemma solo_head :
  solo_run self 5 (Caller (c :: rest) CBegin) h = (fun h3 => (Caller (c :: rest) CUnlocked, h3)) <$> head_seq.
Proof.
  cbn [solo_run]. rewrite solo_call, (solo_lock _ _ _ p n Hs Hr) by done. cbn [fmap option_fmap option_map fst snd].
  rewrite solo_call, (solo_clone _ _ CLocked CCloned), arc_clone_insert_ne by (done || by left).
  unfold head_seq. destruct (arc_clone c h) as [[c1 h1]|] eqn:Hcl; [|done].
  apply arc_clone_inv in Hcl as (o & Ho & _ & -> & ->). rewrite Hcm in Ho. injection Ho as <-.
  cbn [fmap option_fmap option_map fst snd].
  rewrite solo_call, (solo_put _ _ _ _ n (lookup_insert_eq _ _ _)) by done. rewrite insert_insert_eq.
  cbn [fmap option_fmap option_map fst snd].
  assert (Hctx : forall x, rw_data (context p) = Some x -> ctx_at (<[c := Obj (PHostPluginContext id) (m + 1)%Z]> h) x)
    by (intros x Hx; apply ctx_at_insert_ctx, (Hold x Hx)).
  assert (Hns : rw_data (context p) <> Some self) by (intros Hx; by destruct (Hold _ Hx)).
  rewrite solo_call, (solo_drop _ _ _ _ COldDropped), option_drop_insert_ne by (done || by left).
  cbn [context with_context rw_data obj_val obj_strong]. rewrite (drop_leaf_insert _ self) by done.
  destruct (drop_leaf _ _) as [h1'|]; [|done]. cbn [fmap option_fmap option_map fst snd].
  rewrite solo_call, (solo_unlock _ _ _ _ n (lookup_insert_eq _ _ _)) by done.
  by rewrite insert_insert_eq.
Qed.

End Head.

(** ** Lines 82-84 *)

Section Tail.
Context (self c : loc) (rest : list loc) (p : BinaryPluginImpl) (w : BinaryWebResourceProviderImpl)
  (n mw : Z) (h3 : pheap).
Hypothesis Hs : h3 !! self = Some (Obj (PBinaryPluginImpl p) n).
Hypothesis Hw : h3 !! web_resource_provider p = Some (Obj (PBinaryWebResourceProviderImpl w) mw).
Hypothesis Hwr : at_rest (wrp_context w).
Hypothesis Hcm : ctx_at h3 c.
Hypothesis Hcs : c <> self.
Hypothesis Hcw : c <> web_resource_provider p.
Hypothesis Hsw : self <> web_resource_provider p.
Hypothesis Hwold : forall x, rw_data (wrp_context w) = Some x ->
  x <> self /\ x <> web_resource_provider p /\ ctx_at h3 x.

Local Abbreviation web := (web_resource_provider p).

(** The sequential lines 82-84: clone, the provider stores the clone and
    drops its old context, the parameter is dropped. *)
Definition tail_seq : option pheap :=
  match arc_clone c h3 with
  | None => None
  | Some (_, h4) =>
      match drop_leaf (rw_data (wrp_context w))
              (<[web := Obj (PBinaryWebResourceProviderImpl (MkBinaryWebResourceProviderImpl (stored c))) mw]> h4) with
      | None => None
      | Some h6 => snd <$> arc_drop c h6
      end
  end.

Lemma clone_c_inv h4 c1 :
  arc_clone c h3 = Some (c1, h4) ->
  c1 = c /\ exists id k, h4 = <[c := Obj (PHostPluginContext id) (k + 1)%Z]> h3.
Proof.
  intros (o & Ho & _ & -> & ->)%arc_clone_inv. destruct (Hcm o Ho) as [id Hid].
  split; [done|]. exists id, (obj_strong o). by rewrite Hid.
Qed.

(** The provider's [set_context] stores the context and drops its old one. *)
Lemma web_set_context_leaf g :
  g !! web = Some (Obj (PBinaryWebResourceProviderImpl w) mw) ->
  (forall x, rw_data (wrp_context w) = Some x -> ctx_at g x) ->
  web_resource_provider_set_context web c g =
    (fun g' => (tt, g')) <$> drop_leaf (rw_data (wrp_context w))
      (<[web := Obj (PBinaryWebResourceProviderImpl (MkBinaryWebResourceProviderImpl (stored c))) mw]> g).
Proof.
  intros Hg Hc. unfold web_resource_provider_set_context.
  rewrite (st_bind_Some _ _ _ _ _ (load_web_resource_provider_Some g web w (ex_intro _ mw Hg))).
  rewrite container_replace_at_rest by done. cbn [guard_replace write_unlock rw_state rw_poisoned rw_data].
  rewrite (st_bind_Some _ _ _ _ _ (heap_write_Some _ _ _ _ Hg)). apply option_drop_leaf.
  intros x Hx o. destruct (Hwold x Hx) as (? & ? & _). rewrite lookup_insert_ne by done. by apply Hc.
Qed.

Lemma tail_seq_forward :
  (c2 <- arc_clone c ;; web_resource_provider_set_context web c2 ;;; arc_drop c ;;;
   ret (@Ok unit PluginError tt)) h3 = (fun h7 => (Ok tt, h7)) <$> tail_seq.
Proof.
  unfold tail_seq, st_bind at 1. destruct (arc_clone c h3) as [[c1 h4]|] eqn:Hcl; [|done].
  destruct (clone_c_inv _ _ Hcl) as [-> (id & k & ->)]. unfold st_bind at 1.
  rewrite web_set_context_leaf.
  - destruct (drop_leaf _ _) as [h6|]; [|done]. cbn [fmap option_fmap option_map].
    unfold st_bind. destruct (arc_drop c h6) as [[[] h7]|]; done.
  - by rewrite lookup_insert_ne.
  - intros x Hx. apply ctx_at_insert_ctx. by destruct (Hwold x Hx) as (? & ? & ?).
Qed.

Lemma solo_tail :
  solo_run self 6 (Caller (c :: rest) CUnlocked) h3 = (fun h7 => (Caller rest CBegin, h7)) <$> tail_seq.
Proof.
  cbn [solo_run]. rewrite solo_call, (solo_clone _ _ CUnlocked CForward) by (done || by right).
  unfold tail_seq. destruct (arc_clone c h3) as [[c1 h4]|] eqn:Hcl; [|done].
  destruct (clone_c_inv _ _ Hcl) as [-> (id & k & ->)]. cbn [fmap option_fmap option_map fst snd].
  assert (Hs4 : <[c := Obj (PHostPluginContext id) (k + 1)%Z]> h3 !! self = Some (Obj (PBinaryPluginImpl p) n))
    by by rewrite lookup_insert_ne.
  assert (Hw4 : <[c := Obj (PHostPluginContext id) (k + 1)%Z]> h3 !! web = Some (Obj (PBinaryWebResourceProviderImpl w) mw))
    by by rewrite lookup_insert_ne.
  rewrite solo_call, (solo_web_lock _ _ _ _ _ _ _ Hs4 Hw4 Hwr) by done. cbn [fmap option_fmap option_map fst snd].
  set (W7 := Obj (PBinaryWebResourceProviderImpl
                   (MkBinaryWebResourceProviderImpl (MkRwLock WriteLocked false (rw_data (wrp_context w))))) mw).
  assert (Hs5 : <[web := W7]> (<[c := Obj (PHostPluginContext id) (k + 1)%Z]> h3) !! self =
                Some (Obj (PBinaryPluginImpl p) n)) by by rewrite lookup_insert_ne.
  rewrite solo_call, (solo_web_put _ _ _ p n _ mw Hs5 (lookup_insert_eq _ _ _)) by done.
  rewrite insert_insert_eq. cbn [fmap option_fmap option_map fst snd wrp_context rw_data].
  assert (Hnw : rw_data (wrp_context w) <> Some web) by (intros Hx; by destruct (Hwold _ Hx) as (? & ? & ?)).
  assert (Hns : rw_data (wrp_context w) <> Some self) by (intros Hx; by destruct (Hwold _ Hx) as (? & ? & ?)).
  rewrite solo_call, (solo_drop _ _ _ _ CWebOldDropped), option_drop_insert_ne by (done || by right ||
    (intros x Hx; apply ctx_at_insert_ctx; by destruct (Hwold x Hx) as (? & ? & ?))).
  rewrite (drop_leaf_insert _ web) by done.
  destruct (drop_leaf _ _) as [h6|] eqn:Hd; [|done]. cbn [fmap option_fmap option_map fst snd].
  rewrite solo_call, (solo_web_unlock _ _ _ p n _ mw) by
    (done || by rewrite lookup_insert_eq || (rewrite lookup_insert_ne by done; by rewrite (drop_leaf_lookup_ne _ _ _ _ Hd))).
  rewrite insert_insert_eq. cbn [fmap option_fmap option_map fst snd solo_run].
  rewrite solo_last. by destruct (arc_drop c _) as [[]|].
Qed.

End Tail.

(** ** The equivalence *)

Lemma is_context_ctx_at h x : is_context h x -> ctx_at h x.
Proof. intros [id [n Hx]] o Ho. rewrite Hx in Ho. injection Ho as <-. by exists id. Qed.

Lemma context_ne h x l v : is_context h x -> has_payload h l v -> (forall id, v <> PHostPluginContext id) -> x <> l.
Proof. intros [id Hx] Hl Hv. eapply has_payload_ne; [exact Hx|exact Hl|]. intros Heq. by apply (Hv id). Qed.

(** The heap after line 81 still has the facade, its provider and the
    contexts in place. *)
Lemma head_seq_shape self c p w n mw id m h h3 :
  h !! self = Some (Obj (PBinaryPluginImpl p) n) ->
  h !! web_resource_provider p = Some (Obj (PBinaryWebResourceProviderImpl w) mw) ->
  h !! c = Some (Obj (PHostPluginContext id) m) ->
  (forall x, rw_data (context p) = Some x -> x <> self /\ x <> web_resource_provider p) ->
  c <> self -> head_seq self c p n h = Some h3 ->
  h3 !! self = Some (Obj (PBinaryPluginImpl (with_context p (stored c))) n) /\
  h3 !! web_resource_provider p = Some (Obj (PBinaryWebResourceProviderImpl w) mw) /\
  (forall x, ctx_at h x -> ctx_at h3 x).
Proof.
  intros Hs Hw Hc Hold Hcs Hh. unfold head_seq in Hh.
  destruct (arc_clone c h) as [[c1 h1]|] eqn:Hcl; [|done].
  apply arc_clone_inv in Hcl as (o & Ho & _ & -> & ->). rewrite Hc in Ho. injection Ho as <-.
  assert (Hns : forall l, rw_data (context p) = Some l -> l <> self /\ l <> web_resource_provider p) by done.
  assert (Hcw : c <> web_resource_provider p) by (intros ->; congruence).
  split_and!.
  - rewrite (drop_leaf_lookup_ne _ _ _ _ Hh) by (intros Hx; by destruct (Hns _ Hx)).
    by rewrite lookup_insert_eq.
  - rewrite (drop_leaf_lookup_ne _ _ _ _ Hh) by (intros Hx; by destruct (Hns _ Hx)).
    rewrite !lookup_insert_ne; [done|done|]. intros Heq. rewrite <- Heq in Hw. congruence.
  - intros x Hx. eapply ctx_at_drop_leaf; [|exact Hh].
    destruct (decide (self = x)) as [->|Hne].
    + intros o' Ho'. exfalso. destruct (Hx _ Hs) as [? ?]. done.
    + apply ctx_at_insert_ne; [|done]. apply ctx_at_insert_ctx, Hx.
Qed.

(** The eleven steps of one call, run alone, are the sequential call. *)
Lemma solo_run_sequential h self c rest p w :
  facade_ok h self p w -> is_context h c ->
  solo_run self 11 (Caller (c :: rest) CBegin) h =
    (fun r => (Caller rest CBegin, r.2)) <$> set_context self c h.
Proof.
  intros Hf Hc. pose proof Hc as [id [m Hcm]].
  destruct (fo_self _ _ _ _ Hf) as [n Hs]. destruct (fo_web _ _ _ _ Hf) as [mw Hw].
  destruct (fo_context _ _ _ _ Hf) as [Hr Hold]. destruct (fo_web_context _ _ _ _ Hf) as [Hwr Hwold].
  assert (Hcs : c <> self) by (eapply is_context_not_plugin; [exact Hc|exists n; exact Hs]).
  assert (Hcw : c <> web_resource_provider p) by (eapply context_ne; [exact Hc|exists mw; exact Hw|done]).
  assert (Hsw : self <> web_resource_provider p) by (intros Heq; rewrite <- Heq in Hw; congruence).
  assert (Hne : forall x, is_context h x -> x <> self /\ x <> web_resource_provider p).
  { intros x Hx. split; [eapply is_context_not_plugin; [exact Hx|exists n; exact Hs]|].
    eapply context_ne; [exact Hx|exists mw; exact Hw|done]. }
  rewrite (solo_run_add self 5 6), (solo_head self c rest p n id m h Hs Hr Hcm Hcs)
    by (intros x Hx; split; [apply (Hne x (Hold x Hx))|apply is_context_ctx_at, Hold, Hx]).
  rewrite (head_seq_set_context self c p n id m h Hs Hr Hcm Hcs)
    by (intros x Hx; split; [apply (Hne x (Hold x Hx))|apply is_context_ctx_at, Hold, Hx]).
  destruct (head_seq self c p n h) as [h3|] eqn:Hh; [|done]. cbn [fmap option_fmap option_map].
  destruct (head_seq_shape self c p w n mw id m h h3 Hs Hw Hcm (fun x Hx => Hne x (Hold x Hx)) Hcs Hh)
    as (Hs3 & Hw3 & Hk3).
  assert (Hwold3 : forall x, rw_data (wrp_context w) = Some x ->
            x <> self /\ x <> web_resource_provider p /\ ctx_at h3 x).
  { intros x Hx. destruct (Hne x (Hwold x Hx)). split_and!; [done|done|]. apply Hk3, is_context_ctx_at, Hwold, Hx. }
  rewrite (solo_tail self c rest (with_context p (stored c)) w n mw h3 Hs3 Hw3 Hwr
             (Hk3 c (is_context_ctx_at _ _ Hc)) Hcs Hcw Hsw Hwold3).
  rewrite (tail_seq_forward self c p w mw h3 Hw3 Hwr
             (Hk3 c (is_context_ctx_at _ _ Hc)) Hcw Hwold3).
  change (tail_seq c (with_context p (stored c)) w mw h3) with (tail_seq c p w mw h3).
  by destruct (tail_seq c p w mw h3).
Qed.


(** ** Witness *)

(** The booted facade after [set_context] of context 7 (location 6); the
    host still holds context 8 (location 7). *)
Definition set_once_heap : pheap :=
  match set_context boot_self (Loc 6) two_ctx_heap with Some (_, h) => h | None => ∅ end.

